(** * vulcan-check-sdk: target classifier, check state machine, push
      transport, process harness and local runner.

    A shallow embedding of the Go sources.  Go strings are byte strings
    ([string] of [ascii]); an [int] that only counts or indexes is a [nat],
    a byte or a parsed number is a [Z]; a [float32] is a [spec_float] read
    at precision 24; a goroutine is a thread of a transition system whose
    interleavings are the schedules. *)

From Stdlib Require Import ZArith List Bool Lia String Ascii.
From Stdlib Require Import Floats.SpecFloat.
Import ListNotations.

Local Open Scope string_scope.
Local Open Scope list_scope.
Local Open Scope Z_scope.

(** ** Go values shared by the packages *)

(** A Go [error].  Package-level sentinels are compared by identity in the
    sources ([err == context.Canceled]), so each one is a constructor of its
    own; every error built at run time ([fmt.Errorf], [errors.New] inside a
    function, an error of the resolver) is an [Errorf] carrying its text. *)
Inductive error : Type :=
| context_Canceled
| ErrFailedToGetDNSAnswer
| Errorf (msg : string).

Definition Error (e : error) : string :=
  match e with
  | context_Canceled => "context canceled"
  | ErrFailedToGetDNSAnswer => "failed to get a valid answer"
  | Errorf msg => msg
  end.

Definition error_eq_dec (a b : error) : {a = b} + {a <> b}.
Proof. decide equality; apply string_dec. Defined.

(** [s[c:]] *)
Fixpoint drop (c : nat) (s : string) : string :=
  match c, s with
  | O, _ => s
  | S c', String _ s' => drop c' s'
  | S _, EmptyString => EmptyString
  end.

(** [strings.Contains(s, substr)] *)
Definition strings_Contains (s substr : string) : bool :=
  match index 0 substr s with
  | Some _ => true
  | None => false
  end.

(** The byte [c] occurs in [s]. *)
Fixpoint has (c : ascii) (s : string) : bool :=
  match s with
  | EmptyString => false
  | String c' s' => Ascii.eqb c' c || has c s'
  end.

(** How often the byte [c] occurs in [s]. *)
Fixpoint count_byte (c : ascii) (s : string) : nat :=
  match s with
  | EmptyString => O
  | String c' s' => (if Ascii.eqb c' c then 1 else 0) + count_byte c s'
  end.

(** [strings.SplitAfterN(s, sep, 2)] for a separator [sep] of one byte: the
    part up to and with the first separator and the rest, or [s] alone. *)
Fixpoint cut_after (sep : ascii) (s : string) : option (string * string) :=
  match s with
  | EmptyString => None
  | String c s' =>
      if Ascii.eqb c sep then Some (String c EmptyString, s')
      else match cut_after sep s' with
           | Some (a, b) => Some (String c a, b)
           | None => None
           end
  end.

Definition strings_SplitAfterN2 (s : string) (sep : ascii) : list string :=
  match cut_after sep s with
  | Some (a, b) => [a; b]
  | None => [s]
  end.

(** [strings.Split(s, sep)] for a separator of one byte. *)
Fixpoint strings_Split (s : string) (sep : ascii) : list string :=
  match s with
  | EmptyString => [EmptyString]
  | String c s' =>
      if Ascii.eqb c sep then EmptyString :: strings_Split s' sep
      else match strings_Split s' sep with
           | piece :: pieces => String c piece :: pieces
           | [] => [String c EmptyString]
           end
  end.

(** [strings.HasSuffix(s, suffix)] *)
Definition strings_HasSuffix (s suffix : string) : bool :=
  (String.length suffix <=? String.length s)%nat
  && String.eqb (drop (String.length s - String.length suffix) s) suffix.

Definition byte_of (c : ascii) : Z := Z.of_N (N_of_ascii c).

Definition is_byte (b : Z) : Prop := 0 <= b <= 255.

(** [lo <= c && c <= hi] on bytes *)
Definition between (lo hi c : ascii) : bool :=
  (byte_of lo <=? byte_of c) && (byte_of c <=? byte_of hi).

(** ** Package net of the Go standard library (ip.go, parse.go)

    The classifier is written against [net.ParseIP], [net.ParseCIDR] and
    [IPNet.Contains]; they are transcribed here from the library so that
    the classifier can be evaluated on concrete strings.  An [IP] or an
    [IPMask] is a byte slice, of length 4 or 16; [nil] is [None]. *)
Module net.

Definition IP := list Z.
Definition IPMask := list Z.

Definition IPv4len : nat := 4.
Definition IPv6len : nat := 16.

Definition big : Z := 0xFFFFFF.

Definition dtoi_end (n : Z) (i : nat) : Z * nat * bool :=
  match i with
  | O => (0, O, false)
  | _ => (n, i, true)
  end.

(** [dtoi(s)]: decimal to integer; returns the number, the characters
    consumed and success. *)
Fixpoint dtoi_from (s : string) (n : Z) (i : nat) : Z * nat * bool :=
  match s with
  | String c s' =>
      if between "0" "9" c then
        let n' := n * 10 + (byte_of c - byte_of "0") in
        if big <=? n' then (big, i, false) else dtoi_from s' n' (S i)
      else dtoi_end n i
  | EmptyString => dtoi_end n i
  end.

Definition dtoi (s : string) : Z * nat * bool := dtoi_from s 0 O.

(** [xtoi(s)]: hexadecimal to integer. *)
Definition xdigit (c : ascii) : option Z :=
  if between "0" "9" c then Some (byte_of c - byte_of "0")
  else if between "a" "f" c then Some (byte_of c - byte_of "a" + 10)
  else if between "A" "F" c then Some (byte_of c - byte_of "A" + 10)
  else None.

Fixpoint xtoi_from (s : string) (n : Z) (i : nat) : Z * nat * bool :=
  match s with
  | String c s' =>
      match xdigit c with
      | Some d =>
          let n' := n * 16 + d in
          if big <=? n' then (0, i, false) else xtoi_from s' n' (S i)
      | None => dtoi_end n i
      end
  | EmptyString => dtoi_end n i
  end.

Definition xtoi (s : string) : Z * nat * bool := xtoi_from s 0 O.

Definition v4InV6Prefix : list Z := [0; 0; 0; 0; 0; 0; 0; 0; 0; 0; 0xff; 0xff].

(** [IPv4(a, b, c, d)]: the 16-byte form of an IPv4 address. *)
Definition IPv4 (a b c d : Z) : IP := v4InV6Prefix ++ [a; b; c; d].

Definition starts_with (c : ascii) (s : string) : bool :=
  match s with
  | String c' _ => Ascii.eqb c' c
  | EmptyString => false
  end.

(** The loop of [parseIPv4]: [k] octets are still to be read, [first] tells
    the octet with index 0, [p] holds the octets read so far. *)
Fixpoint parseIPv4_octets (k : nat) (first : bool) (s : string) (p : list Z)
  : option (list Z * string) :=
  match k with
  | O => Some (p, s)
  | S k' =>
      match s with
      | EmptyString => None                      (* missing octets *)
      | String c0 s0 =>
          let after_dot :=
            if first then Some s
            else if Ascii.eqb c0 "." then Some s0 else None in
          match after_dot with
          | None => None
          | Some s1 =>
              let '(n, c, ok) := dtoi s1 in
              if negb ok || (0xFF <? n) then None
              else if (1 <? c)%nat && starts_with "0" s1 then None
              else parseIPv4_octets k' false (drop c s1) (p ++ [n])
          end
      end
  end.

(** [parseIPv4(s)] *)
Definition parseIPv4 (s : string) : option IP :=
  match parseIPv4_octets IPv4len true s [] with
  | Some ([a; b; c; d], EmptyString) => Some (IPv4 a b c d)
  | _ => None
  end.

(** [ip[i] = v] *)
Fixpoint set_byte (i : nat) (v : Z) (ip : list Z) : list Z :=
  match ip, i with
  | [], _ => []
  | _ :: t, O => v :: t
  | h :: t, S i' => h :: set_byte i' v t
  end.

Definition get_byte (i : nat) (ip : list Z) : Z := nth i ip 0.

(** State of the main loop of [parseIPv6] when it is left. *)
Record v6state : Type := mk_v6state {
  v6_ip : list Z;
  v6_i : nat;
  v6_ellipsis : option nat;
  v6_rest : string
}.

(** The loop [for i < IPv6len] of [parseIPv6].  Every turn adds at least 2
    to [i], so 8 turns of fuel are enough; [None] is [return nil]. *)
Fixpoint parseIPv6_loop (fuel : nat) (ip : list Z) (i : nat)
    (ellipsis : option nat) (s : string) : option v6state :=
  if (IPv6len <=? i)%nat then Some (mk_v6state ip i ellipsis s)
  else
    match fuel with
    | O => None
    | S fuel' =>
        let '(n, c, ok) := xtoi s in
        if negb ok || (0xFFFF <? n) then None
        else if starts_with "." (drop c s) then
          (* trailing IPv4 *)
          if (match ellipsis with None => true | Some _ => false end)
             && negb (i =? IPv6len - IPv4len)%nat then None
          else if (IPv6len <? i + IPv4len)%nat then None
          else
            match parseIPv4 s with
            | None => None
            | Some ip4 =>
                let ip := set_byte i (get_byte 12 ip4) ip in
                let ip := set_byte (i + 1) (get_byte 13 ip4) ip in
                let ip := set_byte (i + 2) (get_byte 14 ip4) ip in
                let ip := set_byte (i + 3) (get_byte 15 ip4) ip in
                Some (mk_v6state ip (i + IPv4len) ellipsis EmptyString)
            end
        else
          let ip := set_byte i (Z.shiftr n 8) ip in
          let ip := set_byte (i + 1) (Z.land n 0xff) ip in
          let i := (i + 2)%nat in
          match drop c s with
          | EmptyString => Some (mk_v6state ip i ellipsis EmptyString)
          | String c1 EmptyString => None
          | String c1 (String c2 s2 as s1) =>
              if negb (Ascii.eqb c1 ":") then None
              else if Ascii.eqb c2 ":" then
                match ellipsis with
                | Some _ => None                 (* already have one *)
                | None =>
                    match s2 with
                    | EmptyString => Some (mk_v6state ip i (Some i) EmptyString)
                    | _ => parseIPv6_loop fuel' ip i (Some i) s2
                    end
                end
              else parseIPv6_loop fuel' ip i ellipsis s1
          end
    end.

(** Expanding the ellipsis: the bytes [ellipsis .. i-1] move up by [n] and
    [n] zero bytes are written at [ellipsis]. *)
Definition expand_ellipsis (ip : list Z) (i e : nat) : list Z :=
  firstn e ip ++ repeat 0 (IPv6len - i) ++ firstn (i - e) (skipn e ip).

(** [parseIPv6(s)] *)
Definition parseIPv6 (s : string) : option IP :=
  let ip0 := repeat 0 IPv6len in
  let start :=
    match s with
    | String c1 (String c2 s') =>
        if Ascii.eqb c1 ":" && Ascii.eqb c2 ":" then (Some O, s') else (None, s)
    | _ => (None, s)
    end in
  match start with
  | (Some _, EmptyString) => Some ip0            (* only the ellipsis *)
  | (ellipsis, s) =>
      match parseIPv6_loop 8 ip0 0 ellipsis s with
      | None => None
      | Some st =>
          match v6_rest st with
          | String _ _ => None                   (* must use the whole string *)
          | EmptyString =>
              if (v6_i st <? IPv6len)%nat then
                match v6_ellipsis st with
                | None => None
                | Some e => Some (expand_ellipsis (v6_ip st) (v6_i st) e)
                end
              else
                match v6_ellipsis st with
                | Some _ => None                 (* an ellipsis stands for a group *)
                | None => Some (v6_ip st)
                end
          end
      end
  end.

(** [ParseIP(s)]: the first ['.'] or [':'] of [s] selects the parser. *)
Fixpoint ParseIP_scan (s whole : string) : option IP :=
  match s with
  | EmptyString => None
  | String c s' =>
      if Ascii.eqb c "." then parseIPv4 whole
      else if Ascii.eqb c ":" then parseIPv6 whole
      else ParseIP_scan s' whole
  end.

Definition ParseIP (s : string) : option IP := ParseIP_scan s s.

Definition isZeros (p : list Z) : bool := forallb (Z.eqb 0) p.

(** [ip.To4()] *)
Definition To4 (ip : IP) : option IP :=
  if (List.length ip =? IPv4len)%nat then Some ip
  else if (List.length ip =? IPv6len)%nat
          && isZeros (firstn 10 ip)
          && (get_byte 10 ip =? 0xff) && (get_byte 11 ip =? 0xff)
  then Some (firstn 4 (skipn 12 ip))
  else None.

(** [CIDRMask(ones, bits)] *)
Fixpoint CIDRMask_bytes (l : nat) (n : Z) : list Z :=
  match l with
  | O => []
  | S l' =>
      if 8 <=? n then 0xff :: CIDRMask_bytes l' (n - 8)
      else Z.land (Z.lnot (Z.shiftr 0xff n)) 0xff :: CIDRMask_bytes l' 0
  end.

Definition CIDRMask (ones bits : Z) : option IPMask :=
  if negb (bits =? 8 * Z.of_nat IPv4len) && negb (bits =? 8 * Z.of_nat IPv6len)
  then None
  else if (ones <? 0) || (bits <? ones) then None
  else Some (CIDRMask_bytes (Z.to_nat (bits / 8)) ones).

Definition allFF (b : list Z) : bool := forallb (Z.eqb 0xff) b.

Definition bytes_eqb (a b : list Z) : bool :=
  (List.length a =? List.length b)%nat && forallb (fun p => fst p =? snd p) (combine a b).

(** [ip.Mask(mask)] *)
Definition Mask (ip : IP) (mask : IPMask) : option IP :=
  let mask :=
    if (List.length mask =? IPv6len)%nat && (List.length ip =? IPv4len)%nat
       && allFF (firstn 12 mask)
    then skipn 12 mask else mask in
  let ip :=
    if (List.length mask =? IPv4len)%nat && (List.length ip =? IPv6len)%nat
       && bytes_eqb (firstn 12 ip) v4InV6Prefix
    then skipn 12 ip else ip in
  if negb (List.length ip =? List.length mask)%nat then None
  else Some (map (fun p => Z.land (fst p) (snd p)) (combine ip mask)).

(** [IPNet] *)
Record IPNet : Type := mk_IPNet {
  net_IP : IP;
  net_Mask : IPMask
}.

(** Index of the first ['/'] of [s], with the two sides. *)
Fixpoint cut_slash (s : string) : option (string * string) :=
  match s with
  | EmptyString => None
  | String c s' =>
      if Ascii.eqb c "/" then Some (EmptyString, s')
      else match cut_slash s' with
           | Some (a, m) => Some (String c a, m)
           | None => None
           end
  end.

(** [ParseCIDR(s)]: the address and the network it lies in; [None] is the
    [ParseError]. *)
Definition ParseCIDR (s : string) : option (IP * IPNet) :=
  match cut_slash s with
  | None => None
  | Some (addr, mask) =>
      let '(iplen, ip) :=
        match parseIPv4 addr with
        | Some ip => (IPv4len, Some ip)
        | None => (IPv6len, parseIPv6 addr)
        end in
      let '(n, i, ok) := dtoi mask in
      match ip with
      | None => None
      | Some ip =>
          if negb ok || negb (i =? String.length mask)%nat
             || (n <? 0) || (8 * Z.of_nat iplen <? n)
          then None
          else
            match CIDRMask n (8 * Z.of_nat iplen) with
            | None => None
            | Some m =>
                match Mask ip m with
                | None => None
                | Some nip => Some (ip, mk_IPNet nip m)
                end
            end
      end
  end.

(** [networkNumberAndMask(n)]; the result [(nil, nil)] is [([], [])]. *)
Definition networkNumberAndMask (n : IPNet) : IP * IPMask :=
  let ip :=
    match To4 (net_IP n) with
    | Some ip4 => Some ip4
    | None => if (List.length (net_IP n) =? IPv6len)%nat then Some (net_IP n) else None
    end in
  match ip with
  | None => ([], [])
  | Some ip =>
      let m := net_Mask n in
      if (List.length m =? IPv4len)%nat then
        if (List.length ip =? IPv4len)%nat then (ip, m) else ([], [])
      else if (List.length m =? IPv6len)%nat then
        if (List.length ip =? IPv4len)%nat then (ip, skipn 12 m) else (ip, m)
      else ([], [])
  end.

(** [n.Contains(ip)] *)
Definition Contains (n : IPNet) (ip : IP) : bool :=
  let '(nn, m) := networkNumberAndMask n in
  let ip := match To4 ip with Some x => x | None => ip end in
  if negb (List.length ip =? List.length nn)%nat then false
  else forallb (fun t => Z.land (fst (fst t)) (snd t) =? Z.land (snd (fst t)) (snd t))
               (combine (combine nn ip) m).

End net.

(** ** Package helpers: the target classifier *)

(** A Go pair [(value, err)]. *)
Inductive result (A : Type) : Type :=
| Ok (a : A)
| Err (e : error).
Arguments Ok {A} a.
Arguments Err {A} e.

Module dns.

Definition TypeSOA : Z := 6.
Definition RcodeSuccess : Z := 0.

(** [dns.RR_Header], the fields the classifier reads. *)
Record RR_Header : Type := mk_RR_Header {
  Name : string;
  Rrtype : Z
}.

(** [dns.Msg], the fields the classifier reads. *)
Record Msg : Type := mk_Msg {
  Rcode : Z;
  Answer : list RR_Header
}.

(** [dns.ClientConfig] *)
Record ClientConfig : Type := mk_ClientConfig {
  Servers : list string;
  Port : string
}.

End dns.

(** What the standard library and the network answer: the outcome of
    [url.ParseRequestURI] followed by [URL.Hostname], of the forward lookups
    of package net, of reading the resolver configuration file, and of one
    [dns.Client.Exchange] of a question with a server.  A failed lookup
    returns no addresses; a successful exchange returns a message. *)
Record Platform : Type := mk_Platform {
  url_Hostname : string -> option string;
  net_LookupHost : string -> result (list string);
  net_LookupIP : string -> result (list net.IP);
  dns_ClientConfigFromFile : string -> result dns.ClientConfig;
  dns_Exchange : string -> Z -> string -> result dns.Msg
}.

Module helpers.

Definition dnsConfFilePath : string := "/etc/resolv.conf".
Definition noSuchHostErrorToken : string := "no such host".

Definition reservedIPV4s : list string :=
  [ "0.0.0.0/8"; "10.0.0.0/8"; "100.64.0.0/10"; "127.0.0.0/8";
    "169.254.0.0/16"; "172.16.0.0/12"; "192.0.0.0/24"; "192.0.2.0/24";
    "192.88.99.0/24"; "192.168.0.0/16"; "198.18.0.0/15"; "198.51.100.0/24";
    "203.0.113.0/24"; "224.0.0.0/4"; "240.0.0.0/4"; "255.255.255.255/32" ].

Definition reservedIPV6s : list string :=
  [ "::1/128"; "64:ff9b::/96"; "100::/64"; "2001::/32"; "2001:20::/28";
    "2001:db8::/32"; "2002::/16"; "fc00::/7"; "fe80::/10"; "ff00::/8" ].

(** The loops of [init]: the network of every entry, in order.  Every entry
    parses ([init_parses_every_entry] below), so no element is [nil]. *)
Fixpoint init_nets (l : list string) : list net.IPNet :=
  match l with
  | [] => []
  | ip :: l' =>
      match net.ParseCIDR ip with
      | Some (_, reserved) => reserved :: init_nets l'
      | None => init_nets l'
      end
  end.

Definition NotScannableNetsIPV4 : list net.IPNet := init_nets reservedIPV4s.
Definition NotScannableNetsIPV6 : list net.IPNet := init_nets reservedIPV6s.

(** [Target] *)
Record Target : Type := mk_Target {
  Value : string;
  hostname : option bool;
  domainName : option bool
}.

Definition IsIP (t : Target) : bool :=
  match net.ParseIP (Value t) with Some _ => true | None => false end.

Definition IsCIDR (t : Target) : bool :=
  match net.ParseCIDR (Value t) with Some _ => true | None => false end.

(** [IsDockerImage]: split on the first slash, look for a dot in the first
    element, split the second element on colons and want two pieces. *)
Definition IsDockerImage (t : Target) : bool :=
  let slashSplit := strings_SplitAfterN2 (Value t) "/" in
  if (1 <? List.length slashSplit)%nat then
    if strings_Contains (nth 0 slashSplit EmptyString) "." then
      let targetSplit := strings_Split (nth 1 slashSplit EmptyString) ":" in
      if (List.length targetSplit =? 2)%nat then true else false
    else false
  else false.

(** [isAllowed(addr)] *)
Definition isAllowed (addr : string) : result bool :=
  let '(addrCIDR, nets) :=
    if strings_Contains addr "." then
      (if negb (strings_Contains addr "/") then (addr ++ "/32")%string else addr,
       NotScannableNetsIPV4)
    else
      (if negb (strings_Contains addr "/") then (addr ++ "/128")%string else addr,
       NotScannableNetsIPV6) in
  match net.ParseCIDR addrCIDR with
  | None => Err (Errorf ("error parsing the ip address " ++ addr)%string)
  | Some (_, addrNet) =>
      if existsb (fun n => net.Contains n (net.net_IP addrNet)) nets
      then Ok false
      else Ok true
  end.

(** [verifyIPs(addrs)] *)
Fixpoint verifyIPs (addrs : list string) : bool :=
  match addrs with
  | [] => true
  | addr :: rest =>
      match isAllowed addr with
      | Ok true => verifyIPs rest
      | _ => false
      end
  end.

Section WithPlatform.

Variable P : Platform.

Definition IsURL (t : Target) : bool :=
  match url_Hostname P (Value t) with Some _ => true | None => false end.

(** [IsScannable(asset)] *)
Definition IsScannable (asset : string) : bool :=
  let t := mk_Target asset None None in
  if IsIP t || IsCIDR t then
    match isAllowed (Value t) with
    | Ok ok => ok
    | Err _ => false
    end
  else
    let asset :=
      if IsURL t then
        match url_Hostname P (Value t) with Some h => h | None => asset end
      else asset in
    let addrs :=
      match net_LookupHost P asset with
      | Ok addrs => addrs
      | Err _ => []
      end in
    verifyIPs addrs.

(** *** The methods that query the resolver

    The process-wide state these methods touch: the memoized resolver
    configuration [dnsConf] and, as a ghost, the queries sent so far. *)

Inductive Query : Type :=
| QLookupIP (host : string)
| QReadConf (path : string)
| QExchange (name : string) (qtype : Z) (server : string).

Record World : Type := mk_World {
  dnsConf : option dns.ClientConfig;
  queries : list Query
}.

Definition M (A : Type) : Type := World -> A * World.

Definition ret {A} (a : A) : M A := fun w => (a, w).

Definition bind {A B} (c : M A) (k : A -> M B) : M B :=
  fun w => let '(a, w') := c w in k a w'.

Notation "x <- c ;; k" := (bind c (fun x => k))
  (at level 61, c at next level, right associativity).

Definition sent (q : Query) : M unit :=
  fun w => (tt, mk_World (dnsConf w) (queries w ++ [q])).

Definition LookupIP (host : string) : M (result (list net.IP)) :=
  _ <- sent (QLookupIP host) ;; ret (net_LookupIP P host).

Definition ClientConfigFromFile (path : string) : M (result dns.ClientConfig) :=
  _ <- sent (QReadConf path) ;; ret (dns_ClientConfigFromFile P path).

Definition Exchange (name : string) (qtype : Z) (server : string) : M (result dns.Msg) :=
  _ <- sent (QExchange name qtype server) ;; ret (dns_Exchange P name qtype server).

Definition get_dnsConf : M (option dns.ClientConfig) := fun w => (dnsConf w, w).

Definition set_dnsConf (c : dns.ClientConfig) : M unit :=
  fun w => (tt, mk_World (Some c) (queries w)).

(** The body of [IsHostname], run on the receiver [t]; it returns the
    receiver as the body leaves it together with the results. *)
Definition IsHostname_body (t : Target) : M (Target * (bool * option error)) :=
  match hostname t with
  | Some h => ret (t, (h, None))
  | None =>
      if IsIP t then
        let is' := false in
        let t := mk_Target (Value t) (Some is') (domainName t) in
        ret (t, (is', None))
      else
        r <- LookupIP (Value t) ;;
        match r with
        | Err err =>
            if strings_Contains (Error err) noSuchHostErrorToken
            then ret (t, (false, None))
            else ret (t, (false, Some err))
        | Ok r =>
            let is' := (0 <? List.length r)%nat in
            let t := mk_Target (Value t) (Some is') (domainName t) in
            ret (t, (is', None))
        end
  end.

(** [func (t Target) IsHostname() (bool, error)]: the receiver is passed by
    value, so the body runs on a copy of the caller's [Target] and what it
    stores in the copy is gone when the call returns. *)
Definition IsHostname (t : Target) : M (bool * option error) :=
  x <- IsHostname_body t ;; ret (snd x).

(** [soaHeaderForName(r, name)] *)
Definition soaHeaderForName (r : dns.Msg) (name : string) : bool :=
  existsb (fun h => String.eqb (dns.Name h) name && (dns.Rrtype h =? dns.TypeSOA))
          (dns.Answer r).

(** The loop of [hasSOARecord] over the configured servers; [r] is the
    variable assigned in the loop, [Err] the early [return false, err]. *)
Fixpoint hasSOARecord_servers (servers : list string) (port address : string)
    (r : option dns.Msg) : M (result (option dns.Msg)) :=
  match servers with
  | [] => ret (Ok r)
  | srv :: rest =>
      x <- Exchange address dns.TypeSOA (srv ++ ":" ++ port)%string ;;
      match x with
      | Err err => ret (Err err)
      | Ok r' =>
          if dns.Rcode r' =? dns.RcodeSuccess
          then ret (Ok (Some r'))                        (* break *)
          else hasSOARecord_servers rest port address (Some r')
      end
  end.

(** [hasSOARecord(address)] *)
Definition hasSOARecord (address : string) : M (bool * option error) :=
  conf <- get_dnsConf ;;
  c <- match conf with
       | Some c => ret (Ok c)
       | None =>
           x <- ClientConfigFromFile dnsConfFilePath ;;
           match x with
           | Err err => ret (Err err)
           | Ok c => _ <- set_dnsConf c ;; ret (Ok c)
           end
       end ;;
  match c with
  | Err err => ret (false, Some err)
  | Ok c =>
      let address := (address ++ ".")%string in
      x <- hasSOARecord_servers (dns.Servers c) (dns.Port c) address None ;;
      match x with
      | Err err => ret (false, Some err)
      | Ok None => ret (false, Some ErrFailedToGetDNSAnswer)
      | Ok (Some r) => ret (soaHeaderForName r address, None)
      end
  end.

(** [IsDomainName(asset)] *)
Definition IsDomainName_asset (asset : string) : M (bool * option error) :=
  hasSOARecord asset.

(** The body of the method [IsDomainName], run on the receiver [t]. *)
Definition IsDomainName_body (t : Target) : M (Target * (bool * option error)) :=
  match domainName t with
  | Some d => ret (t, (d, None))
  | None =>
      if IsIP t then ret (t, (false, None))
      else
        x <- IsDomainName_asset (Value t) ;;
        match x with
        | (_, Some err) => ret (t, (false, Some err))
        | (is', None) =>
            let t := mk_Target (Value t) (hostname t) (Some is') in
            ret (t, (is', None))
        end
  end.

(** [func (t Target) IsDomainName() (bool, error)], by value as well. *)
Definition IsDomainName (t : Target) : M (bool * option error) :=
  x <- IsDomainName_body t ;; ret (snd x).

End WithPlatform.

Arguments ret {A} a _ /.
Arguments bind {A B} c k _ /.

Definition world0 : World := mk_World None [].

End helpers.

(** A stand-in for [url.ParseRequestURI] and [URL.Hostname] used to evaluate
    the classifier on concrete strings: it finds the scheme as [getScheme]
    does, rejects an empty string and a string with neither scheme nor
    leading slash, gives an opaque or path-only URI the empty host, and
    reads the host of [scheme://host:port/path] up to the first colon or
    slash.  User information, escapes and bracketed hosts are left out. *)
Module url.

Definition is_letter (c : ascii) : bool := between "a" "z" c || between "A" "Z" c.

Definition is_scheme_extra (c : ascii) : bool :=
  between "0" "9" c || Ascii.eqb c "+" || Ascii.eqb c "-" || Ascii.eqb c ".".

(** [getScheme]: [Some (scheme, rest)], or [None] for a missing scheme
    (a leading colon). *)
Fixpoint getScheme_from (s : string) (i : nat) (acc whole : string)
  : option (string * string) :=
  match s with
  | EmptyString => Some (EmptyString, whole)
  | String c s' =>
      if is_letter c then getScheme_from s' (S i) (acc ++ String c EmptyString)%string whole
      else if is_scheme_extra c then
        match i with
        | O => Some (EmptyString, whole)
        | _ => getScheme_from s' (S i) (acc ++ String c EmptyString)%string whole
        end
      else if Ascii.eqb c ":" then
        match i with
        | O => None
        | _ => Some (acc, s')
        end
      else Some (EmptyString, whole)
  end.

Fixpoint up_to (stop : ascii -> bool) (s : string) : string :=
  match s with
  | EmptyString => EmptyString
  | String c s' => if stop c then EmptyString else String c (up_to stop s')
  end.

Definition Hostname (rawURL : string) : option string :=
  match rawURL with
  | EmptyString => None
  | _ =>
      match getScheme_from rawURL 0 EmptyString rawURL with
      | None => None
      | Some (scheme, rest) =>
          let rest := up_to (Ascii.eqb "?") rest in
          match rest with
          | String "/" (String "/" auth) =>
              match scheme with
              | EmptyString => Some EmptyString
              | _ => Some (up_to (fun c => Ascii.eqb c "/" || Ascii.eqb c ":") auth)
              end
          | String "/" _ => Some EmptyString
          | _ =>
              match scheme with
              | EmptyString => None
              | _ => Some EmptyString
              end
          end
      end
  end.

End url.

(** A platform without network: every lookup fails the way the Go resolver
    reports an unknown host, and no resolver configuration can be read. *)
Definition no_such_host (h : string) : error :=
  Errorf ("lookup " ++ h ++ ": no such host")%string.

Definition offline : Platform :=
  {| url_Hostname := url.Hostname;
     net_LookupHost := fun h => Err (no_such_host h);
     net_LookupIP := fun h => Err (no_such_host h);
     dns_ClientConfigFromFile := fun f =>
       Err (Errorf ("open " ++ f ++ ": no such file or directory")%string);
     dns_Exchange := fun _ _ srv =>
       Err (Errorf ("dial udp " ++ srv ++ ": i/o timeout")%string) |}.

(** A platform on which the names of the test suite resolve. *)
Definition testnet : Platform :=
  {| url_Hostname := url.Hostname;
     net_LookupHost := fun h =>
       if String.eqb h "localhost" then Ok ["127.0.0.1"; "::1"]
       else if String.eqb h "www.example.com"
       then Ok ["93.184.216.34"; "2606:2800:220:1:248:1893:25c8:1946"]
       else if String.eqb h "example.com" then Ok ["93.184.216.34"]
       else Err (no_such_host h);
     net_LookupIP := fun h =>
       if String.eqb h "localhost" then Ok [net.IPv4 127 0 0 1]
       else if String.eqb h "www.example.com" then Ok [net.IPv4 93 184 216 34]
       else if String.eqb h "example.com" then Ok [net.IPv4 93 184 216 34]
       else Err (no_such_host h);
     dns_ClientConfigFromFile := fun _ =>
       Ok (dns.mk_ClientConfig ["192.0.2.53"] "53");
     dns_Exchange := fun name qtype _ =>
       if String.eqb name "example.com." then
         Ok (dns.mk_Msg dns.RcodeSuccess [dns.mk_RR_Header "example.com." dns.TypeSOA])
       else if String.eqb name "www.example.com." then
         Ok (dns.mk_Msg dns.RcodeSuccess [])
       else Ok (dns.mk_Msg 3 []) |}.

(** ** Logging and control outcomes *)

Inductive Level : Type := DebugLevel | InfoLevel | WarnLevel | ErrorLevel.

Record LogEntry : Type := mk_LogEntry {
  level : Level;
  message : string
}.

(** How a call ends: it returns, or it panics and takes the process down. *)
Inductive Outcome : Type :=
| Returns
| Panics (reason : string).

(** A [float32]. *)
Definition float32 : Type := spec_float.

Definition f32_zero : float32 := S754_zero false.
Definition f32_one : float32 := S754_finite false 8388608 (-23).

(** [a > b] on floats: false when either side is a NaN. *)
Definition f32_gt (a b : float32) : bool := SFltb b a.

(** ** Package agent *)
Module agent.

Definition StatusRunning : string := "RUNNING".
Definition StatusFinished : string := "FINISHED".
Definition StatusAborted : string := "ABORTED".
Definition StatusFailed : string := "FAILED".

(** [vulcanreport.ResultData], a type of the report library: the result
    payload the check body fills in, and the error text. *)
Record ResultData : Type := mk_ResultData {
  Vulnerabilities : list string;
  Data : string;
  Notes : string;
  Error : string
}.

(** [vulcanreport.Report]: the check data the SDK writes, and the embedded
    result data.  Times are seconds. *)
Record Report : Type := mk_Report {
  CheckID : string;
  StartTime : Z;
  EndTime : Z;
  Report_Status : string;
  Target : string;
  Options : string;
  Result : ResultData
}.

(** [State] *)
Record State : Type := mk_State {
  Status : string;
  Progress : float32;
  Report_ : Report
}.

Definition with_Status (s : State) (v : string) : State :=
  mk_State v (Progress s) (Report_ s).

Definition with_Progress (s : State) (v : float32) : State :=
  mk_State (Status s) v (Report_ s).

Definition with_Report (s : State) (r : Report) : State :=
  mk_State (Status s) (Progress s) r.

Definition Report_with_Status (r : Report) (v : string) : Report :=
  mk_Report (CheckID r) (StartTime r) (EndTime r) v (Target r) (Options r) (Result r).

Definition Report_with_StartTime (r : Report) (t : Z) : Report :=
  mk_Report (CheckID r) t (EndTime r) (Report_Status r) (Target r) (Options r) (Result r).

Definition Report_with_EndTime (r : Report) (t : Z) : Report :=
  mk_Report (CheckID r) (StartTime r) t (Report_Status r) (Target r) (Options r) (Result r).

Definition Report_with_Result (r : Report) (d : ResultData) : Report :=
  mk_Report (CheckID r) (StartTime r) (EndTime r) (Report_Status r) (Target r) (Options r) d.

Definition Report_with_Error (r : Report) (e : string) : Report :=
  Report_with_Result r
    (mk_ResultData (Vulnerabilities (Result r)) (Data (Result r)) (Notes (Result r)) e).

End agent.

(** ** Package config, the fields the lifecycle reads *)
Module config.

Record CheckConfig : Type := mk_CheckConfig {
  Target : string;
  Opts : string;
  CheckID : string
}.

Record Config : Type := mk_Config {
  Check : CheckConfig;
  AllowPrivateIPs : option bool
}.

End config.

(** ** Package push: the check state machine and the lifecycle *)
Module push.

(** A call received by a [StatePusher]. *)
Inductive PusherCall : Type :=
| UpdateState (state : agent.State)
| Shutdown_.

(** [State]: the current [agent.State] and the pusher; the pusher is known
    by the calls it has received, oldest first. *)
Record State : Type := mk_State {
  pusher : list PusherCall;
  state : agent.State
}.

Definition SetStartTime (t : Z) (p : State) : State :=
  mk_State (pusher p)
    (agent.with_Report (state p) (agent.Report_with_StartTime (agent.Report_ (state p)) t)).

Definition SetEndTime (t : Z) (p : State) : State :=
  mk_State (pusher p)
    (agent.with_Report (state p) (agent.Report_with_EndTime (agent.Report_ (state p)) t)).

(** [p.pusher.UpdateState(p.state)] *)
Definition push_state (p : State) : State :=
  mk_State (pusher p ++ [UpdateState (state p)]) (state p).

Definition SetProgress (progress : float32) (p : State) : State :=
  if String.eqb (agent.Status (state p)) agent.StatusRunning
     && f32_gt progress (agent.Progress (state p))
  then push_state (mk_State (pusher p) (agent.with_Progress (state p) progress))
  else p.

(** The three assignments shared by the status setters. *)
Definition set_status (status : string) (progress : float32) (p : State) : State :=
  let s := agent.with_Status (state p) status in
  let s := agent.with_Progress s progress in
  mk_State (pusher p) s.

Definition set_report_status (status : string) (p : State) : State :=
  mk_State (pusher p)
    (agent.with_Report (state p) (agent.Report_with_Status (agent.Report_ (state p)) status)).

Definition set_report_error (e : string) (p : State) : State :=
  mk_State (pusher p)
    (agent.with_Report (state p) (agent.Report_with_Error (agent.Report_ (state p)) e)).

Definition SetStatusRunning (p : State) : State :=
  push_state (set_report_status agent.StatusRunning
                (set_status agent.StatusRunning f32_zero p)).

Definition SetStatusAborted (p : State) : State :=
  push_state (set_report_status agent.StatusAborted
                (set_status agent.StatusAborted f32_one p)).

Definition SetStatusFinished (p : State) : State :=
  push_state (set_report_status agent.StatusFinished
                (set_status agent.StatusFinished f32_one p)).

Definition SetStatusFailed (err : error) (p : State) : State :=
  push_state (set_report_status agent.StatusFailed
                (set_report_error (Error err)
                   (set_status agent.StatusFailed f32_one p))).

Definition Shutdown (p : State) : State :=
  mk_State (pusher p ++ [Shutdown_]) (state p).

Definition newState (s : agent.State) : State := mk_State [] s.

(** What a check body does with the [state.State] it is handed: it reports
    progress through the [ProgressReporter], which is the check state, and
    it writes the result data through the pointer into the report. *)
Inductive CheckerOp : Type :=
| ReportProgress (progress : float32)
| WriteResult (d : agent.ResultData).

(** [Checker]: [Run] is given whether the context is cancelled while it
    runs, the target and the options; it yields what it did with the state,
    in order, and the error it returns. *)
Record Checker : Type := mk_Checker {
  Run : bool -> string -> string -> list CheckerOp * option error
}.

Definition apply_op (op : CheckerOp) (p : State) : State :=
  match op with
  | ReportProgress progress => SetProgress progress p
  | WriteResult d =>
      mk_State (pusher p)
        (agent.with_Report (state p) (agent.Report_with_Result (agent.Report_ (state p)) d))
  end.

Definition apply_ops (ops : list CheckerOp) (p : State) : State :=
  fold_left (fun p op => apply_op op p) ops p.

(** [Check], the fields the lifecycle uses: [cancelled] tells whether
    [cancel] was called on the context, [cleanups] counts the calls of
    [CleanUp], [checkerFinished] is the counter of the wait group. *)
Record Check : Type := mk_Check {
  checkState : State;
  conf : config.Config;
  checker : Checker;
  cancelled : bool;
  cleanups : nat;
  checkerFinished : nat;
  Logger : list LogEntry
}.

Definition ptrToBool (b : option bool) : bool :=
  match b with
  | Some b => b
  | None => false
  end.

(** [executeChecker]; [now] is the clock read after the body. *)
Definition executeChecker (P : Platform) (now : Z) (c : Check) : Check :=
  let log := Logger c ++ [mk_LogEntry InfoLevel "Check start"] in
  let target := config.Target (config.Check (conf c)) in
  let opts := config.Opts (config.Check (conf c)) in
  let '(st, err, cleanups') :=
    if ptrToBool (config.AllowPrivateIPs (conf c)) || helpers.IsScannable P target then
      let '(ops, err) := Run (checker c) (cancelled c) target opts in
      (apply_ops ops (checkState c), err, S (cleanups c))
    else (checkState c, Some (Errorf "target is not scannable"), cleanups c) in
  let st := SetEndTime now st in
  let '(st, log) :=
    match err with
    | Some err =>
        if error_eq_dec err context_Canceled then
          (SetStatusAborted st, log ++ [mk_LogEntry InfoLevel "Check aborted"])
        else
          (SetStatusFailed err st, log ++ [mk_LogEntry ErrorLevel "Error running check"])
    | None => (SetStatusFinished st, log)
    end in
  mk_Check st (conf c) (checker c) (cancelled c) cleanups' (checkerFinished c - 1)
           (log ++ [mk_LogEntry InfoLevel "Check finished"]).

Definition log_entry (l : Level) (msg : string) (c : Check) : Check :=
  mk_Check (checkState c) (conf c) (checker c) (cancelled c) (cleanups c)
           (checkerFinished c) (Logger c ++ [mk_LogEntry l msg]).

(** [Abort]: it logs and calls [c.cancel]; the error it returns is [nil]. *)
Definition Abort (c : Check) : Check :=
  let c := log_entry WarnLevel "Aborting check" c in
  mk_Check (checkState c) (conf c) (checker c) true (cleanups c)
           (checkerFinished c) (Logger c).

(** What the [select] of the goroutine started by [API.Run] can receive. *)
Inductive APIEvent : Type :=
| ExitSignal                       (* a signal on [p.ExitSignal] *)
| Stop.                            (* the value [API.Shutdown] sends on [p.stop] *)

(** The loop of that goroutine over what it receives, in order; [aborted]
    is its local variable, returned with the check as the loop leaves it.
    The loop ends at the first [Stop]; with nothing left to receive it
    waits. *)
Fixpoint API_loop (events : list APIEvent) (aborted : bool) (c : Check)
  : Check * bool :=
  match events with
  | [] => (c, aborted)
  | ExitSignal :: events' =>
      if negb aborted then
        let c := log_entry WarnLevel "Exit signal received canceling check" c in
        let c := Abort c in
        API_loop events' true c
      else API_loop events' aborted c
  | Stop :: _ => (log_entry DebugLevel "Stop received" c, aborted)
  end.

(** [Check.Shutdown]: the state is shut down, then the listener is stopped
    and waited for; both calls return [nil]. *)
Definition Check_Shutdown (aborted : bool) (c : Check) : Check :=
  let c := log_entry DebugLevel "Shutting down check services" c in
  let c := mk_Check (Shutdown (checkState c)) (conf c) (checker c) (cancelled c)
                    (cleanups c) (checkerFinished c) (Logger c) in
  let '(c, _) := API_loop [Stop] aborted c in
  log_entry DebugLevel "Check services shutted down" c.

(** [RunAndServe].  The listener runs beside the call: [early] is the
    number of signals it receives before the body reads its context,
    [late] the number it receives between the return of the body and the
    stop.  [checkerFinished.Wait] returns when the counter is back at zero;
    [None] stands for a call that waits for ever. *)
Definition RunAndServe (P : Platform) (now : Z) (early late : nat) (c : Check)
  : option Check :=
  let c := mk_Check (checkState c) (conf c) (checker c) (cancelled c) (cleanups c)
                    (checkerFinished c + 1) (Logger c) in
  let '(c, aborted) := API_loop (repeat ExitSignal early) false c in
  let c := mk_Check (SetStatusRunning (checkState c)) (conf c) (checker c)
                    (cancelled c) (cleanups c) (checkerFinished c) (Logger c) in
  let c := executeChecker P now c in
  if (checkerFinished c =? 0)%nat then
    let '(c, aborted) := API_loop (repeat ExitSignal late) aborted c in
    Some (Check_Shutdown aborted c)
  else None.

End push.

(** ** Package rest: the push transport *)
Module rest.

Definition defaultPushMsgBufferLen : Z := 10.

Definition backPresureMsg : string :=
  "Push queue can't handle the pressure with current size, sdk is pushing back the pressure to the check.".

Record RestPusherConfig : Type := mk_RestPusherConfig {
  AgentAddr : string;
  BufferLen : Z
}.

(** What [r.Patch(id)] comes back with: a transport error, or a response
    with its status code. *)
Inductive Response : Type :=
| TransportError (err : error)
| HTTPStatus (code : Z).

Definition StatusOK : Z := 200.

(** [retry()]: its body is a comment. *)
Definition retry : Outcome := Returns.

(** Statements after a call are run when the call returns. *)
Definition and_then (o : Outcome) (k : Outcome) : Outcome :=
  match o with
  | Returns => k
  | Panics r => Panics r
  end.

(** [sendPushMsg], given the answer to the PATCH: the log lines written and
    how the call ends. *)
Definition sendPushMsg (resp : Response) : list LogEntry * Outcome :=
  match resp with
  | TransportError err =>
      ([mk_LogEntry ErrorLevel "Error sending message to agent"],
       and_then retry Returns)
  | HTTPStatus code =>
      if negb (code =? StatusOK) then
        ([mk_LogEntry ErrorLevel "Error sending message to agent"],
         and_then retry Returns)
      else
        ([mk_LogEntry DebugLevel "Message sent to the agent"], Returns)
  end.

Section Transport.

(** The payload of a message ([interface{}] in the source). *)
Variable payload : Type.

Record pusherMsg : Type := mk_pusherMsg {
  id : string;
  msg : payload
}.

(** The collector: its answer to the [n]-th request, given the message. *)
Variable collector : nat -> pusherMsg -> Response.

(** The goroutine that calls [UpdateState] for each state of a list and
    then [Shutdown]. *)
Inductive Producer : Type :=
| PCalling (todo : list payload)   (* before the next call *)
| PBlocked (m : pusherMsg) (todo : list payload)
                                   (* in [default], at the blocking send *)
| PWaiting                         (* in [Shutdown], at [finished.Wait()] *)
| PReturned.                       (* [Shutdown] has returned *)

(** The goroutine started by [goPusher]. *)
Inductive Sender : Type :=
| SRange                           (* at [range c], waiting to receive *)
| SSending (m : pusherMsg)         (* received [m], in [sendPushMsg] *)
| SExited                          (* left the loop, [wg.Done()] run *)
| SPanicked (reason : string).     (* the process is down *)

(** A [RestPusher] with the two goroutines around it.  [msgsToSend] is the
    buffer of the channel, oldest message first, [chan_cap] its capacity,
    [closed] whether it was closed; [finished] is the counter of the wait
    group; [requests] are the PATCH requests issued, oldest first. *)
Record Sys : Type := mk_Sys {
  checkID : string;
  msgsToSend : list pusherMsg;
  chan_cap : nat;
  closed : bool;
  finished : nat;
  producer : Producer;
  sender : Sender;
  requests : list pusherMsg;
  logger : list LogEntry
}.

(** [NewRestPusher(config, checkID, logger)] with a caller about to push
    [todo]: the buffer length defaults to 10, the wait group counts the
    sender, which is running. *)
Definition NewRestPusher (config : RestPusherConfig) (checkID : string)
    (todo : list payload) : Sys :=
  let len := if BufferLen config =? 0 then defaultPushMsgBufferLen else BufferLen config in
  mk_Sys checkID [] (Z.to_nat len) false 1 (PCalling todo) SRange [] [].

(** The [select] of [UpdateState]: the send goes through at once when the
    buffer has room, otherwise the [default] case is taken. *)
Definition try_send (buf : list pusherMsg) (cap : nat) (m : pusherMsg)
  : option (list pusherMsg) :=
  if (List.length buf <? cap)%nat then Some (buf ++ [m]) else None.

Definition set_producer (s : Sys) (buf : list pusherMsg) (cl : bool)
    (pr : Producer) (l : list LogEntry) : Sys :=
  mk_Sys (checkID s) buf (chan_cap s) cl (finished s) pr (sender s)
         (requests s) (logger s ++ l).

(** One step of the caller: [None] when it is blocked or done. *)
Definition producer_step (s : Sys) : option Sys :=
  match producer s with
  | PCalling (st :: todo) =>
      let m := mk_pusherMsg (checkID s) st in
      let queuing := mk_LogEntry DebugLevel "Queuing message to be sent to the agent." in
      match try_send (msgsToSend s) (chan_cap s) m with
      | Some buf =>
          Some (set_producer s buf (closed s) (PCalling todo)
                  [queuing; mk_LogEntry DebugLevel "Msg queued"])
      | None =>
          Some (set_producer s (msgsToSend s) (closed s) (PBlocked m todo)
                  [queuing; mk_LogEntry WarnLevel backPresureMsg])
      end
  | PBlocked m todo =>
      if (List.length (msgsToSend s) <? chan_cap s)%nat
      then Some (set_producer s (msgsToSend s ++ [m]) (closed s) (PCalling todo) [])
      else None
  | PCalling [] =>
      Some (set_producer s (msgsToSend s) true PWaiting
              [mk_LogEntry DebugLevel "Shutdown"])
  | PWaiting =>
      match finished s with
      | O => Some (set_producer s (msgsToSend s) (closed s) PReturned
                     [mk_LogEntry DebugLevel "Shutdown end"])
      | S _ => None
      end
  | PReturned => None
  end.

(** One step of the sender: [None] when it is blocked or gone. *)
Definition sender_step (s : Sys) : option Sys :=
  match sender s with
  | SRange =>
      match msgsToSend s with
      | m :: buf =>
          Some (mk_Sys (checkID s) buf (chan_cap s) (closed s) (finished s)
                  (producer s) (SSending m) (requests s)
                  (logger s ++ [mk_LogEntry DebugLevel "Sending message"]))
      | [] =>
          if closed s
          then Some (mk_Sys (checkID s) [] (chan_cap s) (closed s) (finished s - 1)
                       (producer s) SExited (requests s) (logger s))
          else None
      end
  | SSending m =>
      let '(l, out) := sendPushMsg (collector (List.length (requests s)) m) in
      Some (mk_Sys (checkID s) (msgsToSend s) (chan_cap s) (closed s) (finished s)
              (producer s)
              (match out with Returns => SRange | Panics r => SPanicked r end)
              (requests s ++ [m]) (logger s ++ l))
  | SExited => None
  | SPanicked _ => None
  end.

Inductive tid : Type := TProducer | TSender.

(** Once the sender has panicked the process is down and nothing runs. *)
Definition step (t : tid) (s : Sys) : option Sys :=
  match sender s with
  | SPanicked _ => None
  | _ =>
      match t with
      | TProducer => producer_step s
      | TSender => sender_step s
      end
  end.

(** Running a schedule: the scheduler picks a goroutine; one that cannot
    move is passed over. *)
Fixpoint exec (sched : list tid) (s : Sys) : Sys :=
  match sched with
  | [] => s
  | t :: sched' =>
      match step t s with
      | Some s' => exec sched' s'
      | None => exec sched' s
      end
  end.

(** The states not yet handed to the channel, and the messages on their way
    from the caller to the collector, oldest first. *)
Definition todo_of (p : Producer) : list payload :=
  match p with
  | PCalling todo => todo
  | PBlocked m todo => msg m :: todo
  | PWaiting | PReturned => []
  end.

Definition in_flight (sd : Sender) : list pusherMsg :=
  match sd with
  | SSending m => [m]
  | _ => []
  end.

Definition pipeline (s : Sys) : list payload :=
  map msg (requests s) ++ map msg (in_flight (sender s))
  ++ map msg (msgsToSend s) ++ todo_of (producer s).

Definition warnings (l : list LogEntry) : nat :=
  List.length (filter (fun e => match level e with WarnLevel => true | _ => false end) l).

Definition shut (p : Producer) : bool :=
  match p with
  | PWaiting | PReturned => true
  | PCalling _ | PBlocked _ _ => false
  end.

Definition waited_for (sd : Sender) : nat :=
  match sd with
  | SExited => 0
  | _ => 1
  end.

(** What holds of every state of a run in which the caller pushes the
    states [all]: nothing is lost or reordered on the way, the buffer keeps
    within its capacity, the channel is closed from [Shutdown] on, the wait
    group counts the sender, which leaves only a closed and empty channel,
    and [Shutdown] returns only after it. *)
Variable all : list payload.

Definition inv (s : Sys) : Prop :=
  pipeline s = all /\
  (List.length (msgsToSend s) <= chan_cap s)%nat /\
  (1 <= chan_cap s)%nat /\
  closed s = shut (producer s) /\
  finished s = waited_for (sender s) /\
  (sender s = SExited -> msgsToSend s = [] /\ closed s = true) /\
  (producer s = PReturned -> sender s = SExited) /\
  (forall r, sender s <> SPanicked r).

(** A bound on the steps a state can still take. *)
Definition measure (s : Sys) : nat :=
  (match producer s with
   | PCalling todo => 4 * List.length todo + 2
   | PBlocked _ todo => 4 * List.length todo + 5
   | PWaiting => 1
   | PReturned => 0
   end
   + 2 * List.length (msgsToSend s)
   + match sender s with
     | SRange => 1
     | SSending _ => 2
     | SExited | SPanicked _ => 0
     end)%nat.

End Transport.

Arguments mk_pusherMsg {payload} id msg.
Arguments id {payload} p.
Arguments msg {payload} p.
Arguments PCalling {payload} todo.
Arguments PBlocked {payload} m todo.
Arguments PWaiting {payload}.
Arguments PReturned {payload}.
Arguments SRange {payload}.
Arguments SSending {payload} m.
Arguments SExited {payload}.
Arguments SPanicked {payload} reason.
Arguments mk_Sys {payload} checkID msgsToSend chan_cap closed finished producer sender requests logger.
Arguments checkID {payload} s.
Arguments msgsToSend {payload} s.
Arguments chan_cap {payload} s.
Arguments closed {payload} s.
Arguments finished {payload} s.
Arguments producer {payload} s.
Arguments sender {payload} s.
Arguments requests {payload} s.
Arguments logger {payload} s.
Arguments NewRestPusher {payload} config checkID todo.
Arguments try_send {payload} buf cap m.
Arguments producer_step {payload} s.
Arguments sender_step {payload} collector s.
Arguments step {payload} collector t s.
Arguments exec {payload} collector sched s.
Arguments pipeline {payload} s.
Arguments inv {payload} all s.
Arguments measure {payload} s.
Arguments shut {payload} p.
Arguments waited_for {payload} sd.
Arguments in_flight {payload} sd.
Arguments todo_of {payload} p.

End rest.

(** ** Package simplemq: the sibling pusher *)
Module simplemq.

Definition StatusCreated : Z := 201.

(** [Push], given the answer to the POST. *)
Definition Push (resp : rest.Response) : option error :=
  match resp with
  | rest.TransportError err => Some err
  | rest.HTTPStatus code =>
      if negb (code =? StatusCreated)
      then Some (Errorf "unexpected status sending msg to simplemq")
      else None
  end.

(** [UpdateState]: an error sending a status change makes the check panic. *)
Definition UpdateState (resp : rest.Response) : Outcome :=
  match Push resp with
  | Some err => Panics (Error err)
  | None => Returns
  end.

End simplemq.

(** ** Package check: the process harness *)
Module process.

Section Harness.

(** The [ProcessChecker]: its state, and [ProcessOutputChunk], which may
    change that state and answers whether to go on. *)
Variable checker_state : Type.
Variable ProcessOutputChunk : checker_state -> string -> checker_state * bool.

(** What the operating system does in one run: the errors of creating the
    two pipes, of starting the process and of waiting for it, and the
    chunks the scanner cuts from everything the process writes to its
    standard output. *)
Record Run_env : Type := mk_Run_env {
  StdoutPipe_err : option error;
  StderrPipe_err : option error;
  Start_err : option error;
  Wait_err : option error;
  stdout_chunks : list string
}.

(** Where [Run] is. *)
Inductive Parent : Type :=
| AtPipes                          (* before the pipes are created *)
| AtStart                          (* reader spawned, before [cmd.Start()] *)
| AtStderr                         (* before [ioutil.ReadAll(p.stderr)] *)
| AtDone                           (* at the receive from [done] *)
| AtWait                           (* before [cmd.Wait()] *)
| Returned (err : option error).   (* [Run] has returned *)

(** Where the goroutine running [readAndProcess] is. *)
Inductive Reader : Type :=
| NotSpawned
| AtScan (rest : list string)      (* at [scanner.Scan()] *)
| AtChunk (payload : string) (rest : list string)
                                   (* in the loop body *)
| AtSend                           (* in the deferred function, at [done <- true] *)
| Exited.

Record Sys : Type := mk_Sys {
  parent : Parent;
  reader : Reader;
  ctx_done : bool;                 (* the context passed to [Run] is cancelled *)
  checker : checker_state;
  delivered : list (string * bool) (* the chunks handed to the processor, with its answers *)
}.

Definition init (c : checker_state) : Sys := mk_Sys AtPipes NotSpawned false c [].

Variable env : Run_env.

(** One step of [Run]; at the receive it moves together with the reader. *)
Definition parent_step (s : Sys) : option Sys :=
  match parent s with
  | AtPipes =>
      match StdoutPipe_err env, StderrPipe_err env with
      | Some err, _ =>
          Some (mk_Sys (Returned (Some err)) (reader s) (ctx_done s) (checker s) (delivered s))
      | None, Some err =>
          Some (mk_Sys (Returned (Some err)) (reader s) (ctx_done s) (checker s) (delivered s))
      | None, None =>
          Some (mk_Sys AtStart (AtScan (stdout_chunks env)) (ctx_done s) (checker s) (delivered s))
      end
  | AtStart => Some (mk_Sys AtStderr (reader s) (ctx_done s) (checker s) (delivered s))
  | AtStderr => Some (mk_Sys AtDone (reader s) (ctx_done s) (checker s) (delivered s))
  | AtDone =>
      match reader s with
      | AtSend => Some (mk_Sys AtWait Exited (ctx_done s) (checker s) (delivered s))
      | _ => None
      end
  | AtWait =>
      Some (mk_Sys (Returned (Wait_err env)) (reader s) (ctx_done s) (checker s) (delivered s))
  | Returned _ => None
  end.

(** One step of [readAndProcess]. *)
Definition reader_step (s : Sys) : option Sys :=
  match reader s with
  | NotSpawned => None
  | AtScan [] => Some (mk_Sys (parent s) AtSend (ctx_done s) (checker s) (delivered s))
  | AtScan (payload :: rest) =>
      Some (mk_Sys (parent s) (AtChunk payload rest) (ctx_done s) (checker s) (delivered s))
  | AtChunk payload rest =>
      if ctx_done s then
        Some (mk_Sys (parent s) AtSend (ctx_done s) (checker s) (delivered s))
      else
        let '(c, cont) := ProcessOutputChunk (checker s) payload in
        Some (mk_Sys (parent s) (if cont then AtScan rest else AtSend) (ctx_done s) c
                (delivered s ++ [(payload, cont)]))
  | AtSend =>
      match parent s with
      | AtDone => Some (mk_Sys AtWait Exited (ctx_done s) (checker s) (delivered s))
      | _ => None
      end
  | Exited => None
  end.

(** The scheduler picks [Run], the reader, or the cancellation of the
    context by whoever holds it. *)
Inductive tid : Type := TRun | TReader | TCancel.

Definition step (t : tid) (s : Sys) : option Sys :=
  match t with
  | TRun => parent_step s
  | TReader => reader_step s
  | TCancel => Some (mk_Sys (parent s) (reader s) true (checker s) (delivered s))
  end.

Fixpoint exec (sched : list tid) (s : Sys) : Sys :=
  match sched with
  | [] => s
  | t :: sched' =>
      match step t s with
      | Some s' => exec sched' s'
      | None => exec sched' s
      end
  end.

(** The processor fed with every chunk in turn, stopping after the first
    answer [false]: the chunks it is handed and its answers. *)
Fixpoint feed (c : checker_state) (chunks : list string) : list (string * bool) :=
  match chunks with
  | [] => []
  | payload :: rest =>
      let '(c', cont) := ProcessOutputChunk c payload in
      (payload, cont) :: (if cont then feed c' rest else [])
  end.

Definition reading_stopped (r : Reader) : bool :=
  match r with
  | NotSpawned | AtSend | Exited => true
  | AtScan _ | AtChunk _ _ => false
  end.

Definition has_returned (p : Parent) : bool :=
  match p with
  | Returned _ => true
  | _ => false
  end.

(** What holds of every state of a run started with the checker in [c0]:
    the chunks delivered are the first ones of the feed, the reader stands
    where they end, and [Run] is past the receive only when the reader is
    gone. *)
Variable c0 : checker_state.

Definition inv (s : Sys) : Prop :=
  match reader s with
  | NotSpawned => delivered s = [] /\ checker s = c0
  | AtScan rest =>
      feed c0 (stdout_chunks env) = delivered s ++ feed (checker s) rest
  | AtChunk payload rest =>
      feed c0 (stdout_chunks env) = delivered s ++ feed (checker s) (payload :: rest)
  | AtSend | Exited =>
      exists tail, feed c0 (stdout_chunks env) = delivered s ++ tail
  end
  /\
  match parent s with
  | AtPipes => reader s = NotSpawned
  | AtStart | AtStderr | AtDone => reader s <> NotSpawned /\ reader s <> Exited
  | AtWait => reader s = Exited
  | Returned _ => reader s = NotSpawned \/ reader s = Exited
  end.

(** A bound on the steps [Run] and the reader can still take. *)
Definition measure (s : Sys) : nat :=
  (match parent s with
   | AtPipes => 2 * List.length (stdout_chunks env) + 6
   | AtStart => 4
   | AtStderr => 3
   | AtDone => 2
   | AtWait => 1
   | Returned _ => 0
   end
   + match reader s with
     | AtScan rest => 2 * List.length rest + 1
     | AtChunk _ rest => 2 * List.length rest + 2
     | NotSpawned | AtSend | Exited => 0
     end)%nat.

End Harness.

Arguments mk_Sys {checker_state} parent reader ctx_done checker delivered.
Arguments measure {checker_state} env s.
Arguments parent {checker_state} s.
Arguments reader {checker_state} s.
Arguments ctx_done {checker_state} s.
Arguments checker {checker_state} s.
Arguments delivered {checker_state} s.
Arguments init {checker_state} c.
Arguments feed {checker_state} ProcessOutputChunk c chunks.
Arguments exec {checker_state} ProcessOutputChunk env sched s.
Arguments step {checker_state} ProcessOutputChunk env t s.
Arguments parent_step {checker_state} env s.
Arguments reader_step {checker_state} ProcessOutputChunk s.
Arguments inv {checker_state} ProcessOutputChunk env c0 s.

(** A processor in the manner of the one of the nmap check: it keeps what
    it has read and asks to stop at the first chunk holding a token. *)
Definition stop_at (token : string) (seen : list string) (chunk : string)
  : list string * bool :=
  (seen ++ [chunk], negb (strings_Contains chunk token)).

End process.

(** ** Package local: the command-line runner *)
Module local.

(** [Checker]: [Run] is given whether the context is cancelled while it
    runs; it yields the progress values it reports and its error. *)
Record Checker : Type := mk_Checker {
  Run : bool -> string -> string -> list float32 * option error
}.

(** What the [select] of [RunAndServe] can receive. *)
Inductive Event : Type :=
| ExitSignal                       (* a termination signal arrives *)
| Done.                            (* the check body sends its error *)

(** The loop labelled [LOOP]: [armed] tells that [c.exitSignal] is not yet
    [nil], [cancels] counts the calls of [c.cancel].  A signal that arrives
    once the channel variable is [nil] is never received.  The result is
    the count of calls when the result of the body is received, [None]
    while it never is. *)
Fixpoint LOOP (events : list Event) (armed : bool) (cancels : nat) : option nat :=
  match events with
  | [] => None
  | ExitSignal :: events' =>
      if armed then LOOP events' false (S cancels)
      else LOOP events' armed cancels
  | Done :: _ => Some cancels
  end.

(** How [RunAndServe] ends. *)
Record Exit : Type := mk_Exit {
  code : Z;                        (* the argument of [os.Exit] *)
  cancel_calls : nat;
  cleanup_calls : nat;
  reported : list float32;         (* [formatter.progress] calls *)
  result_err : option error        (* the error handed to [formatter.result] *)
}.

(** [RunAndServe]: the process exit it ends with, or [None] while the
    check body never sends its result. *)
Definition RunAndServe (checker : Checker) (conf : config.Config)
    (events : list Event) : option Exit :=
  match LOOP events true 0 with
  | None => None
  | Some cancels =>
      let '(progress, err) :=
        Run checker (0 <? cancels)%nat
            (config.Target (config.Check conf)) (config.Opts (config.Check conf)) in
      let cleanups := 1%nat in
      match err with
      | Some _ => Some (mk_Exit 0 cancels cleanups progress err)
      | None => Some (mk_Exit 1 cancels cleanups progress err)
      end
  end.

End local.

(** ** Platforms and inputs used to evaluate the code *)

(** The single configured resolver answers every question with SERVFAIL
    (response code 2) and no records. *)
Definition servfail : Platform :=
  {| url_Hostname := url.Hostname;
     net_LookupHost := fun h => Err (no_such_host h);
     net_LookupIP := fun h => Err (no_such_host h);
     dns_ClientConfigFromFile := fun _ => Ok (dns.mk_ClientConfig ["192.0.2.53"] "53");
     dns_Exchange := fun _ _ _ => Ok (dns.mk_Msg 2 []) |}.

(** 0.5, 0.3 and 0.7 as [float32]. *)
Definition f32_half : float32 := S754_finite false 8388608 (-24).
Definition f32_0_3 : float32 := S754_finite false 10066330 (-25).
Definition f32_0_7 : float32 := S754_finite false 11744051 (-24).

Definition report0 : agent.Report :=
  agent.mk_Report "id" 0 0 "" "example.com" "" (agent.mk_ResultData [] "" "" "").

Definition running_half : push.State :=
  push.mk_State [] (agent.mk_State agent.StatusRunning f32_half report0).

(** The claim on a failed resolution, as the specification words it. *)
Definition fails_closed_on_lookup_error : Prop :=
  forall (P : Platform) (asset : string) (err : error),
    helpers.IsIP (helpers.mk_Target asset None None) = false ->
    helpers.IsCIDR (helpers.mk_Target asset None None) = false ->
    net_LookupHost P (match url_Hostname P asset with Some h => h | None => asset end)
      = Err err ->
    helpers.IsScannable P asset = false.

(** Membership of an address in the reserved ranges: some listed network
    contains it. *)
Definition in_reserved (ip : net.IP) : bool :=
  existsb (fun n => net.Contains n ip)
          (helpers.NotScannableNetsIPV4 ++ helpers.NotScannableNetsIPV6).

(** A collector that is down, and one that answers 200. *)
Definition collector_down (n : nat) (m : rest.pusherMsg string) : rest.Response :=
  rest.TransportError (Errorf "connection refused").

Definition collector_ok (n : nat) (m : rest.pusherMsg string) : rest.Response :=
  rest.HTTPStatus 200.

(** A body that gives up when its context is cancelled and fails
    otherwise. *)
Definition cancellable : push.Checker :=
  push.mk_Checker (fun cancelled _ _ =>
    if cancelled then ([push.ReportProgress f32_half], Some context_Canceled)
    else ([push.ReportProgress f32_half], Some (Errorf "connection refused"))).

Definition check0 (cancelled : bool) : push.Check :=
  push.mk_Check
    (push.SetStatusRunning (push.newState (agent.mk_State "" f32_zero report0)))
    (config.mk_Config (config.mk_CheckConfig "1.1.1.1" "" "id") None)
    cancellable cancelled 0 1 [].

Definition succeeds : local.Checker :=
  local.mk_Checker (fun _ _ _ => ([f32_half], None)).

Definition fails : local.Checker :=
  local.mk_Checker (fun _ _ _ => ([], Some (Errorf "connection refused"))).

Definition conf0 : config.Config :=
  config.mk_Config (config.mk_CheckConfig "example.com" "" "id") None.

(** A run of the transport against a buffer of two: the caller pushes four
    states, finding the buffer full at the third, and shuts down. *)
Definition config2 : rest.RestPusherConfig := rest.mk_RestPusherConfig "agent:80" 2.

Definition four_states : list string := ["running 0"; "running 0.1"; "running 0.5"; "finished 1"].

Definition pressed : list rest.tid :=
  repeat rest.TProducer 3 ++ repeat rest.TSender 2
  ++ [rest.TProducer] ++ repeat rest.TSender 2
  ++ repeat rest.TProducer 2 ++ repeat rest.TSender 5 ++ [rest.TProducer].

(** A run of the harness: the process writes three lines, the processor
    stops at the second, the context is cancelled late. *)
Definition three_lines : process.Run_env :=
  process.mk_Run_env None None None None ["scanning"; "DONE"; "trailing"].

Definition reader_first : list process.tid :=
  repeat process.TRun 3 ++ repeat process.TReader 5
  ++ [process.TCancel] ++ repeat process.TRun 2.

(** The first and the last address of every listed range. *)
Definition range_ends : list string :=
  [ "0.0.0.0"; "0.255.255.255"; "10.0.0.0"; "10.255.255.255";
    "100.64.0.0"; "100.127.255.255"; "127.0.0.0"; "127.255.255.255";
    "169.254.0.0"; "169.254.255.255"; "172.16.0.0"; "172.31.255.255";
    "192.0.0.0"; "192.0.0.255"; "192.0.2.0"; "192.0.2.255";
    "192.88.99.0"; "192.88.99.255"; "192.168.0.0"; "192.168.255.255";
    "198.18.0.0"; "198.19.255.255"; "198.51.100.0"; "198.51.100.255";
    "203.0.113.0"; "203.0.113.255"; "224.0.0.0"; "239.255.255.255";
    "240.0.0.0"; "255.255.255.254"; "255.255.255.255";
    "::1"; "64:ff9b::"; "64:ff9b::ffff:ffff";
    "100::"; "100::ffff:ffff:ffff:ffff";
    "2001::"; "2001:0:ffff:ffff:ffff:ffff:ffff:ffff";
    "2001:20::"; "2001:2f:ffff:ffff:ffff:ffff:ffff:ffff";
    "2001:db8::"; "2001:db8:ffff:ffff:ffff:ffff:ffff:ffff";
    "2002::"; "2002:ffff:ffff:ffff:ffff:ffff:ffff:ffff";
    "fc00::"; "fdff:ffff:ffff:ffff:ffff:ffff:ffff:ffff";
    "fe80::"; "febf:ffff:ffff:ffff:ffff:ffff:ffff:ffff";
    "ff00::"; "ffff:ffff:ffff:ffff:ffff:ffff:ffff:ffff" ].

(** The addresses next to the listed ranges that lie in none of them. *)
Definition range_neighbours : list string :=
  [ "1.0.0.0"; "9.255.255.255"; "11.0.0.0"; "100.63.255.255"; "100.128.0.0";
    "126.255.255.255"; "128.0.0.0"; "169.253.255.255"; "169.255.0.0";
    "172.15.255.255"; "172.32.0.0"; "191.255.255.255"; "192.0.1.0";
    "192.0.1.255"; "192.0.3.0"; "192.88.98.255"; "192.88.100.0";
    "192.167.255.255"; "192.169.0.0"; "198.17.255.255"; "198.20.0.0";
    "198.51.99.255"; "198.51.101.0"; "203.0.112.255"; "203.0.114.0";
    "223.255.255.255";
    "::"; "::2"; "64:ff9a:ffff:ffff:ffff:ffff:ffff:ffff"; "64:ff9b::1:0:0";
    "ff:ffff:ffff:ffff:ffff:ffff:ffff:ffff"; "100:0:0:1::";
    "2000:ffff:ffff:ffff:ffff:ffff:ffff:ffff"; "2001:1::";
    "2001:1f:ffff:ffff:ffff:ffff:ffff:ffff"; "2001:30::";
    "2001:db7:ffff:ffff:ffff:ffff:ffff:ffff"; "2001:db9::";
    "2001:ffff:ffff:ffff:ffff:ffff:ffff:ffff"; "2003::";
    "fbff:ffff:ffff:ffff:ffff:ffff:ffff:ffff"; "fe00::";
    "fe7f:ffff:ffff:ffff:ffff:ffff:ffff:ffff"; "fec0::";
    "feff:ffff:ffff:ffff:ffff:ffff:ffff:ffff" ].

(** An IP literal the classifier reads as it stands: a dotted quad, or an
    IPv6 literal without a dot that is not an IPv4-mapped address. *)
Definition plain_literal (s : string) (ip : net.IP) : Prop :=
  net.ParseIP s = Some ip /\
  (net.parseIPv4 s = Some ip \/
   (strings_Contains s "." = false /\ net.To4 ip = None)).

(** One pass of the loop of [verifyIPs]. *)
Definition address_allowed (addr : string) : bool :=
  match helpers.isAllowed addr with
  | Ok true => true
  | _ => false
  end.

(** Two resolvers: the first answers SERVFAIL, the second answers with the
    SOA record of the name asked; and two resolvers of which the first is
    unreachable. *)
Definition second_resolver_answers : Platform :=
  {| url_Hostname := url.Hostname;
     net_LookupHost := fun h => Err (no_such_host h);
     net_LookupIP := fun h => Err (no_such_host h);
     dns_ClientConfigFromFile := fun _ =>
       Ok (dns.mk_ClientConfig ["192.0.2.53"; "192.0.2.54"; "192.0.2.55"] "53");
     dns_Exchange := fun name _ srv =>
       if String.eqb srv "192.0.2.53:53" then Ok (dns.mk_Msg 2 [])
       else Ok (dns.mk_Msg dns.RcodeSuccess [dns.mk_RR_Header name dns.TypeSOA]) |}.

Definition first_resolver_unreachable : Platform :=
  {| url_Hostname := url.Hostname;
     net_LookupHost := fun h => Err (no_such_host h);
     net_LookupIP := fun h => Err (no_such_host h);
     dns_ClientConfigFromFile := fun _ =>
       Ok (dns.mk_ClientConfig ["192.0.2.53"; "192.0.2.54"] "53");
     dns_Exchange := fun name _ srv =>
       if String.eqb srv "192.0.2.53:53"
       then Err (Errorf ("dial udp " ++ srv ++ ": i/o timeout")%string)
       else Ok (dns.mk_Msg dns.RcodeSuccess [dns.mk_RR_Header name dns.TypeSOA]) |}.

(** The question the loop of [hasSOARecord] sends to one server. *)
Definition soa_question (address port srv : string) : helpers.Query :=
  helpers.QExchange address dns.TypeSOA (srv ++ ":" ++ port)%string.

(** One call of [hasSOARecord] after another, on the addresses of a list. *)
Definition hasSOARecord_each (P : Platform) (addresses : list string)
    (w : helpers.World) : helpers.World :=
  fold_left (fun w a => snd (helpers.hasSOARecord P a w)) addresses w.

(** How often the resolver configuration file has been read. *)
Definition is_read (q : helpers.Query) : bool :=
  match q with helpers.QReadConf _ => true | _ => false end.

Definition reads (w : helpers.World) : nat :=
  List.length (filter is_read (helpers.queries w)).

(** A check as [NewCheckWithConfig] builds it: nothing pushed, the context
    not cancelled, the wait group at zero. *)
Definition new_check (checker : push.Checker) (conf : config.Config) : push.Check :=
  push.mk_Check (push.newState (agent.mk_State "" f32_zero report0))
                conf checker false 0 0 [].

Definition reports_twice : push.Checker :=
  push.mk_Checker (fun cancelled _ _ =>
    if cancelled then ([push.ReportProgress f32_half], Some context_Canceled)
    else ([push.ReportProgress f32_half; push.ReportProgress f32_0_3;
           push.ReportProgress f32_0_7], None)).

Definition conf_of (target : string) (allow : option bool) : config.Config :=
  config.mk_Config (config.mk_CheckConfig target "" "id") allow.

(** The snapshots a collector tells apart. *)
Definition is_running (s : agent.State) : bool :=
  String.eqb (agent.Status s) agent.StatusRunning.

Definition is_terminal (s : agent.State) : bool :=
  String.eqb (agent.Status s) agent.StatusFinished
  || String.eqb (agent.Status s) agent.StatusAborted
  || String.eqb (agent.Status s) agent.StatusFailed.

(** Every snapshot of the list has a progress greater than the one before
    it, the first one greater than [cur]. *)
Fixpoint rising (cur : float32) (l : list agent.State) : bool :=
  match l with
  | [] => true
  | s :: l' => f32_gt (agent.Progress s) cur && rising (agent.Progress s) l'
  end.

(** The calls of [Abort], counted by the line each call logs. *)
Definition aborts (l : list LogEntry) : nat :=
  List.length (filter (fun e => String.eqb (message e) "Aborting check") l).

(** Whether the listener receives a signal before it is stopped. *)
Definition signalled (events : list push.APIEvent) : bool :=
  match events with
  | push.ExitSignal :: _ => true
  | _ => false
  end.

(** Whether the loop of the local runner receives a signal before the
    result of the body. *)
Definition signal_first (events : list local.Event) : bool :=
  match events with
  | local.ExitSignal :: _ => true
  | _ => false
  end.

Definition is_done (e : local.Event) : bool :=
  match e with
  | local.Done => true
  | local.ExitSignal => false
  end.

(** The state the processor is left in by [process.feed]. *)
Fixpoint feed_state {S : Type} (ProcessOutputChunk : S -> string -> S * bool)
    (c : S) (chunks : list string) : S :=
  match chunks with
  | [] => c
  | payload :: rest =>
      let '(c', cont) := ProcessOutputChunk c payload in
      if cont then feed_state ProcessOutputChunk c' rest else c'
  end.

(** What holds of a run whose context is not cancelled: the reader is
    spawned once the pipes are there, the processor is on its way to the
    state the whole feed leaves it in, and a reader that has stopped has
    delivered the whole feed. *)
Definition uncancelled_inv {S : Type} (ProcessOutputChunk : S -> string -> S * bool)
    (env : process.Run_env) (c0 : S) (s : process.Sys S) : Prop :=
  (process.reader s = process.NotSpawned ->
   process.parent s = process.AtPipes \/
   process.StdoutPipe_err env <> None \/ process.StderrPipe_err env <> None) /\
  (process.ctx_done s = false ->
   match process.reader s with
   | process.NotSpawned => True
   | process.AtScan rest =>
       feed_state ProcessOutputChunk c0 (process.stdout_chunks env)
       = feed_state ProcessOutputChunk (process.checker s) rest
   | process.AtChunk payload rest =>
       feed_state ProcessOutputChunk c0 (process.stdout_chunks env)
       = feed_state ProcessOutputChunk (process.checker s) (payload :: rest)
   | process.AtSend | process.Exited =>
       process.feed ProcessOutputChunk c0 (process.stdout_chunks env)
       = process.delivered s /\
       feed_state ProcessOutputChunk c0 (process.stdout_chunks env) = process.checker s
   end).

(** A run of the harness that is never cancelled. *)
Definition run_to_the_end : list process.tid :=
  repeat process.TRun 3 ++ repeat process.TReader 5 ++ repeat process.TRun 2.

(** The error lines of a log, and the requests a collector does not answer
    with 200, the first request being the [n]-th. *)
Definition errors (l : list LogEntry) : nat :=
  List.length (filter (fun e => match level e with ErrorLevel => true | _ => false end) l).

Definition accepted (r : rest.Response) : bool :=
  match r with
  | rest.HTTPStatus code => code =? rest.StatusOK
  | rest.TransportError _ => false
  end.

Fixpoint rejected_from {payload : Type}
    (collector : nat -> rest.pusherMsg payload -> rest.Response)
    (n : nat) (reqs : list (rest.pusherMsg payload)) : nat :=
  match reqs with
  | [] => 0
  | m :: reqs' =>
      ((if accepted (collector n m) then 0 else 1)
       + rejected_from collector (S n) reqs')%nat
  end.

(** What holds of every state of a run in which the caller pushes no more
    states than the buffer holds: no warning is logged, the caller is
    never at the blocking send, and the buffer has room for what the
    caller still holds. *)
Definition unpressed {payload : Type} (s : rest.Sys payload) : Prop :=
  rest.warnings (rest.logger s) = 0%nat /\
  (List.length (rest.msgsToSend s) + List.length (rest.todo_of (rest.producer s))
   <= rest.chan_cap s)%nat /\
  (forall m todo, rest.producer s <> rest.PBlocked m todo).

(** What holds of the log and of the messages of every state: one error
    line for each request the collector did not accept, and the check ID on
    every message. *)
Definition accounted {payload : Type}
    (collector : nat -> rest.pusherMsg payload -> rest.Response)
    (s : rest.Sys payload) : Prop :=
  errors (rest.logger s) = rejected_from collector 0 (rest.requests s) /\
  Forall (fun m => rest.id m = rest.checkID s)
         (rest.requests s ++ rest.in_flight (rest.sender s) ++ rest.msgsToSend s) /\
  (forall m todo, rest.producer s = rest.PBlocked m todo -> rest.id m = rest.checkID s).

(** A collector that rejects every second request, and a run of three
    pushes against a buffer of ten. *)
Definition collector_flaky (n : nat) (m : rest.pusherMsg string) : rest.Response :=
  if Nat.even n then rest.HTTPStatus 200 else rest.HTTPStatus 503.

Definition config_default : rest.RestPusherConfig := rest.mk_RestPusherConfig "agent:80" 0.

Definition push_then_send : list rest.tid :=
  repeat rest.TProducer 5 ++ repeat rest.TSender 9 ++ [rest.TProducer].

(** ** Package check: waiting for a file *)
Module check.

(** Milliseconds between two looks at the file. *)
Definition retryTime : Z := 100.

(** What [os.Stat] answers: the file is there, it does not exist, or
    another error. *)
Inductive Stat : Type :=
| Exists
| NotExist
| StatError (err : error).

(** [WaitForFile(filepath)], given the answers of the successive calls of
    [os.Stat] and the answer of [os.Open]: what it returns and the
    milliseconds it has slept, [None] while it is still polling when the
    answers end. *)
Fixpoint WaitForFile {File : Type} (stats : list Stat) (open : result File)
    (slept : Z) : option (result File * Z) :=
  match stats with
  | [] => None
  | NotExist :: stats' => WaitForFile stats' open (slept + retryTime)
  | StatError err :: _ => Some (Err err, slept)
  | Exists :: _ => Some (open, slept)
  end.

End check.

(** ** Package command: running a process and parsing its output *)
Module command.

(** The error of [cmd.Run]: an [*exec.ExitError], with the exit status when
    the system reports a wait status, or any other error. *)
Inductive RunError : Type :=
| ExitError (status : option Z)
| OtherError (err : error).

(** One execution: what the process writes and how [cmd.Run] ends. *)
Record Process : Type := mk_Process {
  stdOut : string;
  stdErr : string;
  Run_err : option RunError
}.

Inductive Call (A : Type) : Type :=
| Returned (a : A)
| Panicked (reason : string).
Arguments Returned {A} a.
Arguments Panicked {A} reason.

(** The errors [ExecuteAndParse] returns: the one of the execution, or a
    [*ParseError]. *)
Inductive ExecError : Type :=
| RunFailed (err : error)
| ParseError (ProcessOutput ProcessErrOutput : string) (ProcessStatus : Z)
             (ParserError : string).

Definition ExecuteWithStdErr (p : Process)
  : Call (string * string * Z * option error) :=
  match Run_err p with
  | Some (ExitError (Some status)) => Returned (stdOut p, stdErr p, status, None)
  | Some (ExitError None) =>
      Panicked "Can not get exit code of the executed command, likely because running in an unsupported OS"
  | Some (OtherError err) => Returned (stdOut p, stdErr p, 0, Some err)
  | None => Returned (stdOut p, stdErr p, 0, None)
  end.

Definition Execute (p : Process) : Call (string * Z * option error) :=
  match ExecuteWithStdErr p with
  | Returned (output, _, exitCode, err) => Returned (output, exitCode, err)
  | Panicked r => Panicked r
  end.

(** [ExecuteAndParse]: the parser is given the output and the value behind
    [result], and leaves a value there; the call returns that value, the
    status and the error. *)
Definition ExecuteAndParse {R : Type} (parser : string -> R -> R * option error)
    (result : R) (p : Process) : Call (R * Z * option ExecError) :=
  match ExecuteWithStdErr p with
  | Panicked r => Panicked r
  | Returned (output, errOutput, status, Some err) =>
      Returned (result, status, Some (RunFailed err))
  | Returned (output, errOutput, status, None) =>
      match parser output result with
      | (result', Some err) =>
          Returned (result', 0, Some (ParseError output errOutput status (Error err)))
      | (result', None) => Returned (result', status, None)
      end
  end.

End command.

(** ** Package helpers: following redirects *)
Module httpredirect.

Definition OKTADomain : string := "okta.com".

Definition lower (c : ascii) : ascii :=
  if between "A" "Z" c then ascii_of_nat (nat_of_ascii c + 32) else c.

(** [strings.ToLower] on a string of ASCII bytes; [None] for any other
    string, where the function works on runes. *)
Fixpoint strings_ToLower (s : string) : option string :=
  match s with
  | EmptyString => Some EmptyString
  | String c s' =>
      if byte_of c <? 128 then
        match strings_ToLower s' with
        | Some t => Some (String (lower c) t)
        | None => None
        end
      else None
  end.

(** [IsRedirectingTo(url, domain)], given what [walkHTTPRedirects] returns:
    the hostname of the last request, or the error of the client. *)
Definition IsRedirectingTo (walkHTTPRedirects : string -> result string)
    (url domain : string) : option (bool * string * option error) :=
  match walkHTTPRedirects url with
  | Err err => Some (false, EmptyString, Some err)
  | Ok lastHostname =>
      match strings_ToLower lastHostname, strings_ToLower domain with
      | Some h, Some d => Some (strings_HasSuffix h d, lastHostname, None)
      | _, _ => None
      end
  end.

End httpredirect.

(** A process that exits with status 2 after writing its findings, and two
    parsers: one that keeps the output, one that rejects it. *)
Definition exits_2 : command.Process :=
  command.mk_Process "findings" "warning" (Some (command.ExitError (Some 2))).

Definition keep_output (output : string) (r : string) : string * option error :=
  (output, None).

Definition reject_output (output : string) (r : string) : string * option error :=
  (r, Some (Errorf "unexpected end of JSON input")).

(** A client whose last request goes to a fixed host. *)
Definition lands_on (host : string) (url : string) : result string := Ok host.

(** ** Package config: the whole configuration and the environment *)
Module configuration.

Definition loggerLevelEnv : string := "VULCAN_CHECK_LOG_LVL".
Definition loggerFormatterEnv : string := "VULCAN_CHECK_FMT".
Definition checkTargetEnv : string := "VULCAN_CHECK_TARGET".
Definition checkOptionsEnv : string := "VULCAN_CHECK_OPTIONS".
Definition checkIDEnv : string := "VULCAN_CHECK_ID".
Definition checkTypeNameEnv : string := "VULCAN_CHECKTYPE_NAME".
Definition checkTypeVersionEnv : string := "VULCAN_CHECKTYPE_VERSION".
Definition commModeEnv : string := "VULCAN_CHECK_COMM_MODE".
Definition pushAgentAddr : string := "VULCAN_AGENT_ADDRESS".
Definition pushMsgBufferLen : string := "VULCAN_CHECK_MSG_BUFF_LEN".
Definition allowPrivateIPs : string := "VULCAN_ALLOW_PRIVATE_IPS".
Definition CommModePush : string := "push".

Record LogConfig : Type := mk_LogConfig {
  LogFmt : string;
  LogLevel : string
}.

(** [Config] with all its fields.  [Check] holds the target, the options
    and the ID of [CheckConfig], the part the lifecycle reads;
    [CheckTypeName] and [CheckTypeVersion] are its other two fields. *)
Record Config : Type := mk_Config {
  Check : config.CheckConfig;
  CheckTypeName : string;
  CheckTypeVersion : string;
  Log : LogConfig;
  CommMode : string;
  Push : rest.RestPusherConfig;
  AllowPrivateIPs : option bool
}.

(** [&Config{}] *)
Definition zero : Config :=
  mk_Config (config.mk_CheckConfig "" "" "") "" "" (mk_LogConfig "" "") ""
            (rest.mk_RestPusherConfig "" 0) None.

(** What the lifecycle is handed. *)
Definition lifecycle (c : Config) : config.Config :=
  config.mk_Config (Check c) (AllowPrivateIPs c).

(** [strconv.ParseBool] *)
Definition ParseBool (str : string) : option bool :=
  if existsb (String.eqb str) ["1"; "t"; "T"; "TRUE"; "true"; "True"] then Some true
  else if existsb (String.eqb str) ["0"; "f"; "F"; "FALSE"; "false"; "False"]
  then Some false
  else None.

Section Environment.

(** [os.Getenv]; [strconv.Quote]; [strconv.ParseInt(s, 0, 32)], [None] for
    an error; and [json.Unmarshal] of the options into [optionsLogConfig]:
    [None] for an error, else the field [Debug]. *)
Variable Getenv : string -> string.
Variable Quote : string -> string.
Variable ParseInt : string -> option Z.
Variable debug_option : string -> option bool.

Definition is_set (v : string) : bool := negb (String.eqb v "").

Definition overrideValidationConfigEnvVars (c : Config) : Config * option error :=
  let allow := Getenv allowPrivateIPs in
  if String.eqb allow "" then (c, None)
  else
    match ParseBool allow with
    | None =>
        (c, Some (Errorf ("can not parse allow private IPs option from env var ("
                          ++ allowPrivateIPs ++ "=" ++ allow ++ "): "
                          ++ "strconv.ParseBool: parsing " ++ Quote allow
                          ++ ": invalid syntax")%string))
    | Some b =>
        (mk_Config (Check c) (CheckTypeName c) (CheckTypeVersion c) (Log c)
                   (CommMode c) (Push c) (Some b), None)
    end.

Definition overrideCommConfigEnvVars (c : Config) : Config :=
  let comMode := Getenv commModeEnv in
  let mode := if is_set comMode then comMode else CommMode c in
  let mode := if String.eqb mode "" then CommModePush else mode in
  let pushEndPoint := Getenv pushAgentAddr in
  let addr := if is_set pushEndPoint then pushEndPoint else rest.AgentAddr (Push c) in
  let msgBuffLen := Getenv pushMsgBufferLen in
  let len := match ParseInt msgBuffLen with Some n => n | None => 10 end in
  let buf := if is_set msgBuffLen then len else rest.BufferLen (Push c) in
  mk_Config (Check c) (CheckTypeName c) (CheckTypeVersion c) (Log c)
            mode (rest.mk_RestPusherConfig addr buf) (AllowPrivateIPs c).

Definition overrideConfigLogEnvVars (c : Config) : Config :=
  let logLevel := Getenv loggerLevelEnv in
  let lvl := if is_set logLevel then logLevel else LogLevel (Log c) in
  let logFmt := Getenv loggerFormatterEnv in
  let fmt := if is_set logFmt then logFmt else LogFmt (Log c) in
  mk_Config (Check c) (CheckTypeName c) (CheckTypeVersion c) (mk_LogConfig fmt lvl)
            (CommMode c) (Push c) (AllowPrivateIPs c).

(** The version is taken from the environment when the type name is set
    there: the last test of the function reads [checkTypeName]. *)
Definition overrideConfigCheckEnvVars (c : Config) : Config :=
  let opts := Getenv checkOptionsEnv in
  let o := if is_set opts then opts else config.Opts (Check c) in
  let target := Getenv checkTargetEnv in
  let t := if is_set target then target else config.Target (Check c) in
  let checkID := Getenv checkIDEnv in
  let i := if is_set checkID then checkID else config.CheckID (Check c) in
  let checkTypeName := Getenv checkTypeNameEnv in
  let n := if is_set checkTypeName then checkTypeName else CheckTypeName c in
  let checkTypeVer := Getenv checkTypeVersionEnv in
  let v := if is_set checkTypeName then checkTypeVer else CheckTypeVersion c in
  mk_Config (config.mk_CheckConfig t o i) n v (Log c) (CommMode c) (Push c)
            (AllowPrivateIPs c).

Definition OverrideConfigFromEnvVars (c : Config) : Config * option error :=
  let c := overrideConfigLogEnvVars c in
  let c := overrideConfigCheckEnvVars c in
  let c := overrideCommConfigEnvVars c in
  overrideValidationConfigEnvVars c.

Definition OverrideConfigFromOptions (c : Config) : Config :=
  if is_set (config.Opts (Check c)) then
    match debug_option (config.Opts (Check c)) with
    | Some true =>
        mk_Config (Check c) (CheckTypeName c) (CheckTypeVersion c)
                  (mk_LogConfig (LogFmt (Log c)) "debug")
                  (CommMode c) (Push c) (AllowPrivateIPs c)
    | _ => c
    end
  else c.

(** [BuildConfig], given whether the configuration file exists and what
    [LoadConfigFromFile] returns for it. *)
Definition BuildConfig (fileExists : bool) (LoadConfigFromFile : result Config)
  : result Config :=
  match (if fileExists then LoadConfigFromFile else Ok zero) with
  | Err err => Err err
  | Ok c =>
      match OverrideConfigFromEnvVars c with
      | (_, Some err) => Err err
      | (c, None) => Ok (OverrideConfigFromOptions c)
      end
  end.

End Environment.

(** The flags of the command line. *)
Record Flags : Type := mk_Flags {
  testMode : bool;
  runTarget : string;
  options : string;
  json : bool
}.

(** The check [NewCheck] builds: one pushing to a test agent, a local one,
    or one pushing to the agent of the configuration. *)
Inductive Runner : Type :=
| TestAgent
| Local (json : bool)
| Pushed.

(** [NewCheck]: the runner it chooses and the configuration it hands to
    it; [Err] stands for the panic on the error of [BuildConfig].
    [reporterURL] is the address of the test agent. *)
Definition NewCheck (flags : Flags) (reporterURL : string) (built : result Config)
  : result (Runner * Config) :=
  match built with
  | Err err => Err err
  | Ok conf =>
      let allow :=
        match AllowPrivateIPs conf with
        | None => Some true
        | Some b => Some b
        end in
      if testMode flags then
        let id := if String.eqb (config.CheckID (Check conf)) "" then "testCheckID"
                  else config.CheckID (Check conf) in
        Ok (TestAgent,
            mk_Config (config.mk_CheckConfig (config.Target (Check conf))
                         (config.Opts (Check conf)) id)
                      (CheckTypeName conf) (CheckTypeVersion conf) (Log conf)
                      (CommMode conf)
                      (rest.mk_RestPusherConfig reporterURL (rest.BufferLen (Push conf)))
                      allow)
      else if negb (String.eqb (runTarget flags) "") then
        Ok (Local (json flags),
            mk_Config (config.mk_CheckConfig (runTarget flags) (options flags)
                         (config.CheckID (Check conf)))
                      (CheckTypeName conf) (CheckTypeVersion conf) (Log conf)
                      (CommMode conf) (Push conf) allow)
      else Ok (Pushed, conf)
  end.

End configuration.

(** An environment that names a version but no type, and one that names
    both; a quoting function and parsers for them. *)
Definition env_version_only (name : string) : string :=
  if String.eqb name "VULCAN_CHECKTYPE_VERSION" then "7"
  else if String.eqb name "VULCAN_CHECK_TARGET" then "10.0.0.1"
  else "".

Definition env_bad_flag (name : string) : string :=
  if String.eqb name "VULCAN_ALLOW_PRIVATE_IPS" then "yes" else "".

Definition quote_plain (s : string) : string := ("'" ++ s ++ "'")%string.

Definition no_int (s : string) : option Z := None.

Definition no_debug (s : string) : option bool := None.

(** Whether [NewCheck] chose the check that pushes to the configured
    agent. *)
Definition is_pushed (r : configuration.Runner) : bool :=
  match r with
  | configuration.Pushed => true
  | _ => false
  end.

Definition no_flags : configuration.Flags := configuration.mk_Flags false "" "" false.

Definition run_flags (target : string) : configuration.Flags :=
  configuration.mk_Flags false target "" false.

(** A configuration file that names a type and its version. *)
Definition file_with_version : configuration.Config :=
  configuration.mk_Config (config.mk_CheckConfig "example.com" "" "id")
    "vulcan-nmap" "3" (configuration.mk_LogConfig "" "") ""
    (rest.mk_RestPusherConfig "agent:80" 0) None.


(** ** The reader of the process harness, statement by statement

    In [readAndProcess] the test of the context and the call of the
    processor are two statements, and the context can be cancelled between
    them.  [checked] tells that the reader, in the loop body, has found
    the context live and has not yet called the processor. *)
Record Harness (S : Type) : Type := mk_Harness {
  sys : process.Sys S;
  checked : bool
}.
Arguments mk_Harness {S} sys checked.
Arguments sys {S} h.
Arguments checked {S} h.

(** One step of [readAndProcess]: in the loop body first [ctx.Err()], then
    [ProcessOutputChunk]; everywhere else as [process.reader_step]. *)
Definition readAndProcess_step {S : Type}
    (ProcessOutputChunk : S -> string -> S * bool) (h : Harness S)
  : option (Harness S) :=
  let s := sys h in
  match process.reader s with
  | process.AtChunk payload rest =>
      if checked h then
        let '(c, cont) := ProcessOutputChunk (process.checker s) payload in
        Some (mk_Harness
                (process.mk_Sys (process.parent s)
                   (if cont then process.AtScan rest else process.AtSend)
                   (process.ctx_done s) c
                   (process.delivered s ++ [(payload, cont)]))
                false)
      else if process.ctx_done s then
        Some (mk_Harness
                (process.mk_Sys (process.parent s) process.AtSend
                   (process.ctx_done s) (process.checker s) (process.delivered s))
                false)
      else Some (mk_Harness s true)
  | _ =>
      match process.reader_step ProcessOutputChunk s with
      | Some s' => Some (mk_Harness s' false)
      | None => None
      end
  end.

Definition Harness_step {S : Type} (ProcessOutputChunk : S -> string -> S * bool)
    (env : process.Run_env) (t : process.tid) (h : Harness S) : option (Harness S) :=
  match t with
  | process.TReader => readAndProcess_step ProcessOutputChunk h
  | _ =>
      match process.step ProcessOutputChunk env t (sys h) with
      | Some s' => Some (mk_Harness s' (checked h))
      | None => None
      end
  end.

Fixpoint Harness_exec {S : Type} (ProcessOutputChunk : S -> string -> S * bool)
    (env : process.Run_env) (sched : list process.tid) (h : Harness S) : Harness S :=
  match sched with
  | [] => h
  | t :: sched' =>
      match Harness_step ProcessOutputChunk env t h with
      | Some h' => Harness_exec ProcessOutputChunk env sched' h'
      | None => Harness_exec ProcessOutputChunk env sched' h
      end
  end.

Definition Harness_init {S : Type} (c : S) : Harness S :=
  mk_Harness (process.init c) false.

(** The call the reader is committed to: the chunk it has tested the
    context for, with the answer the processor will give. *)
Definition pending_call {S : Type} (ProcessOutputChunk : S -> string -> S * bool)
    (h : Harness S) : list (string * bool) :=
  match process.reader (sys h) with
  | process.AtChunk payload _ =>
      if checked h
      then [(payload, snd (ProcessOutputChunk (process.checker (sys h)) payload))]
      else []
  | _ => []
  end.

(** The pipes are created, the reader scans the first chunk and finds the
    context live; then the context is cancelled. *)
Definition cancelled_after_test : list process.tid :=
  [process.TRun; process.TReader; process.TReader; process.TCancel].

Definition reader_then_run : list process.tid :=
  repeat process.TReader 4 ++ repeat process.TRun 4.

(** * Theorems *)

(** ** The check state machine *)

(** C4.  [SetProgress(p)] when the status is not running, or when [p] is
    not greater than the current progress, leaves the state as it is and
    calls the pusher not at all; when the status is running and [p] is
    greater, the progress becomes [p] and the pusher receives exactly one
    more call, [UpdateState] with the new snapshot. *)
Theorem SetProgress_monotonicity_guard (p : push.State) (progress : float32) :
  (agent.Status (push.state p) <> agent.StatusRunning \/
   f32_gt progress (agent.Progress (push.state p)) = false ->
   push.SetProgress progress p = p)
  /\
  (agent.Status (push.state p) = agent.StatusRunning ->
   f32_gt progress (agent.Progress (push.state p)) = true ->
   push.state (push.SetProgress progress p)
     = agent.with_Progress (push.state p) progress /\
   push.pusher (push.SetProgress progress p)
     = push.pusher p ++ [push.UpdateState (agent.with_Progress (push.state p) progress)]).
Proof.
  unfold push.SetProgress. split.
  - intros [Hs | Hp].
    + apply String.eqb_neq in Hs. rewrite Hs. reflexivity.
    + rewrite Hp, andb_false_r. reflexivity.
  - intros Hs Hp. apply String.eqb_eq in Hs. rewrite Hs, Hp. simpl. auto.
Qed.

Lemma SetProgress_monotonicity_guard_witness :
  push.SetProgress f32_0_3 running_half = running_half /\
  push.SetProgress f32_half (push.newState (agent.mk_State "" f32_zero report0))
    = push.newState (agent.mk_State "" f32_zero report0) /\
  agent.Progress (push.state (push.SetProgress f32_0_7 running_half)) = f32_0_7 /\
  List.length (push.pusher (push.SetProgress f32_0_7 running_half)) = 1%nat.
Proof.
  split; [| split; [| split]].
  - apply (proj1 (SetProgress_monotonicity_guard running_half f32_0_3)).
    right. reflexivity.
  - apply (proj1 (SetProgress_monotonicity_guard _ f32_half)).
    left. simpl. discriminate.
  - rewrite (proj1 (proj2 (SetProgress_monotonicity_guard running_half f32_0_7)
                      eq_refl eq_refl)).
    reflexivity.
  - rewrite (proj2 (proj2 (SetProgress_monotonicity_guard running_half f32_0_7)
                      eq_refl eq_refl)).
    reflexivity.
Defined.

(** A NaN is not greater than anything: it is ignored as well. *)
Lemma SetProgress_nan (p : push.State) : push.SetProgress S754_nan p = p.
Proof.
  apply (proj1 (SetProgress_monotonicity_guard p S754_nan)). right.
  unfold f32_gt, SFltb. destruct (agent.Progress (push.state p)); reflexivity.
Qed.

(** The run of the specification: 0.5 then 0.3 while running leaves 0.5 and
    one push. *)
Example progress_half_then_0_3 :
  let p := push.SetStatusRunning (push.newState (agent.mk_State "" f32_zero report0)) in
  let p' := push.SetProgress f32_0_3 (push.SetProgress f32_half p) in
  agent.Progress (push.state p') = f32_half /\ List.length (push.pusher p') = 2%nat.
Proof. split; reflexivity. Qed.

(** ** The lifecycle *)

Lemma pusher_push_state (p : push.State) :
  push.pusher (push.push_state p) = push.pusher p ++ [push.UpdateState (push.state p)].
Proof. reflexivity. Qed.

(** C5.  When the check body runs and returns a non-nil error, the
    lifecycle ends in status aborted with progress 1 exactly when the error
    is [context.Canceled], and in status failed with progress 1 and the
    text of the error in the report for every other error; in both cases
    the transition makes one push, of the final snapshot. *)
Theorem executeChecker_maps_error (P : Platform) (now : Z) (c : push.Check)
    (ops : list push.CheckerOp) (err : error) :
  push.ptrToBool (config.AllowPrivateIPs (push.conf c))
    || helpers.IsScannable P (config.Target (config.Check (push.conf c))) = true ->
  push.Run (push.checker c) (push.cancelled c)
      (config.Target (config.Check (push.conf c)))
      (config.Opts (config.Check (push.conf c))) = (ops, Some err) ->
  let body := push.apply_ops ops (push.checkState c) in
  let final := push.checkState (push.executeChecker P now c) in
  agent.Progress (push.state final) = f32_one /\
  push.pusher final = push.pusher body ++ [push.UpdateState (push.state final)] /\
  (err = context_Canceled ->
   agent.Status (push.state final) = agent.StatusAborted) /\
  (err <> context_Canceled ->
   agent.Status (push.state final) = agent.StatusFailed /\
   agent.Error (agent.Result (agent.Report_ (push.state final))) = Error err) /\
  (agent.Status (push.state final) = agent.StatusAborted <-> err = context_Canceled).
Proof.
  intros Hgate Hrun body final. subst body final.
  unfold push.executeChecker. rewrite Hgate, Hrun.
  destruct (error_eq_dec err context_Canceled) as [-> | Hne]; simpl.
  - repeat split; auto; try congruence.
  - repeat split; auto; try congruence; intros H; discriminate H.
Qed.

Lemma executeChecker_maps_error_witness :
  agent.Status (push.state (push.checkState (push.executeChecker offline 7 (check0 true))))
    = agent.StatusAborted /\
  agent.Status (push.state (push.checkState (push.executeChecker offline 7 (check0 false))))
    = agent.StatusFailed.
Proof.
  split.
  - apply (executeChecker_maps_error offline 7 (check0 true)
             [push.ReportProgress f32_half] context_Canceled);
      reflexivity.
  - apply (executeChecker_maps_error offline 7 (check0 false)
             [push.ReportProgress f32_half] (Errorf "connection refused"));
      [reflexivity | reflexivity | discriminate].
Defined.

(** The snapshots of the abort scenario: running at 0, the progress of the
    body, aborted at 1. *)
Example abort_scenario_pushes :
  map (fun call => match call with
                   | push.UpdateState s => (agent.Status s, agent.Progress s)
                   | push.Shutdown_ => ("", f32_zero)
                   end)
      (push.pusher (push.checkState (push.executeChecker offline 7 (check0 true))))
  = [(agent.StatusRunning, f32_zero); (agent.StatusRunning, f32_half);
     (agent.StatusAborted, f32_one)].
Proof. reflexivity. Qed.

(** ** The local runner *)

Lemma LOOP_returns (events : list local.Event) :
  In local.Done events ->
  forall armed cancels, exists n, local.LOOP events armed cancels = Some n.
Proof.
  induction events as [| e events IH]; intros Hin armed cancels.
  - destruct Hin.
  - destruct e; simpl.
    + destruct Hin as [H | H]; [discriminate H |].
      destruct armed; apply IH; assumption.
    + eauto.
Qed.

(** C10.  Once the check body has sent its result, [RunAndServe] of the
    local runner ends the process with status 0 when the body returned an
    error and with status 1 when it returned none. *)
Theorem RunAndServe_exit_status (checker : local.Checker) (conf : config.Config)
    (events : list local.Event) :
  In local.Done events ->
  exists e,
    local.RunAndServe checker conf events = Some e /\
    local.result_err e
      = snd (local.Run checker (0 <? local.cancel_calls e)%nat
               (config.Target (config.Check conf)) (config.Opts (config.Check conf))) /\
    (local.result_err e <> None -> local.code e = 0) /\
    (local.result_err e = None -> local.code e = 1).
Proof.
  intros Hin. unfold local.RunAndServe.
  destruct (LOOP_returns events Hin true 0%nat) as [n ->].
  destruct (local.Run checker (0 <? n)%nat _ _) as [progress [err |]] eqn:Hrun.
  - eexists. split; [reflexivity |]. simpl. rewrite Hrun.
    repeat split; auto. intros H; discriminate H.
  - eexists. split; [reflexivity |]. simpl. rewrite Hrun.
    repeat split; auto. intros H; contradiction H; reflexivity.
Qed.

Lemma RunAndServe_exit_status_witness :
  (exists e, local.RunAndServe succeeds conf0 [local.Done] = Some e /\ local.code e = 1) /\
  (exists e, local.RunAndServe fails conf0 [local.ExitSignal; local.Done] = Some e
             /\ local.code e = 0).
Proof.
  split.
  - destruct (RunAndServe_exit_status succeeds conf0 [local.Done])
      as (e & He & Herr & _ & H1).
    + simpl. auto.
    + exists e. split; [exact He |]. apply H1. rewrite Herr. reflexivity.
  - destruct (RunAndServe_exit_status fails conf0 [local.ExitSignal; local.Done])
      as (e & He & Herr & H0 & _).
    + simpl. auto.
    + exists e. split; [exact He |]. apply H0. rewrite Herr. discriminate.
Defined.

(** ** The target classifier *)

(** C1, as the code has it.  When the target is neither an IP nor a CIDR
    and the forward lookup of the target (of the host name of the URL when
    the target is a URL) fails, [IsScannable] returns true, and it has no
    error to return. *)
Theorem IsScannable_lookup_error (P : Platform) (asset : string) (err : error) :
  helpers.IsIP (helpers.mk_Target asset None None) = false ->
  helpers.IsCIDR (helpers.mk_Target asset None None) = false ->
  net_LookupHost P (match url_Hostname P asset with Some h => h | None => asset end)
    = Err err ->
  helpers.IsScannable P asset = true.
Proof.
  intros Hip Hcidr Hlookup. unfold helpers.IsScannable.
  rewrite Hip, Hcidr. simpl. unfold helpers.IsURL. simpl.
  destruct (url_Hostname P asset) as [h |]; rewrite Hlookup; reflexivity.
Qed.

Lemma IsScannable_lookup_error_witness :
  helpers.IsScannable offline "test.example.com" = true /\
  helpers.IsScannable offline "http://test.example.com/login" = true.
Proof.
  split.
  - apply (IsScannable_lookup_error offline "test.example.com"
             (no_such_host "test.example.com")); reflexivity.
  - apply (IsScannable_lookup_error offline "http://test.example.com/login"
             (no_such_host "test.example.com")); reflexivity.
Defined.

(** C1, as the specification words it, does not hold: a name that does not
    resolve is scannable (the case HostnameNotResolve of the test suite). *)
Lemma IsScannable_does_not_fail_closed : ~ fails_closed_on_lookup_error.
Proof.
  intros H.
  specialize (H offline "test.example.com" (no_such_host "test.example.com")
                eq_refl eq_refl eq_refl).
  discriminate H.
Qed.

(** A value already stored in the receiver is returned without a query. *)
Lemma IsHostname_body_cached (P : Platform) (t : helpers.Target) (h : bool)
    (w : helpers.World) :
  helpers.hostname t = Some h ->
  helpers.IsHostname_body P t w = ((t, (h, None)), w).
Proof. intros H. unfold helpers.IsHostname_body. rewrite H. reflexivity. Qed.

(** The body stores a computed answer in the receiver it runs on. *)
Lemma IsHostname_body_stores (P : Platform) (t : helpers.Target) (w : helpers.World)
    (ips : list net.IP) :
  helpers.hostname t = None ->
  helpers.IsIP t = false ->
  net_LookupIP P (helpers.Value t) = Ok ips ->
  helpers.hostname (fst (fst (helpers.IsHostname_body P t w)))
    = Some (0 <? List.length ips)%nat.
Proof.
  intros Hc Hip Hl. unfold helpers.IsHostname_body, helpers.LookupIP.
  rewrite Hc, Hip. simpl. rewrite Hl. reflexivity.
Qed.

(** Every call on a target that is not an IP and holds no answer sends a
    lookup, whatever was called on that target before. *)
Lemma IsHostname_queries (P : Platform) (t : helpers.Target) (w : helpers.World) :
  helpers.hostname t = None ->
  helpers.IsIP t = false ->
  helpers.queries (snd (helpers.IsHostname P t w))
    = helpers.queries w ++ [helpers.QLookupIP (helpers.Value t)].
Proof.
  intros Hc Hip. unfold helpers.IsHostname, helpers.IsHostname_body, helpers.LookupIP.
  rewrite Hc, Hip. simpl.
  destruct (net_LookupIP P (helpers.Value t)) as [ips | err]; simpl; [reflexivity |].
  destruct (strings_Contains (Error err) helpers.noSuchHostErrorToken); reflexivity.
Qed.

(** The run of the failing input of C3 on a platform where the names of the
    test suite resolve. *)
Example second_call_on_testnet :
  let t := helpers.mk_Target "localhost" None None in
  let first := helpers.IsHostname testnet t helpers.world0 in
  let second := helpers.IsHostname testnet t (snd first) in
  let d := helpers.mk_Target "example.com" None None in
  let dfirst := helpers.IsDomainName testnet d helpers.world0 in
  let dsecond := helpers.IsDomainName testnet d (snd dfirst) in
  fst first = (true, None) /\
  helpers.queries (snd first) = [helpers.QLookupIP "localhost"] /\
  fst second = (true, None) /\
  helpers.queries (snd second)
    = [helpers.QLookupIP "localhost"; helpers.QLookupIP "localhost"] /\
  fst dfirst = (true, None) /\
  helpers.queries (snd dfirst)
    = [helpers.QReadConf "/etc/resolv.conf";
       helpers.QExchange "example.com." 6 "192.0.2.53:53"] /\
  fst dsecond = (true, None) /\
  helpers.queries (snd dsecond)
    = [helpers.QReadConf "/etc/resolv.conf";
       helpers.QExchange "example.com." 6 "192.0.2.53:53";
       helpers.QExchange "example.com." 6 "192.0.2.53:53"].
Proof. vm_compute. repeat split. Qed.

(** The loop over the servers leaves the configuration alone and only adds
    queries, at least one when there is a server. *)
Lemma hasSOARecord_servers_world (P : Platform) (port address : string) :
  forall (servers : list string) (r : option dns.Msg) (w : helpers.World),
    let res := helpers.hasSOARecord_servers P servers port address r w in
    helpers.dnsConf (snd res) = helpers.dnsConf w /\
    exists l, helpers.queries (snd res) = helpers.queries w ++ l /\
              (servers <> [] -> l <> []).
Proof.
  induction servers as [| srv rest IH]; intros r w; cbn [helpers.hasSOARecord_servers].
  - simpl. split; [reflexivity |]. exists []. rewrite app_nil_r.
    split; [reflexivity |]. intros H; contradiction H; reflexivity.
  - unfold helpers.bind at 1.
    unfold helpers.Exchange, helpers.bind, helpers.sent, helpers.ret.
    destruct (dns_Exchange P address dns.TypeSOA (srv ++ ":" ++ port)%string)
      as [m | err].
    + destruct (dns.Rcode m =? dns.RcodeSuccess).
      * simpl. split; [reflexivity |]. eexists. split; [reflexivity | discriminate].
      * match goal with
        | |- context [helpers.hasSOARecord_servers P rest port address ?r' ?w'] =>
            destruct (IH r' w') as (Hc & l & Hq & _)
        end.
        cbv zeta. rewrite Hc, Hq. simpl. split; [reflexivity |].
        eexists. rewrite <- app_assoc. split; [reflexivity | discriminate].
    + simpl. split; [reflexivity |]. eexists. split; [reflexivity | discriminate].
Qed.

Lemma hasSOARecord_servers_found (P : Platform) (port address : string) :
  forall (servers : list string) (w : helpers.World) (m : dns.Msg),
    fst (helpers.hasSOARecord_servers P servers port address None w) = Ok (Some m) ->
    servers <> [].
Proof.
  intros [| srv rest] w m H; [discriminate H | discriminate].
Qed.

(** A call of [hasSOARecord] that returns no error leaves a configuration
    with a server behind. *)
Lemma hasSOARecord_success_world (P : Platform) (address : string)
    (w : helpers.World) (b : bool) :
  fst (helpers.hasSOARecord P address w) = (b, None) ->
  exists c, helpers.dnsConf (snd (helpers.hasSOARecord P address w)) = Some c /\
            dns.Servers c <> [].
Proof.
  unfold helpers.hasSOARecord, helpers.get_dnsConf, helpers.ClientConfigFromFile,
    helpers.set_dnsConf, helpers.sent.
  unfold helpers.bind, helpers.ret.
  destruct (helpers.dnsConf w) as [c |] eqn:Hconf.
  - destruct (hasSOARecord_servers_world P (dns.Port c) (address ++ ".")%string
                (dns.Servers c) None w) as (Hc & _).
    destruct (helpers.hasSOARecord_servers P (dns.Servers c) (dns.Port c) _ None w)
      as [[[m |] | err] w'] eqn:Hloop; simpl; intros H; try discriminate H.
    exists c. simpl in Hc. rewrite Hc, Hconf. split; [reflexivity |].
    eapply hasSOARecord_servers_found. rewrite Hloop. reflexivity.
  - destruct (dns_ClientConfigFromFile P helpers.dnsConfFilePath) as [c | err];
      [| simpl; intros H; discriminate H].
    match goal with
    | |- context [helpers.hasSOARecord_servers P ?sv ?pt ?ad None ?w0] =>
        destruct (hasSOARecord_servers_world P pt ad sv None w0) as (Hc & _);
        destruct (helpers.hasSOARecord_servers P sv pt ad None w0)
          as [[[m |] | err] w'] eqn:Hloop
    end; simpl; intros H; try discriminate H.
    exists c. simpl in Hc. rewrite Hc. split; [reflexivity |].
    eapply hasSOARecord_servers_found. rewrite Hloop. reflexivity.
Qed.

(** With a configuration that names a server, every call of [hasSOARecord]
    sends a question. *)
Lemma hasSOARecord_asks (P : Platform) (address : string) (w : helpers.World)
    (c : dns.ClientConfig) :
  helpers.dnsConf w = Some c ->
  dns.Servers c <> [] ->
  exists q l,
    helpers.queries (snd (helpers.hasSOARecord P address w))
    = helpers.queries w ++ q :: l.
Proof.
  intros Hconf Hne.
  unfold helpers.hasSOARecord, helpers.get_dnsConf.
  unfold helpers.bind, helpers.ret. rewrite Hconf.
  destruct (hasSOARecord_servers_world P (dns.Port c) (address ++ ".")%string
              (dns.Servers c) None w) as (_ & l & Hq & Hl).
  destruct (helpers.hasSOARecord_servers P (dns.Servers c) (dns.Port c) _ None w)
    as [[[m |] | err] w'] eqn:Hloop; simpl in *;
    (destruct l as [| q l]; [contradiction (Hl Hne); reflexivity |]);
    exists q, l; exact Hq.
Qed.

Lemma IsDomainName_unfolds (P : Platform) (t : helpers.Target) (w : helpers.World) :
  helpers.domainName t = None ->
  helpers.IsIP t = false ->
  snd (helpers.IsDomainName P t w) = snd (helpers.hasSOARecord P (helpers.Value t) w) /\
  forall b, fst (helpers.IsDomainName P t w) = (b, None) ->
            fst (helpers.hasSOARecord P (helpers.Value t) w) = (b, None).
Proof.
  intros Hc Hip.
  unfold helpers.IsDomainName, helpers.IsDomainName_body, helpers.IsDomainName_asset.
  rewrite Hc, Hip. unfold helpers.bind, helpers.ret.
  destruct (helpers.hasSOARecord P (helpers.Value t) w) as [[b' [err |]] w'];
    simpl; split; auto; intros b H; inversion H; reflexivity.
Qed.

(** C3, on the code.  On a target that is not an IP and holds no answer yet:
    when the lookup answers, the first call of [IsHostname] succeeds, the
    second call on the same value returns the same and has sent the lookup
    a second time; and when the first call of [IsDomainName] succeeds, the
    second call on the same value sends at least one more question. *)
Theorem second_call_queries_again (P : Platform) (t : helpers.Target)
    (w : helpers.World) :
  helpers.IsIP t = false ->
  (forall ips,
      helpers.hostname t = None ->
      net_LookupIP P (helpers.Value t) = Ok ips ->
      let first := helpers.IsHostname P t w in
      let second := helpers.IsHostname P t (snd first) in
      fst first = ((0 <? List.length ips)%nat, None) /\
      fst second = fst first /\
      helpers.queries (snd second)
        = helpers.queries w ++ [helpers.QLookupIP (helpers.Value t);
                                helpers.QLookupIP (helpers.Value t)]) /\
  (forall b,
      helpers.domainName t = None ->
      fst (helpers.IsDomainName P t w) = (b, None) ->
      let first := helpers.IsDomainName P t w in
      let second := helpers.IsDomainName P t (snd first) in
      exists q l,
        helpers.queries (snd second) = helpers.queries (snd first) ++ q :: l).
Proof.
  intros Hip. split.
  - intros ips Hc Hl first second. subst first second.
    rewrite !IsHostname_queries by assumption.
    unfold helpers.IsHostname, helpers.IsHostname_body, helpers.LookupIP.
    rewrite Hc, Hip. unfold helpers.bind, helpers.ret, helpers.sent.
    rewrite Hl. simpl. rewrite <- app_assoc. auto.
  - intros b Hc Hfirst first second. subst first second.
    destruct (IsDomainName_unfolds P t w Hc Hip) as [Hw Hres].
    apply Hres in Hfirst.
    destruct (hasSOARecord_success_world P _ w b Hfirst) as (c & Hconf & Hne).
    destruct (IsDomainName_unfolds P t (snd (helpers.IsDomainName P t w)) Hc Hip)
      as [Hw2 _].
    rewrite Hw2, Hw. eapply hasSOARecord_asks; eassumption.
Qed.

Lemma second_call_queries_again_witness :
  helpers.queries
    (snd (helpers.IsHostname testnet (helpers.mk_Target "localhost" None None)
            (snd (helpers.IsHostname testnet (helpers.mk_Target "localhost" None None)
                    helpers.world0))))
  = [helpers.QLookupIP "localhost"; helpers.QLookupIP "localhost"] /\
  exists q l,
    helpers.queries
      (snd (helpers.IsDomainName testnet (helpers.mk_Target "example.com" None None)
              (snd (helpers.IsDomainName testnet
                      (helpers.mk_Target "example.com" None None) helpers.world0))))
    = helpers.queries
        (snd (helpers.IsDomainName testnet (helpers.mk_Target "example.com" None None)
                helpers.world0)) ++ q :: l.
Proof.
  split.
  - destruct (second_call_queries_again testnet
                (helpers.mk_Target "localhost" None None) helpers.world0 eq_refl)
      as [H _].
    destruct (H [net.IPv4 127 0 0 1] eq_refl eq_refl) as (_ & _ & Hq). exact Hq.
  - destruct (second_call_queries_again testnet
                (helpers.mk_Target "example.com" None None) helpers.world0 eq_refl)
      as [_ H].
    exact (H true eq_refl eq_refl).
Defined.



(** A run of C8: one resolver, which answers SERVFAIL. *)
Example hasSOARecord_servfail :
  fst (helpers.hasSOARecord servfail "example.com" helpers.world0) = (false, None) /\
  helpers.queries (snd (helpers.hasSOARecord servfail "example.com" helpers.world0))
    = [helpers.QReadConf "/etc/resolv.conf";
       helpers.QExchange "example.com." 6 "192.0.2.53:53"] /\
  fst (helpers.IsDomainName servfail (helpers.mk_Target "example.com" None None)
         helpers.world0) = (false, None).
Proof. vm_compute. repeat split. Qed.





(** With no server configured the sentinel is returned. *)
Example hasSOARecord_no_servers :
  fst (helpers.hasSOARecord servfail "example.com"
         (helpers.mk_World (Some (dns.mk_ClientConfig [] "53")) []))
  = (false, Some ErrFailedToGetDNSAnswer).
Proof. reflexivity. Qed.

(** Every entry of the two tables parses, so the registries hold 16 and 10
    networks. *)
Lemma init_parses_every_entry :
  forallb (fun s => match net.ParseCIDR s with Some _ => true | None => false end)
          (helpers.reservedIPV4s ++ helpers.reservedIPV6s) = true /\
  List.length helpers.NotScannableNetsIPV4 = 16%nat /\
  List.length helpers.NotScannableNetsIPV6 = 10%nat.
Proof. vm_compute. repeat split. Qed.

(** The cases of the test suite, on a platform where its names resolve. *)
Example TestTarget_IsScannable :
  map (helpers.IsScannable testnet)
    ["1.1.1.1/24"; "1.1.1.1"; "www.example.com"; "http://www.example.com";
     "example.com"; "registry.hub.docker.com/library/alpine:latest";
     "arn:aws:iam::111111111111:root"; "test.example.com";
     "127.0.0.1/24"; "127.0.0.1"; "localhost"; "https://localhost"]
  = [true; true; true; true; true; true; true; true; false; false; false; false].
Proof. vm_compute. reflexivity. Qed.

(** *** IP literals the classifier reads correctly *)

Lemma strings_Contains_char (c : ascii) (s : string) :
  strings_Contains s (String c EmptyString) = has c s.
Proof.
  unfold strings_Contains. induction s as [| b s IH]; simpl; [reflexivity |].
  destruct (ascii_dec c b) as [-> | Hne].
  - rewrite Ascii.eqb_refl. destruct s; reflexivity.
  - assert (Hb : Ascii.eqb b c = false)
      by (apply Ascii.eqb_neq; congruence).
    rewrite Hb. simpl.
    destruct (index 0 (String c EmptyString) s); simpl in *; congruence.
Qed.

Lemma has_append (c : ascii) (s1 s2 : string) :
  has c (s1 ++ s2)%string = has c s1 || has c s2.
Proof.
  induction s1 as [| b s1 IH]; simpl; [reflexivity |].
  rewrite IH, orb_assoc. reflexivity.
Qed.

Lemma has_drop (c : ascii) (n : nat) :
  forall s, has c (drop n s) = true -> has c s = true.
Proof.
  induction n as [| n IH]; intros s H; simpl in H; [exact H |].
  destruct s as [| b s]; [exact H |]. simpl. rewrite (IH s H).
  apply orb_true_r.
Qed.

Lemma cut_slash_append (s mask : string) :
  has "/" s = false ->
  net.cut_slash (s ++ String "/" mask)%string = Some (s, mask).
Proof.
  induction s as [| b s IH]; simpl; intros H; [reflexivity |].
  apply orb_false_elim in H. destruct H as [Hb Hs].
  rewrite Hb, (IH Hs). reflexivity.
Qed.

(** [dtoi] and [xtoi] walk over digits only: a byte that is no digit is
    before the number as often as behind it. *)
Lemma dtoi_from_skips (c : ascii) :
  net.xdigit c = None ->
  forall s n i n' k,
    net.dtoi_from s n i = (n', k, true) ->
    (i <= k)%nat /\ has c (drop (k - i) s) = has c s.
Proof.
  intros Hc. induction s as [| b s IH]; intros n i n' k H; simpl in H.
  - unfold net.dtoi_end in H. destruct i; inversion H; subst.
    rewrite Nat.sub_diag. simpl. auto.
  - destruct (between "0" "9" b) eqn:Hb.
    + destruct (net.big <=? n * 10 + (byte_of b - byte_of "0")); [discriminate H |].
      apply IH in H. destruct H as [Hle Hhas]. split; [lia |].
      replace (k - i)%nat with (S (k - S i)) by lia. simpl. rewrite Hhas.
      assert (Hbc : Ascii.eqb b c = false).
      { apply Ascii.eqb_neq. intros ->. unfold net.xdigit in Hc.
        rewrite Hb in Hc. discriminate Hc. }
      rewrite Hbc. reflexivity.
    + unfold net.dtoi_end in H. destruct i; inversion H; subst.
      rewrite Nat.sub_diag. simpl. auto.
Qed.

Lemma xtoi_from_skips (c : ascii) :
  net.xdigit c = None ->
  forall s n i n' k,
    net.xtoi_from s n i = (n', k, true) ->
    (i <= k)%nat /\ has c (drop (k - i) s) = has c s.
Proof.
  intros Hc. induction s as [| b s IH]; intros n i n' k H; simpl in H.
  - unfold net.dtoi_end in H. destruct i; inversion H; subst.
    rewrite Nat.sub_diag. simpl. auto.
  - destruct (net.xdigit b) as [d |] eqn:Hb.
    + destruct (net.big <=? n * 16 + d); [discriminate H |].
      apply IH in H. destruct H as [Hle Hhas]. split; [lia |].
      replace (k - i)%nat with (S (k - S i)) by lia. simpl. rewrite Hhas.
      assert (Hbc : Ascii.eqb b c = false).
      { apply Ascii.eqb_neq. intros ->. congruence. }
      rewrite Hbc. reflexivity.
    + unfold net.dtoi_end in H. destruct i; inversion H; subst.
      rewrite Nat.sub_diag. simpl. auto.
Qed.

Lemma dtoi_from_nonneg :
  forall s n i n' k ok,
    0 <= n -> net.dtoi_from s n i = (n', k, ok) -> 0 <= n'.
Proof.
  induction s as [| b s IH]; intros n i n' k ok Hn H; simpl in H.
  - unfold net.dtoi_end in H. destruct i; inversion H; subst; lia.
  - destruct (between "0" "9" b) eqn:Hb.
    + destruct (net.big <=? n * 10 + (byte_of b - byte_of "0")).
      * inversion H; subst. unfold net.big. lia.
      * eapply IH; [| exact H]. unfold between in Hb.
        apply andb_prop in Hb. destruct Hb as [Hb _].
        apply Z.leb_le in Hb. lia.
    + unfold net.dtoi_end in H. destruct i; inversion H; subst; lia.
Qed.

Lemma xdigit_range (b : ascii) (d : Z) : net.xdigit b = Some d -> 0 <= d.
Proof.
  unfold net.xdigit, between. intros H.
  repeat match type of H with
         | (if ?c then _ else _) = _ => destruct c eqn:?
         end; inversion H; subst;
    repeat match goal with
           | Hx : (_ && _) = true |- _ => apply andb_prop in Hx; destruct Hx
           | Hx : (_ <=? _) = true |- _ => apply Z.leb_le in Hx
           end; lia.
Qed.

Lemma xtoi_from_nonneg :
  forall s n i n' k ok,
    0 <= n -> net.xtoi_from s n i = (n', k, ok) -> 0 <= n'.
Proof.
  induction s as [| b s IH]; intros n i n' k ok Hn H; simpl in H.
  - unfold net.dtoi_end in H. destruct i; inversion H; subst; lia.
  - destruct (net.xdigit b) as [d |] eqn:Hb.
    + destruct (net.big <=? n * 16 + d).
      * inversion H; subst. lia.
      * eapply IH; [| exact H]. apply xdigit_range in Hb. lia.
    + unfold net.dtoi_end in H. destruct i; inversion H; subst; lia.
Qed.

Lemma parseIPv4_octets_spec (k : nat) :
  forall first s p p' rest,
    net.parseIPv4_octets k first s p = Some (p', rest) ->
    (forall c, net.xdigit c = None -> c <> "."%char -> has c s = has c rest) /\
    (first = false -> k <> O -> has "." s = true) /\
    (first = true -> (2 <= k)%nat -> has "." s = true) /\
    exists q, p' = p ++ q /\ List.length q = k /\ Forall is_byte q.
Proof.
  induction k as [| k IH]; intros first s p p' rest H; simpl in H.
  - inversion H; subst. repeat split; try congruence; try lia.
    exists []. rewrite app_nil_r. auto.
  - destruct s as [| c0 s0]; [discriminate H |].
    set (s := String c0 s0) in *.
    destruct (if first then Some s
              else if Ascii.eqb c0 "." then Some s0 else None) as [s1 |] eqn:Hs1;
      [| discriminate H].
    destruct (net.dtoi s1) as [[n c] ok] eqn:Hd.
    destruct ok; [| discriminate H]. simpl in H.
    destruct (255 <? n) eqn:Hn; [discriminate H |].
    destruct ((1 <? c)%nat && net.starts_with "0" s1); [discriminate H |].
    apply IH in H. destruct H as (Hskip & Hdot & _ & q & -> & Hlen & Hq).
    unfold net.dtoi in Hd.
    assert (Hn0 : 0 <= n) by (eapply dtoi_from_nonneg; [| exact Hd]; lia).
    apply Z.ltb_ge in Hn.
    assert (Hs1s : forall c', c' <> "."%char -> has c' s = has c' s1).
    { intros c' Hc'. destruct first.
      - inversion Hs1. reflexivity.
      - destruct (Ascii.eqb c0 ".") eqn:Hc0; inversion Hs1; subst.
        apply Ascii.eqb_eq in Hc0. subst c0. unfold s. cbn [has].
        assert (Hne : Ascii.eqb "." c' = false) by (apply Ascii.eqb_neq; congruence).
        rewrite Hne. reflexivity. }
    split; [| split; [| split]].
    + intros c' Hx Hc'. rewrite (Hs1s c' Hc').
      destruct (dtoi_from_skips c' Hx _ _ _ _ _ Hd) as [_ Hh].
      rewrite Nat.sub_0_r in Hh. rewrite <- Hh. apply Hskip; assumption.
    + intros -> _. destruct (Ascii.eqb c0 ".") eqn:Hc0; [| discriminate Hs1].
      unfold s. cbn [has]. rewrite Hc0. reflexivity.
    + intros -> Hk. inversion Hs1; subst s1.
      apply has_drop with (n := c). apply Hdot; [reflexivity | lia].
    + exists (n :: q). rewrite <- app_assoc. simpl.
      repeat split; auto. constructor; [unfold is_byte; lia | exact Hq].
Qed.

Lemma parseIPv4_spec (s : string) (ip : net.IP) :
  net.parseIPv4 s = Some ip ->
  has "." s = true /\ has "/" s = false /\ has ":" s = false /\
  exists a b c d,
    ip = net.IPv4 a b c d /\ is_byte a /\ is_byte b /\ is_byte c /\ is_byte d.
Proof.
  unfold net.parseIPv4. intros H.
  destruct (net.parseIPv4_octets net.IPv4len true s []) as [[p rest] |] eqn:Ho;
    [| discriminate H].
  apply parseIPv4_octets_spec in Ho.
  destruct Ho as (Hskip & _ & Hdot & q & -> & Hlen & Hq). simpl in H.
  destruct q as [| a [| b [| c [| d [| e q]]]]]; try discriminate H.
  destruct rest; [| discriminate H]. inversion H; subst.
  split; [apply Hdot; [reflexivity | unfold net.IPv4len; lia] |].
  split; [apply (Hskip "/"%char); [reflexivity | discriminate] |].
  split; [apply (Hskip ":"%char); [reflexivity | discriminate] |].
  exists a, b, c, d.
  inversion Hq as [| ? ? Ha Hq1]; subst. inversion Hq1 as [| ? ? Hb Hq2]; subst.
  inversion Hq2 as [| ? ? Hc Hq3]; subst. inversion Hq3 as [| ? ? Hd' _]; subst.
  auto.
Qed.

Lemma ParseIP_scan_no_colon (w : string) :
  forall s, has ":" s = false -> has "." s = true ->
            net.ParseIP_scan s w = net.parseIPv4 w.
Proof.
  induction s as [| c s IH]; simpl; intros Hc Hd; [discriminate Hd |].
  apply orb_false_elim in Hc. destruct Hc as [Hc1 Hc2].
  destruct (Ascii.eqb c "."); [reflexivity |]. rewrite Hc1. apply IH; assumption.
Qed.

Lemma ParseIP_scan_no_dot (w : string) :
  forall s ip, has "." s = false -> net.ParseIP_scan s w = Some ip ->
               net.parseIPv6 w = Some ip.
Proof.
  induction s as [| c s IH]; simpl; intros ip Hd H; [discriminate H |].
  apply orb_false_elim in Hd. destruct Hd as [Hd1 Hd2]. rewrite Hd1 in H.
  destruct (Ascii.eqb c ":"); [exact H |]. eapply IH; eassumption.
Qed.

Lemma set_byte_length (i : nat) (v : Z) :
  forall ip, List.length (net.set_byte i v ip) = List.length ip.
Proof.
  induction i as [| i IH]; intros [| h t]; simpl; auto.
Qed.

Lemma set_byte_bytes (i : nat) (v : Z) :
  is_byte v -> forall ip, Forall is_byte ip -> Forall is_byte (net.set_byte i v ip).
Proof.
  intros Hv. induction i as [| i IH]; intros [| h t] H; simpl; auto;
    inversion H; subst; constructor; auto.
Qed.

Lemma shiftr_8_byte (n : Z) : 0 <= n -> n <= 65535 -> is_byte (Z.shiftr n 8).
Proof.
  intros H0 H1. unfold is_byte. rewrite Z.shiftr_div_pow2 by lia.
  change (2 ^ 8) with 256. split.
  - apply Z.div_pos; lia.
  - assert (n / 256 < 256) by (apply Z.div_lt_upper_bound; lia). lia.
Qed.

Lemma land_255_byte (n : Z) : 0 <= n -> is_byte (Z.land n 255).
Proof.
  intros H0. unfold is_byte. change (Z.land n 255) with (Z.land n (Z.ones 8)).
  rewrite Z.land_ones by lia. change (2 ^ 8) with 256.
  pose proof (Z.mod_pos_bound n 256 ltac:(lia)). lia.
Qed.

Lemma land_255_id (n : Z) : is_byte n -> Z.land n 255 = n.
Proof.
  intros [H0 H1]. change (Z.land n 255) with (Z.land n (Z.ones 8)).
  rewrite Z.land_ones by lia. change (2 ^ 8) with 256.
  apply Z.mod_small. lia.
Qed.

(** What the loop of [parseIPv6] keeps: sixteen bytes, an ellipsis at or
    before the write position, and no slash in what it consumes. *)
Lemma parseIPv6_loop_spec (fuel : nat) :
  forall ip i e s st,
    net.parseIPv6_loop fuel ip i e s = Some st ->
    List.length ip = 16%nat -> Forall is_byte ip ->
    (forall x, e = Some x -> (x <= i)%nat) ->
    List.length (net.v6_ip st) = 16%nat /\
    Forall is_byte (net.v6_ip st) /\
    (forall x, net.v6_ellipsis st = Some x -> (x <= net.v6_i st)%nat) /\
    has "/" s = has "/" (net.v6_rest st).
Proof.
  induction fuel as [| fuel IH]; intros ip i e s st H Hlen Hip He;
    cbn [net.parseIPv6_loop] in H;
    destruct (net.IPv6len <=? i)%nat eqn:Hi;
    try (inversion H; subst; simpl; auto; fail); try discriminate H.
  destruct (net.xtoi s) as [[n c] ok] eqn:Hx.
  destruct ok; [| discriminate H]. cbn [negb orb] in H.
  destruct (65535 <? n) eqn:Hn; [discriminate H |].
  apply Z.ltb_ge in Hn. unfold net.xtoi in Hx.
  assert (Hn0 : 0 <= n) by (eapply xtoi_from_nonneg; [| exact Hx]; lia).
  destruct (xtoi_from_skips "/"%char eq_refl _ _ _ _ _ Hx) as [_ Hslash].
  rewrite Nat.sub_0_r in Hslash.
  destruct (net.starts_with "." (drop c s)) eqn:Hdot.
  - (* the dotted tail *)
    destruct ((match e with None => true | Some _ => false end)
              && negb (i =? net.IPv6len - net.IPv4len)%nat); [discriminate H |].
    destruct (net.IPv6len <? i + net.IPv4len)%nat; [discriminate H |].
    destruct (net.parseIPv4 s) as [ip4 |] eqn:H4; [| discriminate H].
    apply parseIPv4_spec in H4.
    destruct H4 as (_ & Hs4 & _ & a & b & c' & d & -> & Ha & Hb & Hc & Hd).
    inversion H; subst; clear H. cbn [net.v6_ip net.v6_i net.v6_ellipsis net.v6_rest].
    rewrite !set_byte_length.
    split; [exact Hlen |]. split.
    + repeat apply set_byte_bytes; assumption.
    + split; [| rewrite Hs4; reflexivity].
      intros x Hxe. specialize (He x Hxe). lia.
  - (* a group *)
    set (ip2 := net.set_byte (i + 1) (Z.land n 255) (net.set_byte i (Z.shiftr n 8) ip)) in *.
    assert (Hlen2 : List.length ip2 = 16%nat)
      by (unfold ip2; rewrite !set_byte_length; exact Hlen).
    assert (Hip2 : Forall is_byte ip2).
    { unfold ip2. apply set_byte_bytes; [apply land_255_byte; exact Hn0 |].
      apply set_byte_bytes; [apply shiftr_8_byte; assumption | exact Hip]. }
    destruct (drop c s) as [| c1 [| c2 s2]] eqn:Hrest.
    + inversion H; subst; clear H. simpl. repeat split; auto.
      intros x Hxe. specialize (He x Hxe). lia.
    + discriminate H.
    + destruct (Ascii.eqb c1 ":") eqn:Hc1; [| discriminate H]. cbn [negb] in H.
      apply Ascii.eqb_eq in Hc1. subst c1.
      rewrite <- Hslash. cbn [has]. change (Ascii.eqb ":" "/") with false.
      cbn [orb].
      destruct (Ascii.eqb c2 ":") eqn:Hc2.
      * apply Ascii.eqb_eq in Hc2. subst c2.
        change (Ascii.eqb ":" "/") with false. cbn [orb].
        destruct e; [discriminate H |].
        destruct s2 as [| c3 s3].
        -- inversion H; subst; clear H. simpl. repeat split; auto.
           intros x Hxe. inversion Hxe; subst. lia.
        -- apply IH in H; auto.
           intros x Hxe. inversion Hxe; subst. lia.
      * apply IH in H; auto.
        intros x Hxe. specialize (He x Hxe). lia.
Qed.

Lemma Forall_take {A} (Q : A -> Prop) (n : nat) :
  forall l, Forall Q l -> Forall Q (firstn n l).
Proof.
  induction n as [| n IH]; intros l H; simpl; [constructor |].
  destruct H; constructor; auto.
Qed.

Lemma Forall_skip {A} (Q : A -> Prop) (n : nat) :
  forall l, Forall Q l -> Forall Q (skipn n l).
Proof.
  induction n as [| n IH]; intros l H; simpl; [exact H |].
  destruct H; [constructor | auto].
Qed.

Lemma expand_ellipsis_spec (ip : list Z) (i e : nat) :
  List.length ip = 16%nat -> Forall is_byte ip -> (e <= i)%nat -> (i < 16)%nat ->
  List.length (net.expand_ellipsis ip i e) = 16%nat /\
  Forall is_byte (net.expand_ellipsis ip i e).
Proof.
  intros Hlen Hip He Hi. unfold net.expand_ellipsis, net.IPv6len. split.
  - rewrite !length_app, repeat_length, !length_firstn, length_skipn. lia.
  - apply Forall_app. split; [apply Forall_take; exact Hip |].
    apply Forall_app. split.
    + apply Forall_forall. intros x Hx. apply repeat_spec in Hx. subst x.
      unfold is_byte. lia.
    + apply Forall_take. apply Forall_skip. exact Hip.
Qed.

Lemma parseIPv6_spec (s : string) (ip : net.IP) :
  net.parseIPv6 s = Some ip ->
  List.length ip = 16%nat /\ Forall is_byte ip /\ has "/" s = false.
Proof.
  unfold net.parseIPv6. intros H.
  assert (H0 : List.length (repeat 0 net.IPv6len) = 16%nat /\
               Forall is_byte (repeat 0 net.IPv6len)).
  { split; [reflexivity |]. apply Forall_forall. intros x Hx.
    apply repeat_spec in Hx. subst x. unfold is_byte. lia. }
  destruct H0 as [Hlen0 Hip0].
  assert (Hgen : forall e s0,
    (forall x, e = Some x -> (x <= 0)%nat) ->
    match net.parseIPv6_loop 8 (repeat 0 net.IPv6len) 0 e s0 with
    | None => None
    | Some st =>
        match net.v6_rest st with
        | String _ _ => None
        | EmptyString =>
            if (net.v6_i st <? net.IPv6len)%nat then
              match net.v6_ellipsis st with
              | None => None
              | Some e => Some (net.expand_ellipsis (net.v6_ip st) (net.v6_i st) e)
              end
            else
              match net.v6_ellipsis st with
              | Some _ => None
              | None => Some (net.v6_ip st)
              end
        end
    end = Some ip ->
    List.length ip = 16%nat /\ Forall is_byte ip /\ has "/" s0 = false).
  { intros e s0 He Hres.
    destruct (net.parseIPv6_loop 8 (repeat 0 net.IPv6len) 0 e s0) as [st |] eqn:Hl;
      [| discriminate Hres].
    apply parseIPv6_loop_spec in Hl; auto.
    destruct Hl as (Hlen & Hip & Hell & Hslash).
    destruct (net.v6_rest st); [| discriminate Hres].
    destruct (net.v6_i st <? net.IPv6len)%nat eqn:Hi.
    - destruct (net.v6_ellipsis st) as [x |]; [| discriminate Hres].
      inversion Hres; subst. apply Nat.ltb_lt in Hi. unfold net.IPv6len in Hi.
      destruct (expand_ellipsis_spec (net.v6_ip st) (net.v6_i st) x) as [A B]; auto.
    - destruct (net.v6_ellipsis st); [discriminate Hres |].
      inversion Hres; subst. auto. }
  destruct s as [| c1 [| c2 s']].
  - apply (Hgen None EmptyString); [discriminate | exact H].
  - apply (Hgen None (String c1 EmptyString)); [discriminate | exact H].
  - destruct (Ascii.eqb c1 ":" && Ascii.eqb c2 ":") eqn:Hcc.
    + apply andb_prop in Hcc. destruct Hcc as [Hc1 Hc2].
      apply Ascii.eqb_eq in Hc1, Hc2. subst c1 c2.
      destruct s' as [| c3 s3].
      * inversion H; subst. auto.
      * destruct (Hgen (Some O) (String c3 s3)) as (A & B & C);
          [intros x Hx; inversion Hx; lia | exact H |].
        repeat split; auto.
    + apply (Hgen None (String c1 (String c2 s'))); [discriminate | exact H].
Qed.

Lemma ParseCIDR_bare_v4 (s : string) (ip : net.IP) :
  net.parseIPv4 s = Some ip ->
  exists a b c d,
    ip = net.IPv4 a b c d /\
    net.ParseCIDR (s ++ "/32")%string
      = Some (ip, net.mk_IPNet [a; b; c; d] [255; 255; 255; 255]).
Proof.
  intros H. pose proof (parseIPv4_spec s ip H) as Hs.
  destruct Hs as (_ & Hslash & _ & a & b & c & d & -> & Ha & Hb & Hc & Hd).
  exists a, b, c, d. split; [reflexivity |].
  unfold net.ParseCIDR. change (s ++ "/32")%string with (s ++ String "/" "32")%string.
  rewrite (cut_slash_append s "32" Hslash), H.
  change (net.dtoi "32") with (32, 2%nat, true).
  cbv beta iota. simpl.
  rewrite !land_255_id by assumption. reflexivity.
Qed.

Lemma mask_all_ones (ip : list Z) :
  Forall is_byte ip ->
  map (fun p => Z.land (fst p) (snd p)) (combine ip (repeat 255 (List.length ip))) = ip.
Proof.
  induction 1 as [| x l Hx Hl IH]; simpl; [reflexivity |].
  rewrite IH, land_255_id by assumption. reflexivity.
Qed.

Lemma ParseCIDR_bare_v6 (s : string) (ip : net.IP) :
  net.parseIPv6 s = Some ip ->
  has "." s = false ->
  net.ParseCIDR (s ++ "/128")%string
    = Some (ip, net.mk_IPNet ip (repeat 255 16)).
Proof.
  intros H Hdot. destruct (parseIPv6_spec s ip H) as (Hlen & Hip & Hslash).
  unfold net.ParseCIDR. change (s ++ "/128")%string with (s ++ String "/" "128")%string.
  rewrite (cut_slash_append s "128" Hslash).
  destruct (net.parseIPv4 s) as [ip4 |] eqn:H4.
  - apply parseIPv4_spec in H4. destruct H4 as [H4 _]. congruence.
  - rewrite H. change (net.dtoi "128") with (128, 3%nat, true).
    cbv beta iota.
    change (net.CIDRMask 128 (8 * Z.of_nat net.IPv6len)) with (Some (repeat 255 16)).
    change (negb true || negb (3 =? String.length "128")%nat || (128 <? 0)
            || (8 * Z.of_nat net.IPv6len <? 128)) with false.
    cbv iota. unfold net.Mask. rewrite Hlen, repeat_length.
    simpl. rewrite Hlen. simpl.
    pose proof (mask_all_ones ip Hip) as Hm. rewrite Hlen in Hm. simpl in Hm.
    rewrite Hm. reflexivity.
Qed.

(** A network of the other family contains no address. *)
Lemma Contains_other_family (n : net.IPNet) (ip ip' : net.IP) :
  (match net.To4 ip with Some x => x | None => ip end) = ip' ->
  List.length ip' <> List.length (fst (net.networkNumberAndMask n)) ->
  net.Contains n ip = false.
Proof.
  intros Hip Hlen. unfold net.Contains.
  destruct (net.networkNumberAndMask n) as [nn m]. rewrite Hip. simpl in Hlen.
  apply Nat.eqb_neq in Hlen. rewrite Hlen. reflexivity.
Qed.

Lemma no_v6_net_contains_v4 (a b c d : Z) :
  existsb (fun n => net.Contains n (net.IPv4 a b c d)) helpers.NotScannableNetsIPV6
  = false.
Proof.
  assert (H : forallb (fun n => (List.length (fst (net.networkNumberAndMask n)) =? 16)%nat)
                      helpers.NotScannableNetsIPV6 = true) by (vm_compute; reflexivity).
  rewrite forallb_forall in H.
  destruct (existsb _ helpers.NotScannableNetsIPV6) eqn:He; [| reflexivity].
  apply existsb_exists in He. destruct He as (n & Hin & Hc).
  rewrite (Contains_other_family n _ [a; b; c; d]) in Hc; [discriminate Hc | reflexivity |].
  apply H in Hin. apply Nat.eqb_eq in Hin. rewrite Hin. discriminate.
Qed.

Lemma no_v4_net_contains_v6 (ip : net.IP) :
  List.length ip = 16%nat -> net.To4 ip = None ->
  existsb (fun n => net.Contains n ip) helpers.NotScannableNetsIPV4 = false.
Proof.
  intros Hlen H4.
  assert (H : forallb (fun n => (List.length (fst (net.networkNumberAndMask n)) =? 4)%nat)
                      helpers.NotScannableNetsIPV4 = true) by (vm_compute; reflexivity).
  rewrite forallb_forall in H.
  destruct (existsb _ helpers.NotScannableNetsIPV4) eqn:He; [| reflexivity].
  apply existsb_exists in He. destruct He as (n & Hin & Hc).
  rewrite (Contains_other_family n ip ip) in Hc; [discriminate Hc | rewrite H4; reflexivity |].
  apply H in Hin. apply Nat.eqb_eq in Hin. rewrite Hin, Hlen. discriminate.
Qed.

(** Where the classifier is right: for a dotted quad, and for an IPv6
    literal written without a dot that is not an IPv4-mapped address,
    [IsScannable] is false exactly when a listed network contains the
    address. *)
Lemma IsScannable_plain_literal (P : Platform) (s : string) (ip : net.IP) :
  net.ParseIP s = Some ip ->
  net.parseIPv4 s = Some ip \/
  (strings_Contains s "." = false /\ net.To4 ip = None) ->
  helpers.IsScannable P s = negb (in_reserved ip).
Proof.
  intros Hparse Hform. unfold helpers.IsScannable, helpers.IsIP.
  cbn [helpers.Value]. rewrite Hparse. cbn [orb].
  unfold in_reserved. rewrite existsb_app.
  unfold helpers.isAllowed. rewrite !strings_Contains_char.
  destruct Hform as [H4 | [Hdot Hmapped]].
  - destruct (parseIPv4_spec s ip H4) as (Hd & Hslash & _ & _).
    rewrite Hd, Hslash. cbn [negb].
    destruct (ParseCIDR_bare_v4 s ip H4) as (a & b & c & d & -> & Hcidr).
    rewrite Hcidr. cbn [net.net_IP].
    rewrite no_v6_net_contains_v4, orb_false_r.
    change (existsb (fun n => net.Contains n (net.IPv4 a b c d))
                    helpers.NotScannableNetsIPV4)
      with (existsb (fun n => net.Contains n [a; b; c; d])
                    helpers.NotScannableNetsIPV4).
    destruct (existsb _ helpers.NotScannableNetsIPV4); reflexivity.
  - rewrite strings_Contains_char in Hdot. rewrite Hdot.
    unfold net.ParseIP in Hparse.
    pose proof (ParseIP_scan_no_dot s s ip Hdot Hparse) as H6.
    destruct (parseIPv6_spec s ip H6) as (Hlen & _ & Hslash).
    rewrite Hslash. cbn [negb].
    rewrite (ParseCIDR_bare_v6 s ip H6 Hdot). cbn [net.net_IP].
    rewrite (no_v4_net_contains_v6 ip Hlen Hmapped). cbn [orb].
    destruct (existsb _ helpers.NotScannableNetsIPV6); reflexivity.
Qed.

(** The boundary run of the specification: the first and the last address
    of every listed range are not scannable, their neighbours outside are. *)
Example reserved_range_boundaries (P : Platform) :
  forallb (fun s => negb (helpers.IsScannable P s)) range_ends = true /\
  forallb (helpers.IsScannable P) range_neighbours = true.
Proof. split; vm_compute; reflexivity. Qed.

(** C7 at an IPv6 literal with a dotted tail: [fe80::1.2.3.4] is an IP
    literal inside the listed range fe80::/10, and [::ffff:127.0.0.1] is
    one inside 127.0.0.0/8, yet [IsScannable] returns true for both: the
    dot selects the IPv4 registry and the prefix length 32, which leaves
    the first four bytes of a 16-byte address. *)
Theorem IsScannable_dotted_ipv6 (P : Platform) :
  (exists ip, net.ParseIP "fe80::1.2.3.4" = Some ip /\ in_reserved ip = true) /\
  helpers.IsScannable P "fe80::1.2.3.4" = true /\
  (exists ip, net.ParseIP "::ffff:127.0.0.1" = Some ip /\ in_reserved ip = true) /\
  helpers.IsScannable P "::ffff:127.0.0.1" = true.
Proof.
  split; [| split; [| split]].
  - eexists. split; [vm_compute; reflexivity | vm_compute; reflexivity].
  - vm_compute. reflexivity.
  - eexists. split; [vm_compute; reflexivity | vm_compute; reflexivity].
  - vm_compute. reflexivity.
Qed.

(** The same addresses written without a dot: the IPv6 registry stops the
    first, and the IPv4-mapped one gets through in this form too. *)
Example IsScannable_undotted_forms (P : Platform) :
  helpers.IsScannable P "fe80::102:304" = false /\
  helpers.IsScannable P "::ffff:7f00:1" = true.
Proof. split; vm_compute; reflexivity. Qed.

(** ** The push transport: one delivery *)

(** C2 at a failed delivery: on a transport error and on a status other
    than 200, [sendPushMsg] writes the error to the log, [retry] does
    nothing and the call returns; the sender goes on with the next message
    and leaves its loop at shutdown.  The sibling pusher panics on the same
    answers. *)
Theorem sendPushMsg_failure_is_not_fatal :
  (forall err, rest.sendPushMsg (rest.TransportError err)
     = ([mk_LogEntry ErrorLevel "Error sending message to agent"], Returns)) /\
  rest.sendPushMsg (rest.HTTPStatus 500)
    = ([mk_LogEntry ErrorLevel "Error sending message to agent"], Returns) /\
  (let s := rest.exec collector_down
              (repeat rest.TProducer 4 ++ repeat rest.TSender 5 ++ [rest.TProducer])
              (rest.NewRestPusher (rest.mk_RestPusherConfig "agent:80" 0) "id"
                 ["first"; "second"]) in
   map rest.msg (rest.requests s) = ["first"; "second"] /\
   rest.sender s = rest.SExited /\
   rest.producer s = rest.PReturned) /\
  (forall err, simplemq.UpdateState (rest.TransportError err) = Panics (Error err)).
Proof.
  split; [| split; [| split]].
  - reflexivity.
  - reflexivity.
  - vm_compute. repeat split.
  - reflexivity.
Qed.

(** ** The process harness *)

Section HarnessFacts.

Variable checker_state : Type.
Variable ProcessOutputChunk : checker_state -> string -> checker_state * bool.
Variable env : process.Run_env.
Variable c0 : checker_state.


Lemma harness_inv_init : process.inv ProcessOutputChunk env c0 (process.init c0).
Proof. repeat split. Qed.

Ltac harness_crush :=
  simpl in *;
  repeat (match goal with
          | H : _ /\ _ |- _ => destruct H
          | H : Some _ = Some _ |- _ => inversion H; subst; clear H
          | H : None = Some _ |- _ => discriminate H
          | H : _ \/ _ |- _ => destruct H
          | H : process.AtScan _ = _ |- _ => discriminate H
          | H : process.AtChunk _ _ = _ |- _ => discriminate H
          | H : process.AtSend = _ |- _ => discriminate H
          | H : ?x <> ?x |- _ => contradiction H; reflexivity
          | |- _ /\ _ => split
          | |- _ <> _ => discriminate
          end; simpl in *);
  subst; auto; try congruence.

Lemma harness_inv_step (t : process.tid) (s s' : process.Sys checker_state) :
  process.inv ProcessOutputChunk env c0 s ->
  process.step ProcessOutputChunk env t s = Some s' ->
  process.inv ProcessOutputChunk env c0 s'.
Proof.
  unfold process.inv. destruct s as [pa rd cx ck dl]. intros [Hd Hp] Hstep.
  destruct t; simpl in *.
  - (* Run *)
    unfold process.parent_step in Hstep; simpl in Hstep.
    destruct pa; simpl in *.
    + subst rd. destruct Hd as [-> ->].
      destruct (process.StdoutPipe_err env);
        [| destruct (process.StderrPipe_err env)]; harness_crush.
    + harness_crush.
    + harness_crush.
    + destruct rd; harness_crush.
    + harness_crush.
    + discriminate Hstep.
  - (* the reader *)
    unfold process.reader_step in Hstep; simpl in Hstep.
    destruct rd as [| rest | payload rest | |]; simpl in *.
    + discriminate Hstep.
    + destruct rest as [| payload rest]; inversion Hstep; subst; clear Hstep; simpl.
      * split; [exists []; exact Hd |]. destruct pa; harness_crush.
      * split; [exact Hd |]. destruct pa; harness_crush.
    + destruct cx.
      * inversion Hstep; subst; clear Hstep; simpl.
        split; [eexists; exact Hd |]. destruct pa; harness_crush.
      * destruct (ProcessOutputChunk ck payload) as [c' cont] eqn:Hc.
        inversion Hstep; subst; clear Hstep; simpl.
        destruct cont; simpl.
        -- split; [rewrite <- app_assoc; exact Hd |]. destruct pa; harness_crush.
        -- split; [exists []; rewrite app_nil_r; exact Hd |]. destruct pa; harness_crush.
    + destruct pa; harness_crush.
    + discriminate Hstep.
  - (* cancellation *)
    inversion Hstep; subst; clear Hstep; simpl. split; assumption.
Qed.

Lemma harness_inv_exec (sched : list process.tid) (s : process.Sys checker_state) :
  process.inv ProcessOutputChunk env c0 s ->
  process.inv ProcessOutputChunk env c0 (process.exec ProcessOutputChunk env sched s).
Proof.
  revert s. induction sched as [| t sched IH]; intros s Hs; simpl; [exact Hs |].
  destruct (process.step ProcessOutputChunk env t s) as [s' |] eqn:Hstep.
  - apply IH. eapply harness_inv_step; eassumption.
  - apply IH. exact Hs.
Qed.

Lemma harness_inv_prefix (s : process.Sys checker_state) :
  process.inv ProcessOutputChunk env c0 s ->
  exists tail,
    process.feed ProcessOutputChunk c0 (process.stdout_chunks env)
    = process.delivered s ++ tail.
Proof.
  intros [Hd _]. destruct (process.reader s); try (eexists; exact Hd); auto.
  destruct Hd as [-> _]. eexists; reflexivity.
Qed.

(** In a feed only the last answer can be [false]. *)
Lemma feed_false_is_last (chunks : list string) :
  forall (c : checker_state) pre x post,
    process.feed ProcessOutputChunk c chunks = pre ++ (x, false) :: post ->
    post = [].
Proof.
  induction chunks as [| payload rest IH]; intros c pre x post H; simpl in H.
  - destruct pre; discriminate H.
  - destruct (ProcessOutputChunk c payload) as [c' cont].
    destruct pre as [| y pre]; simpl in H.
    + inversion H; subst. reflexivity.
    + inversion H as [[Hy Hrest]]. destruct cont.
      * eapply IH. exact Hrest.
      * destruct pre; discriminate Hrest.
Qed.

(** The chunks of a feed are the first chunks of the output. *)
Lemma feed_chunks_prefix (chunks : list string) :
  forall (c : checker_state),
    exists later,
      chunks = map fst (process.feed ProcessOutputChunk c chunks) ++ later.
Proof.
  induction chunks as [| payload rest IH]; intros c; simpl.
  - exists []. reflexivity.
  - destruct (ProcessOutputChunk c payload) as [c' cont]. destruct cont; simpl.
    + destruct (IH c') as [later Hl]. exists later. rewrite <- Hl. reflexivity.
    + exists rest. reflexivity.
Qed.

(** Once [Run] has returned nothing moves but the cancellation flag. *)
Lemma returned_is_final (sched : list process.tid) (s : process.Sys checker_state) :
  process.has_returned (process.parent s) = true ->
  process.reader s = process.NotSpawned \/ process.reader s = process.Exited ->
  process.delivered (process.exec ProcessOutputChunk env sched s) = process.delivered s /\
  process.reader (process.exec ProcessOutputChunk env sched s) = process.reader s.
Proof.
  revert s. induction sched as [| t sched IH]; intros s Hp Hr; simpl; [auto |].
  destruct s as [pa rd cx ck dl]; simpl in *.
  destruct pa; try discriminate Hp.
  destruct t; simpl.
  - apply IH; assumption.
  - unfold process.reader_step; simpl.
    destruct Hr as [-> | ->]; simpl; apply IH; simpl; auto.
  - destruct (IH (process.mk_Sys (process.Returned err) rd true ck dl) Hp Hr)
      as [H1 H2].
    simpl in *. auto.
Qed.

(** Every move of [Run] or of the reader uses up the measure. *)
Lemma harness_step_measure (t : process.tid) (s s' : process.Sys checker_state) :
  process.inv ProcessOutputChunk env c0 s ->
  t <> process.TCancel ->
  process.step ProcessOutputChunk env t s = Some s' ->
  (process.measure env s' < process.measure env s)%nat.
Proof.
  unfold process.inv, process.measure. destruct s as [pa rd cx ck dl].
  intros [Hd Hp] Ht Hstep. destruct t; [| | contradiction Ht; reflexivity];
    simpl in *.
  - unfold process.parent_step in Hstep; simpl in Hstep.
    destruct pa; simpl in *.
    + subst rd.
      destruct (process.StdoutPipe_err env);
        [| destruct (process.StderrPipe_err env)];
        inversion Hstep; subst; simpl; lia.
    + inversion Hstep; subst; simpl; lia.
    + inversion Hstep; subst; simpl; lia.
    + destruct rd; inversion Hstep; subst; simpl; lia.
    + inversion Hstep; subst; simpl. lia.
    + discriminate Hstep.
  - unfold process.reader_step in Hstep; simpl in Hstep.
    destruct rd as [| rest | payload rest | |]; simpl in *.
    + discriminate Hstep.
    + destruct rest; inversion Hstep; subst; simpl; lia.
    + destruct cx; [inversion Hstep; subst; simpl; lia |].
      destruct (ProcessOutputChunk ck payload) as [c' cont].
      inversion Hstep; subst; simpl. destruct cont; simpl; lia.
    + destruct pa; inversion Hstep; subst; simpl; lia.
    + discriminate Hstep.
Qed.

(** Until [Run] has returned, [Run] or the reader can move. *)
Lemma harness_progress (s : process.Sys checker_state) :
  process.inv ProcessOutputChunk env c0 s ->
  process.has_returned (process.parent s) = false ->
  exists t s',
    t <> process.TCancel /\ process.step ProcessOutputChunk env t s = Some s'.
Proof.
  unfold process.inv. destruct s as [pa rd cx ck dl]. intros [Hd Hp] Hnot.
  simpl in *. destruct pa; simpl in *; try discriminate Hnot.
  - exists process.TRun. unfold process.step, process.parent_step. simpl.
    destruct (process.StdoutPipe_err env);
      [| destruct (process.StderrPipe_err env)];
      eexists; (split; [discriminate | reflexivity]).
  - exists process.TRun. eexists. split; [discriminate | reflexivity].
  - exists process.TRun. eexists. split; [discriminate | reflexivity].
  - destruct Hp as [Hns Hne].
    destruct rd as [| rest | payload rest | |];
      try (contradiction Hns; reflexivity); try (contradiction Hne; reflexivity).
    + exists process.TReader. unfold process.step, process.reader_step. simpl.
      destruct rest; eexists; (split; [discriminate | reflexivity]).
    + exists process.TReader. unfold process.step, process.reader_step. simpl.
      destruct cx; [eexists; split; [discriminate | reflexivity] |].
      destruct (ProcessOutputChunk ck payload) as [c' cont].
      eexists. split; [discriminate | reflexivity].
    + exists process.TRun. eexists. split; [discriminate | reflexivity].
  - exists process.TRun. eexists. split; [discriminate | reflexivity].
Qed.

(** In the model the waits of [Run] for the process (reading its standard
    error to the end, [cmd.Wait()]) are moves like any other, so from every
    state of a run some schedule lets [Run] return. *)
Lemma harness_returns (n : nat) :
  forall s : process.Sys checker_state,
    (process.measure env s < n)%nat ->
    process.inv ProcessOutputChunk env c0 s ->
    exists sched,
      process.has_returned (process.parent (process.exec ProcessOutputChunk env sched s))
      = true.
Proof.
  induction n as [| n IH]; intros s Hm Hinv; [lia |].
  destruct (process.has_returned (process.parent s)) eqn:Hret.
  - exists []. exact Hret.
  - destruct (harness_progress s Hinv Hret) as (t & s' & Ht & Hstep).
    pose proof (harness_step_measure t s s' Hinv Ht Hstep) as Hlt.
    pose proof (harness_inv_step t s s' Hinv Hstep) as Hinv'.
    destruct (IH s') as [sched Hsched]; [lia | exact Hinv' |].
    exists (t :: sched). simpl. rewrite Hstep. exact Hsched.
Qed.

(** C6.  In every execution of the harness, under every schedule of [Run],
    the reader and the cancellation: the chunks handed to the processor are
    the first chunks of the output, with the answers the processor gives
    when it is given them in order; after a chunk answered [false] no chunk
    is handed over; and when [Run] has returned the reader has stopped
    reading, and no chunk is handed over from then on. *)
Theorem harness_stops_reading (sched : list process.tid) :
  let s := process.exec ProcessOutputChunk env sched (process.init c0) in
  (exists tail,
      process.feed ProcessOutputChunk c0 (process.stdout_chunks env)
      = process.delivered s ++ tail) /\
  (exists later,
      process.stdout_chunks env = map fst (process.delivered s) ++ later) /\
  (forall pre x post,
      process.delivered s = pre ++ (x, false) :: post -> post = []) /\
  (process.has_returned (process.parent s) = true ->
   process.reading_stopped (process.reader s) = true /\
   forall sched',
     process.delivered (process.exec ProcessOutputChunk env sched' s)
     = process.delivered s).
Proof.
  intros s.
  assert (Hinv : process.inv ProcessOutputChunk env c0 s)
    by (apply harness_inv_exec, harness_inv_init).
  destruct (harness_inv_prefix s Hinv) as [tail Htail].
  split; [exists tail; exact Htail |]. split; [| split].
  - destruct (feed_chunks_prefix (process.stdout_chunks env) c0) as [later Hl].
    rewrite Htail, map_app, <- app_assoc in Hl.
    eexists. exact Hl.
  - intros pre x post Hd. rewrite Hd in Htail.
    rewrite <- app_assoc in Htail. simpl in Htail.
    apply feed_false_is_last in Htail.
    destruct post; [reflexivity | discriminate Htail].
  - intros Hret. destruct Hinv as [_ Hp].
    destruct (process.parent s) eqn:Hpa; try discriminate Hret.
    split.
    + destruct Hp as [-> | ->]; reflexivity.
    + intros sched'. apply returned_is_final; [rewrite Hpa; reflexivity | exact Hp].
Qed.

End HarnessFacts.

Lemma harness_stops_reading_witness :
  let s := process.exec (process.stop_at "DONE") three_lines reader_first
             (process.init []) in
  process.parent s = process.Returned None /\
  process.reading_stopped (process.reader s) = true /\
  process.delivered s = [("scanning", true); ("DONE", false)] /\
  process.checker s = ["scanning"; "DONE"].
Proof.
  pose proof (harness_stops_reading (list string) (process.stop_at "DONE")
                three_lines [] reader_first) as H.
  destruct H as (_ & _ & _ & Hret).
  split; [reflexivity |].
  split; [apply Hret; reflexivity |].
  split; reflexivity.
Defined.

(** Cancelled before the first chunk is looked at, the reader hands over
    nothing. *)
Example harness_cancelled_early :
  let s := process.exec (process.stop_at "DONE") three_lines
             ([process.TRun; process.TCancel] ++ repeat process.TReader 3
              ++ repeat process.TRun 4)
             (process.init []) in
  process.parent s = process.Returned None /\ process.delivered s = [].
Proof. split; reflexivity. Qed.

(** ** The push transport: the queue *)

Lemma sendPushMsg_returns (resp : rest.Response) :
  snd (rest.sendPushMsg resp) = Returns.
Proof.
  destruct resp as [err | code]; simpl; [reflexivity |].
  destruct (negb (code =? rest.StatusOK)); reflexivity.
Qed.

Section TransportFacts.

Variable payload : Type.
Variable collector : nat -> rest.pusherMsg payload -> rest.Response.
Variable all : list payload.

Lemma transport_inv_init (config : rest.RestPusherConfig) (checkID : string) :
  0 <= rest.BufferLen config ->
  rest.inv all (rest.NewRestPusher config checkID all).
Proof.
  intros Hlen. unfold rest.inv, rest.NewRestPusher, rest.pipeline. simpl.
  repeat split; try discriminate; auto with arith.
  destruct (rest.BufferLen config =? 0) eqn:H0.
  - vm_compute. auto with arith.
  - apply Z.eqb_neq in H0. lia.
Qed.

Ltac transport_crush :=
  repeat split; intros; simpl in *;
  repeat match goal with
         | Hx : ?a = rest.SExited -> _, H : ?a = rest.SExited |- _ =>
             destruct (Hx H); clear Hx
         | Hx : rest.SExited = rest.SExited -> _ |- _ =>
             destruct (Hx eq_refl); clear Hx
         | Hr : ?p = rest.PReturned -> _, H : ?p = rest.PReturned |- _ =>
             specialize (Hr H)
         end;
  subst; simpl in *;
  try solve [ auto | discriminate | lia | congruence ].

Lemma transport_inv_producer_step (s s' : rest.Sys payload) :
  rest.inv all s ->
  rest.producer_step s = Some s' ->
  rest.inv all s' /\ (rest.measure s' < rest.measure s)%nat.
Proof.
  unfold rest.inv, rest.measure, rest.pipeline, rest.producer_step, rest.try_send.
  destruct s as [cid buf cap cl fin pr sd rq lg]; simpl.
  intros (Hpipe & Hlen & Hcap & Hcl & Hfin & Hex & Hret & Hpan) Hstep.
  destruct pr as [[| st todo] | m todo | |]; simpl in *.
  - (* Shutdown: close *)
    inversion Hstep; subst; clear Hstep. transport_crush.
  - (* UpdateState *)
    destruct (List.length buf <? cap)%nat eqn:Hroom;
      inversion Hstep; subst; clear Hstep.
    + apply Nat.ltb_lt in Hroom. simpl.
      rewrite map_app, length_app. transport_crush.
      rewrite <- !app_assoc. reflexivity.
    + transport_crush.
  - (* the blocking send *)
    destruct (List.length buf <? cap)%nat eqn:Hroom; [| discriminate Hstep].
    inversion Hstep; subst; clear Hstep.
    apply Nat.ltb_lt in Hroom. simpl. rewrite map_app, length_app.
    transport_crush.
    rewrite <- !app_assoc. reflexivity.
  - (* Shutdown: the wait *)
    destruct fin; [| discriminate Hstep].
    inversion Hstep; subst; clear Hstep. transport_crush.
    destruct sd; try discriminate. reflexivity.
  - discriminate Hstep.
Qed.

Lemma transport_inv_sender_step (s s' : rest.Sys payload) :
  rest.inv all s ->
  rest.sender_step collector s = Some s' ->
  rest.inv all s' /\ (rest.measure s' < rest.measure s)%nat.
Proof.
  unfold rest.inv, rest.measure, rest.pipeline, rest.sender_step.
  destruct s as [cid buf cap cl fin pr sd rq lg]; simpl.
  intros (Hpipe & Hlen & Hcap & Hcl & Hfin & Hex & Hret & Hpan) Hstep.
  destruct sd as [| m | | r]; simpl in *.
  - destruct buf as [| m buf].
    + (* the channel is closed and drained *)
      destruct cl; [| discriminate Hstep].
      inversion Hstep; subst; clear Hstep. transport_crush.
    + (* receive *)
      inversion Hstep; subst; clear Hstep. transport_crush.
  - (* the request *)
    pose proof (sendPushMsg_returns (collector (List.length rq) m)) as Hout.
    destruct (rest.sendPushMsg (collector (List.length rq) m)) as [l out].
    simpl in Hout. subst out.
    inversion Hstep; subst; clear Hstep. simpl.
    rewrite map_app. transport_crush.
    rewrite <- !app_assoc. reflexivity.
  - discriminate Hstep.
  - discriminate Hstep.
Qed.

Lemma transport_inv_step (t : rest.tid) (s s' : rest.Sys payload) :
  rest.inv all s ->
  rest.step collector t s = Some s' ->
  rest.inv all s' /\ (rest.measure s' < rest.measure s)%nat.
Proof.
  intros Hinv Hstep. unfold rest.step in Hstep.
  destruct (rest.sender s) eqn:Hsd; try discriminate Hstep;
    destruct t;
    solve [ apply transport_inv_producer_step; assumption
          | apply transport_inv_sender_step; assumption ].
Qed.

Lemma transport_inv_exec (sched : list rest.tid) (s : rest.Sys payload) :
  rest.inv all s -> rest.inv all (rest.exec collector sched s).
Proof.
  revert s. induction sched as [| t sched IH]; intros s Hs; simpl; [exact Hs |].
  destruct (rest.step collector t s) as [s' |] eqn:Hstep.
  - apply IH. eapply transport_inv_step; eassumption.
  - apply IH. exact Hs.
Qed.

(** No deadlock: until [Shutdown] has returned some goroutine can move. *)
Lemma transport_progress (s : rest.Sys payload) :
  rest.inv all s ->
  rest.producer s <> rest.PReturned ->
  exists t s', rest.step collector t s = Some s'.
Proof.
  unfold rest.inv, rest.step, rest.producer_step, rest.sender_step, rest.try_send.
  destruct s as [cid buf cap cl fin pr sd rq lg]; simpl.
  intros (Hpipe & Hlen & Hcap & Hcl & Hfin & Hex & Hret & Hpan) Hnot.
  destruct sd as [| m | | r]; simpl in *.
  - destruct buf as [| m buf].
    + destruct pr as [[| st todo] | m todo | |]; simpl in *.
      * exists rest.TProducer. eexists. reflexivity.
      * exists rest.TProducer.
        destruct (0 <? cap)%nat; eexists; reflexivity.
      * exists rest.TProducer.
        destruct (0 <? cap)%nat eqn:Hc; [eexists; reflexivity |].
        apply Nat.ltb_ge in Hc. lia.
      * exists rest.TSender. subst cl. eexists. reflexivity.
      * contradiction Hnot. reflexivity.
    + exists rest.TSender. eexists. reflexivity.
  - exists rest.TSender.
    destruct (rest.sendPushMsg (collector (List.length rq) m)) as [l out].
    eexists. reflexivity.
  - destruct (Hex eq_refl) as [-> ->].
    destruct pr as [[| st todo] | m todo | |]; simpl in *; try discriminate Hcl.
    + exists rest.TProducer. subst fin. eexists. reflexivity.
    + contradiction Hnot. reflexivity.
  - exfalso. apply (Hpan r). reflexivity.
Qed.

(** So from every such state some schedule brings [Shutdown] to return. *)
Lemma transport_completes (n : nat) :
  forall s : rest.Sys payload,
    (rest.measure s < n)%nat ->
    rest.inv all s ->
    exists sched, rest.producer (rest.exec collector sched s) = rest.PReturned.
Proof.
  induction n as [| n IH]; intros s Hm Hinv; [lia |].
  destruct (rest.producer s) eqn:Hpr.
  1-3: destruct (transport_progress s Hinv) as (t & s' & Hstep);
       [rewrite Hpr; discriminate |];
       destruct (transport_inv_step t s s' Hinv Hstep) as [Hinv' Hlt];
       destruct (IH s') as [sched Hsched]; [lia | exact Hinv' |];
       exists (t :: sched); simpl; rewrite Hstep; exact Hsched.
  exists []. exact Hpr.
Qed.

(** The [select] of [UpdateState]: with room in the buffer the message is
    queued at once and nothing is logged above debug level; with a full
    buffer the warning is logged and the caller stands at the blocking
    send, which goes through as soon as there is room. *)
Lemma UpdateState_select (s : rest.Sys payload) (st : payload) (todo : list payload) :
  rest.producer s = rest.PCalling (st :: todo) ->
  exists s',
    rest.producer_step s = Some s' /\
    let m := rest.mk_pusherMsg (rest.checkID s) st in
    (((List.length (rest.msgsToSend s) < rest.chan_cap s)%nat /\
      rest.msgsToSend s' = rest.msgsToSend s ++ [m] /\
      rest.producer s' = rest.PCalling todo /\
      rest.warnings (rest.logger s') = rest.warnings (rest.logger s))
     \/
     ((rest.chan_cap s <= List.length (rest.msgsToSend s))%nat /\
      rest.msgsToSend s' = rest.msgsToSend s /\
      rest.producer s' = rest.PBlocked m todo /\
      rest.warnings (rest.logger s') = S (rest.warnings (rest.logger s)))).
Proof.
  intros Hpr. unfold rest.producer_step, rest.try_send. rewrite Hpr.
  destruct (List.length (rest.msgsToSend s) <? rest.chan_cap s)%nat eqn:Hroom.
  - eexists. split; [reflexivity |]. left. apply Nat.ltb_lt in Hroom.
    simpl. unfold rest.warnings. rewrite filter_app, length_app. simpl.
    repeat split; auto with arith.
  - eexists. split; [reflexivity |]. right. apply Nat.ltb_ge in Hroom.
    simpl. unfold rest.warnings. rewrite filter_app, length_app. simpl.
    repeat split; auto with arith; lia.
Qed.

Lemma blocking_send (s : rest.Sys payload) (m : rest.pusherMsg payload)
    (todo : list payload) :
  rest.producer s = rest.PBlocked m todo ->
  match rest.producer_step s with
  | Some s' =>
      (List.length (rest.msgsToSend s) < rest.chan_cap s)%nat /\
      rest.msgsToSend s' = rest.msgsToSend s ++ [m] /\
      rest.producer s' = rest.PCalling todo
  | None => (rest.chan_cap s <= List.length (rest.msgsToSend s))%nat
  end.
Proof.
  intros Hpr. unfold rest.producer_step. rewrite Hpr.
  destruct (List.length (rest.msgsToSend s) <? rest.chan_cap s)%nat eqn:Hroom.
  - apply Nat.ltb_lt in Hroom. simpl. auto.
  - apply Nat.ltb_ge in Hroom. exact Hroom.
Qed.

(** C9.  A caller pushes the states [all] and shuts down, against a buffer
    of the configured length (10 when the configuration says 0).  Under
    every schedule of the caller and the sender: the buffer stays within
    its capacity; the requests issued, the message being sent, the buffer
    and what the caller still holds are, in this order, the states pushed,
    so nothing is dropped and the collector is asked in submission order;
    a call of [UpdateState] queues at once when there is room and
    otherwise logs the warning and blocks until there is room; when
    [Shutdown] has returned the channel is closed, the sender has exited
    and every state has been sent; and [Shutdown] can always still come to
    return. *)
Theorem transport_is_fifo_and_drains (config : rest.RestPusherConfig)
    (checkID : string) (sched : list rest.tid) :
  0 <= rest.BufferLen config ->
  let s := rest.exec collector sched (rest.NewRestPusher config checkID all) in
  rest.chan_cap s
    = Z.to_nat (if rest.BufferLen config =? 0 then 10 else rest.BufferLen config) /\
  (List.length (rest.msgsToSend s) <= rest.chan_cap s)%nat /\
  rest.pipeline s = all /\
  (forall st todo,
      rest.producer s = rest.PCalling (st :: todo) ->
      exists s',
        rest.producer_step s = Some s' /\
        let m := rest.mk_pusherMsg (rest.checkID s) st in
        (((List.length (rest.msgsToSend s) < rest.chan_cap s)%nat /\
          rest.msgsToSend s' = rest.msgsToSend s ++ [m] /\
          rest.producer s' = rest.PCalling todo /\
          rest.warnings (rest.logger s') = rest.warnings (rest.logger s))
         \/
         ((rest.chan_cap s <= List.length (rest.msgsToSend s))%nat /\
          rest.msgsToSend s' = rest.msgsToSend s /\
          rest.producer s' = rest.PBlocked m todo /\
          rest.warnings (rest.logger s') = S (rest.warnings (rest.logger s))))) /\
  (forall m todo,
      rest.producer s = rest.PBlocked m todo ->
      match rest.producer_step s with
      | Some s' =>
          (List.length (rest.msgsToSend s) < rest.chan_cap s)%nat /\
          rest.msgsToSend s' = rest.msgsToSend s ++ [m] /\
          rest.producer s' = rest.PCalling todo
      | None => (rest.chan_cap s <= List.length (rest.msgsToSend s))%nat
      end) /\
  (rest.producer s = rest.PReturned ->
   rest.closed s = true /\ rest.sender s = rest.SExited /\
   rest.msgsToSend s = [] /\ map rest.msg (rest.requests s) = all) /\
  (exists sched', rest.producer (rest.exec collector sched' s) = rest.PReturned).
Proof.
  intros Hlen s.
  assert (Hinv : rest.inv all s)
    by (apply transport_inv_exec, transport_inv_init; exact Hlen).
  assert (Hcap : forall sched0 s0, rest.chan_cap (rest.exec collector sched0 s0)
                                   = rest.chan_cap s0).
  { induction sched0 as [| t sched0 IH]; intros s0; simpl; [reflexivity |].
    destruct (rest.step collector t s0) as [s1 |] eqn:Hstep; [| apply IH].
    rewrite IH. unfold rest.step in Hstep.
    destruct (rest.sender s0); try discriminate Hstep; destruct t;
      unfold rest.producer_step, rest.sender_step, rest.try_send in Hstep;
      repeat match type of Hstep with
             | context [match ?x with _ => _ end] => destruct x
             end;
      inversion Hstep; reflexivity. }
  split; [unfold s; rewrite Hcap; reflexivity |].
  destruct Hinv as (Hpipe & Hbound & Hc1 & Hcl & Hfin & Hex & Hret & Hpan).
  split; [exact Hbound |]. split; [exact Hpipe |].
  split; [intros st todo; apply UpdateState_select |].
  split; [intros m todo; apply blocking_send |].
  split.
  - intros Hdone. pose proof (Hret Hdone) as Hsd.
    destruct (Hex Hsd) as [Hbuf Hclosed].
    repeat split; auto.
    unfold rest.pipeline in Hpipe. rewrite Hdone, Hsd, Hbuf in Hpipe.
    simpl in Hpipe. rewrite app_nil_r in Hpipe. exact Hpipe.
  - apply (transport_completes (S (rest.measure s))); [lia |].
    unfold rest.inv. auto 10.
Qed.

End TransportFacts.

Lemma transport_is_fifo_and_drains_witness :
  let s := rest.exec collector_ok pressed (rest.NewRestPusher config2 "id" four_states) in
  rest.producer s = rest.PReturned /\
  map rest.msg (rest.requests s) = four_states /\
  rest.sender s = rest.SExited /\
  rest.warnings (rest.logger s) = 1%nat.
Proof.
  pose proof (transport_is_fifo_and_drains string collector_ok four_states
                config2 "id" pressed ltac:(simpl; lia)) as H.
  destruct H as (_ & _ & _ & _ & _ & Hret & _).
  assert (Hdone : rest.producer
                    (rest.exec collector_ok pressed
                       (rest.NewRestPusher config2 "id" four_states))
                  = rest.PReturned) by reflexivity.
  destruct (Hret Hdone) as (_ & Hsd & _ & Hreq).
  split; [exact Hdone |]. split; [exact Hreq |]. split; [exact Hsd | reflexivity].
Defined.

(** With the default buffer of ten, eleven pushes in a row meet the full
    buffer once, and the eleventh waits for the sender. *)
Example eleventh_push_blocks :
  let eleven := map (fun n => String (ascii_of_nat (65 + n)) EmptyString) (seq 0 11) in
  let s := rest.exec collector_ok (repeat rest.TProducer 12)
             (rest.NewRestPusher (rest.mk_RestPusherConfig "agent:80" 0) "id" eleven) in
  rest.chan_cap s = 10%nat /\
  List.length (rest.msgsToSend s) = 10%nat /\
  rest.producer s = rest.PBlocked (rest.mk_pusherMsg "id" "K") [] /\
  rest.warnings (rest.logger s) = 1%nat /\
  rest.producer_step s = None.
Proof. vm_compute. repeat split. Qed.

(** * Further properties of the code *)

(** ** The classifier: kinds of target *)

Lemma cut_slash_spec (s addr mask : string) :
  net.cut_slash s = Some (addr, mask) ->
  s = (addr ++ String "/" mask)%string /\ has "/" addr = false.
Proof.
  revert addr mask. induction s as [| c s IH]; intros addr mask H; simpl in H;
    [discriminate H |].
  destruct (Ascii.eqb c "/") eqn:Hc.
  - inversion H; subst. apply Ascii.eqb_eq in Hc. subst c. auto.
  - destruct (net.cut_slash s) as [[a m] |]; [| discriminate H].
    inversion H; subst. destruct (IH a mask eq_refl) as [-> Ha].
    simpl. rewrite Hc. auto.
Qed.

Lemma cut_slash_none (s : string) : has "/" s = false -> net.cut_slash s = None.
Proof.
  induction s as [| c s IH]; simpl; intros H; [reflexivity |].
  apply orb_false_elim in H. destruct H as [Hc Hs]. rewrite Hc, (IH Hs). reflexivity.
Qed.

Lemma ParseIP_scan_cases (w : string) :
  forall s ip, net.ParseIP_scan s w = Some ip ->
               net.parseIPv4 w = Some ip \/ net.parseIPv6 w = Some ip.
Proof.
  induction s as [| c s IH]; simpl; intros ip H; [discriminate H |].
  destruct (Ascii.eqb c "."); [auto |]. destruct (Ascii.eqb c ":"); auto.
Qed.

Lemma ParseIP_no_slash (s : string) (ip : net.IP) :
  net.ParseIP s = Some ip -> has "/" s = false.
Proof.
  intros H. destruct (ParseIP_scan_cases s s ip H) as [H4 | H6].
  - apply parseIPv4_spec in H4. tauto.
  - apply parseIPv6_spec in H6. tauto.
Qed.

Lemma ParseCIDR_has_slash (s : string) (r : net.IP * net.IPNet) :
  net.ParseCIDR s = Some r -> has "/" s = true.
Proof.
  unfold net.ParseCIDR. intros H.
  destruct (net.cut_slash s) as [[addr mask] |] eqn:Hc; [| discriminate H].
  apply cut_slash_spec in Hc. destruct Hc as [-> _].
  rewrite has_append. simpl. apply orb_true_r.
Qed.

(** No string is both an IP and a CIDR: an IP literal holds no slash and a
    CIDR needs one. *)
Theorem IsIP_excludes_IsCIDR (t : helpers.Target) :
  helpers.IsIP t && helpers.IsCIDR t = false.
Proof.
  unfold helpers.IsIP, helpers.IsCIDR.
  destruct (net.ParseIP (helpers.Value t)) as [ip |] eqn:Hip; [| reflexivity].
  destruct (net.ParseCIDR (helpers.Value t)) as [r |] eqn:Hc; [| reflexivity].
  apply ParseIP_no_slash in Hip. apply ParseCIDR_has_slash in Hc. congruence.
Qed.

Lemma string_app_assoc (a b c : string) :
  ((a ++ b) ++ c)%string = (a ++ b ++ c)%string.
Proof. induction a as [| x a IH]; simpl; [reflexivity | rewrite IH; reflexivity]. Qed.

Lemma cut_after_spec (sep : ascii) (s a b : string) :
  cut_after sep s = Some (a, b) ->
  exists reg, a = (reg ++ String sep EmptyString)%string /\
              s = (a ++ b)%string /\ has sep reg = false.
Proof.
  revert a b. induction s as [| c s IH]; intros a b H; simpl in H;
    [discriminate H |].
  destruct (Ascii.eqb c sep) eqn:Hc.
  - inversion H; subst. apply Ascii.eqb_eq in Hc. subst c.
    exists EmptyString. auto.
  - destruct (cut_after sep s) as [[a' b'] |]; [| discriminate H].
    inversion H; subst. destruct (IH a' b eq_refl) as (reg & -> & -> & Hreg).
    exists (String c reg). simpl. rewrite Hc. auto.
Qed.

Lemma cut_after_append (sep : ascii) (reg rest : string) :
  has sep reg = false ->
  cut_after sep (reg ++ String sep rest)%string
  = Some ((reg ++ String sep EmptyString)%string, rest).
Proof.
  induction reg as [| c reg IH]; simpl; intros H.
  - rewrite Ascii.eqb_refl. reflexivity.
  - apply orb_false_elim in H. destruct H as [Hc Hr]. rewrite Hc, (IH Hr).
    reflexivity.
Qed.

Lemma cut_after_none (sep : ascii) (s : string) :
  cut_after sep s = None -> has sep s = false.
Proof.
  induction s as [| c s IH]; simpl; intros H; [reflexivity |].
  destruct (Ascii.eqb c sep); [discriminate H |].
  destruct (cut_after sep s) as [[a b] |]; [discriminate H |]. auto.
Qed.

(** [strings.Split] yields one piece more than there are separators. *)
Lemma strings_Split_length (sep : ascii) (s : string) :
  List.length (strings_Split s sep) = S (count_byte sep s).
Proof.
  induction s as [| c s IH]; simpl; [reflexivity |].
  destruct (Ascii.eqb c sep); simpl; [rewrite IH; reflexivity |].
  destruct (strings_Split s sep) as [| piece pieces]; simpl in *; [discriminate IH |].
  exact IH.
Qed.

Lemma count_byte_has (c : ascii) (s : string) :
  has c s = false <-> count_byte c s = O.
Proof.
  induction s as [| b s IH]; simpl; [tauto |].
  destruct (Ascii.eqb b c); simpl; [split; discriminate | exact IH].
Qed.

Lemma has_append_sep (c sep : ascii) (reg : string) :
  has c (reg ++ String sep EmptyString)%string = has c reg || Ascii.eqb sep c.
Proof. rewrite has_append. simpl. rewrite orb_false_r. reflexivity. Qed.

(** The shape of a string [IsDockerImage] accepts. *)
Lemma IsDockerImage_shape (t : helpers.Target) :
  helpers.IsDockerImage t = true ->
  exists registry image,
    helpers.Value t = (registry ++ String "/" image)%string /\
    has "/" registry = false /\
    has "." registry = true /\
    count_byte ":" image = 1%nat.
Proof.
  unfold helpers.IsDockerImage, strings_SplitAfterN2.
  destruct (cut_after "/" (helpers.Value t)) as [[a b] |] eqn:Hcut;
    [| simpl; discriminate].
  apply cut_after_spec in Hcut.
  destruct Hcut as (reg & -> & Hv & Hreg). simpl.
  rewrite strings_Contains_char, has_append_sep. simpl. rewrite orb_false_r.
  destruct (has "." reg) eqn:Hdot; [| discriminate].
  rewrite strings_Split_length.
  destruct (count_byte ":" b) as [| [| n]] eqn:Hcount; simpl; try discriminate.
  intros _. exists reg, b. rewrite Hv, string_app_assoc. auto.
Qed.

(** [IsDockerImage] holds exactly of the strings [registry/image] in which
    the registry, the part before the first slash, holds a dot and the
    rest holds exactly one colon. *)
Theorem IsDockerImage_iff (t : helpers.Target) :
  helpers.IsDockerImage t = true <->
  exists registry image,
    helpers.Value t = (registry ++ String "/" image)%string /\
    has "/" registry = false /\
    has "." registry = true /\
    count_byte ":" image = 1%nat.
Proof.
  split; [apply IsDockerImage_shape |].
  unfold helpers.IsDockerImage, strings_SplitAfterN2.
  - intros (reg & image & Hv & Hreg & Hdot & Hcount).
    rewrite Hv, (cut_after_append "/" reg image Hreg). simpl.
    rewrite strings_Contains_char, has_append_sep, Hdot. simpl.
    rewrite strings_Split_length, Hcount. reflexivity.
Qed.

Lemma drop_all (s : string) : drop (String.length s) s = EmptyString.
Proof. induction s; simpl; auto. Qed.

(** The mask of a CIDR is decimal digits to its end, so it holds no
    colon. *)
Lemma ParseCIDR_mask_digits (s addr mask : string) (r : net.IP * net.IPNet) :
  net.cut_slash s = Some (addr, mask) ->
  net.ParseCIDR s = Some r ->
  has ":" mask = false.
Proof.
  unfold net.ParseCIDR. intros Hc H. rewrite Hc in H.
  destruct (match net.parseIPv4 addr with
            | Some ip => (net.IPv4len, Some ip)
            | None => (net.IPv6len, net.parseIPv6 addr)
            end) as [iplen ip].
  destruct (net.dtoi mask) as [[n i] ok] eqn:Hd.
  destruct ip as [ip |]; [| discriminate H].
  destruct ok; [| discriminate H]. simpl in H.
  destruct (i =? String.length mask)%nat eqn:Hi; [| discriminate H].
  apply Nat.eqb_eq in Hi. subst i.
  destruct (dtoi_from_skips ":"%char eq_refl _ _ _ _ _ Hd) as [_ Hh].
  rewrite Nat.sub_0_r, drop_all in Hh. simpl in Hh. congruence.
Qed.

(** A Docker image reference is neither an IP nor a CIDR. *)
Theorem IsDockerImage_excludes_IP_and_CIDR (t : helpers.Target) :
  helpers.IsDockerImage t = true ->
  helpers.IsIP t = false /\ helpers.IsCIDR t = false.
Proof.
  intros H. apply IsDockerImage_shape in H.
  destruct H as (reg & image & Hv & Hreg & _ & Hcount).
  unfold helpers.IsIP, helpers.IsCIDR. rewrite Hv. split.
  - destruct (net.ParseIP (reg ++ String "/" image)%string) as [ip |] eqn:Hip;
      [| reflexivity].
    apply ParseIP_no_slash in Hip. rewrite has_append in Hip. simpl in Hip.
    rewrite orb_true_r in Hip. discriminate Hip.
  - destruct (net.ParseCIDR (reg ++ String "/" image)%string) as [r |] eqn:Hc;
      [| reflexivity].
    pose proof (ParseCIDR_mask_digits _ reg image r
                  (cut_slash_append reg image Hreg) Hc) as Hm.
    apply count_byte_has in Hm. congruence.
Qed.

Lemma IsDockerImage_excludes_IP_and_CIDR_witness :
  helpers.IsIP (helpers.mk_Target "registry.hub.docker.com/library/alpine:latest" None None)
  = false /\
  helpers.IsCIDR (helpers.mk_Target "registry.hub.docker.com/library/alpine:latest" None None)
  = false.
Proof.
  apply (IsDockerImage_excludes_IP_and_CIDR
           (helpers.mk_Target "registry.hub.docker.com/library/alpine:latest" None None)).
  reflexivity.
Defined.

(** The heuristic at work: a port in the registry is no second colon, a
    missing tag and a registry without dot are refused, a digest passes for
    a tag. *)
Example IsDockerImage_cases :
  map (fun v => helpers.IsDockerImage (helpers.mk_Target v None None))
    ["registry.hub.docker.com/library/alpine:latest"; "registry.local:5000/app:1.0";
     "registry.local/app"; "localhost/app:1.0"; "registry.local/app@sha256:0a1b";
     "registry.local/app:1.0@sha256:0a1b"; "alpine:latest"; "1.1.1.1/24"; ""]
  = [true; true; false; false; true; false; false; false; false].
Proof. vm_compute. reflexivity. Qed.

(** ** The classifier: resolved names and networks *)

Lemma isAllowed_plain_literal (s : string) (ip : net.IP) :
  plain_literal s ip -> helpers.isAllowed s = Ok (negb (in_reserved ip)).
Proof.
  intros [Hparse Hform]. unfold in_reserved. rewrite existsb_app.
  unfold helpers.isAllowed. rewrite !strings_Contains_char.
  destruct Hform as [H4 | [Hdot Hmapped]].
  - destruct (parseIPv4_spec s ip H4) as (Hd & Hslash & _ & _).
    rewrite Hd, Hslash. cbn [negb].
    destruct (ParseCIDR_bare_v4 s ip H4) as (a & b & c & d & -> & Hcidr).
    rewrite Hcidr. cbn [net.net_IP].
    rewrite no_v6_net_contains_v4, orb_false_r.
    change (existsb (fun n => net.Contains n (net.IPv4 a b c d))
                    helpers.NotScannableNetsIPV4)
      with (existsb (fun n => net.Contains n [a; b; c; d])
                    helpers.NotScannableNetsIPV4).
    destruct (existsb _ helpers.NotScannableNetsIPV4); reflexivity.
  - rewrite strings_Contains_char in Hdot. rewrite Hdot.
    unfold net.ParseIP in Hparse.
    pose proof (ParseIP_scan_no_dot s s ip Hdot Hparse) as H6.
    destruct (parseIPv6_spec s ip H6) as (Hlen & _ & Hslash).
    rewrite Hslash. cbn [negb].
    rewrite (ParseCIDR_bare_v6 s ip H6 Hdot). cbn [net.net_IP].
    rewrite (no_v4_net_contains_v6 ip Hlen Hmapped). cbn [orb].
    destruct (existsb _ helpers.NotScannableNetsIPV6); reflexivity.
Qed.

Lemma verifyIPs_forallb (addrs : list string) :
  helpers.verifyIPs addrs = forallb address_allowed addrs.
Proof.
  induction addrs as [| a addrs IH]; simpl; [reflexivity |].
  unfold address_allowed at 1.
  destruct (helpers.isAllowed a) as [[|] | e]; simpl; auto.
Qed.

Lemma IsScannable_of_name (P : Platform) (asset : string) :
  helpers.IsIP (helpers.mk_Target asset None None) = false ->
  helpers.IsCIDR (helpers.mk_Target asset None None) = false ->
  helpers.IsScannable P asset
  = helpers.verifyIPs
      match net_LookupHost P (match url_Hostname P asset with
                              | Some h => h
                              | None => asset
                              end) with
      | Ok addrs => addrs
      | Err _ => []
      end.
Proof.
  intros Hip Hcidr. unfold helpers.IsScannable. rewrite Hip, Hcidr. simpl.
  unfold helpers.IsURL. simpl. destruct (url_Hostname P asset); reflexivity.
Qed.

(** A name (or the host of a URL) is scannable exactly when every address
    it resolves to lies outside the listed ranges, for addresses the
    resolver returns as plain literals. *)
Theorem IsScannable_every_address (P : Platform) (asset : string)
    (addrs : list string) (ips : list net.IP) :
  helpers.IsIP (helpers.mk_Target asset None None) = false ->
  helpers.IsCIDR (helpers.mk_Target asset None None) = false ->
  net_LookupHost P (match url_Hostname P asset with Some h => h | None => asset end)
    = Ok addrs ->
  Forall2 plain_literal addrs ips ->
  helpers.IsScannable P asset = forallb (fun ip => negb (in_reserved ip)) ips.
Proof.
  intros Hip Hcidr Hlookup Hplain.
  rewrite (IsScannable_of_name P asset Hip Hcidr), Hlookup, verifyIPs_forallb.
  clear Hlookup.
  induction Hplain as [| a ip addrs' ips' Ha _ IH]; simpl; [reflexivity |].
  rewrite IH. unfold address_allowed at 1.
  rewrite (isAllowed_plain_literal a ip Ha).
  destruct (in_reserved ip); reflexivity.
Qed.

Lemma IsScannable_every_address_witness :
  helpers.IsScannable testnet "https://localhost" = false /\
  helpers.IsScannable testnet "www.example.com" = true.
Proof.
  split.
  - apply (IsScannable_every_address testnet "https://localhost"
             ["127.0.0.1"; "::1"]
             [net.IPv4 127 0 0 1; [0; 0; 0; 0; 0; 0; 0; 0; 0; 0; 0; 0; 0; 0; 0; 1]]);
      try reflexivity.
    constructor; [split; [reflexivity | left; reflexivity] |].
    constructor; [split; [reflexivity | right; split; reflexivity] | constructor].
  - apply (IsScannable_every_address testnet "www.example.com"
             ["93.184.216.34"; "2606:2800:220:1:248:1893:25c8:1946"]
             [net.IPv4 93 184 216 34;
              [38; 6; 40; 0; 2; 32; 0; 1; 2; 72; 24; 147; 37; 200; 25; 70]]);
      try reflexivity.
    constructor; [split; [reflexivity | left; reflexivity] |].
    constructor; [split; [reflexivity | right; split; reflexivity] | constructor].
Defined.

(** One address that is refused, or that does not parse (an address with
    a zone, say), makes the whole target not scannable, whatever the other
    addresses are. *)
Theorem IsScannable_one_bad_address (P : Platform) (asset : string)
    (addrs : list string) (addr : string) :
  helpers.IsIP (helpers.mk_Target asset None None) = false ->
  helpers.IsCIDR (helpers.mk_Target asset None None) = false ->
  net_LookupHost P (match url_Hostname P asset with Some h => h | None => asset end)
    = Ok addrs ->
  In addr addrs ->
  helpers.isAllowed addr <> Ok true ->
  helpers.IsScannable P asset = false.
Proof.
  intros Hip Hcidr Hlookup Hin Hbad.
  rewrite (IsScannable_of_name P asset Hip Hcidr), Hlookup, verifyIPs_forallb.
  destruct (forallb address_allowed addrs) eqn:Hall; [| reflexivity].
  rewrite forallb_forall in Hall. specialize (Hall addr Hin).
  unfold address_allowed in Hall.
  destruct (helpers.isAllowed addr) as [[|] | e]; try discriminate Hall.
  contradiction Hbad. reflexivity.
Qed.

Lemma IsScannable_one_bad_address_witness :
  helpers.IsScannable testnet "localhost" = false.
Proof.
  apply (IsScannable_one_bad_address testnet "localhost" ["127.0.0.1"; "::1"] "::1");
    try reflexivity.
  - simpl. auto.
  - vm_compute. discriminate.
Defined.

Lemma CIDRMask_bytes_length (l : nat) :
  forall n, List.length (net.CIDRMask_bytes l n) = l.
Proof.
  induction l as [| l IH]; intros n; simpl; [reflexivity |].
  destruct (8 <=? n); simpl; rewrite IH; reflexivity.
Qed.

Lemma CIDRMask_length (ones bits : Z) (m : net.IPMask) :
  net.CIDRMask ones bits = Some m ->
  List.length m = Z.to_nat (bits / 8).
Proof.
  unfold net.CIDRMask. intros H.
  destruct (negb (bits =? 8 * Z.of_nat net.IPv4len)
            && negb (bits =? 8 * Z.of_nat net.IPv6len)); [discriminate H |].
  destruct ((ones <? 0) || (bits <? ones)); [discriminate H |].
  inversion H; subst. apply CIDRMask_bytes_length.
Qed.

(** The network of a CIDR has four bytes when the address part is a dotted
    quad, and sixteen when the string holds no dot. *)
Lemma ParseCIDR_net_length (s : string) (ip : net.IP) (nt : net.IPNet) :
  net.ParseCIDR s = Some (ip, nt) ->
  (forall addr mask ip4,
      net.cut_slash s = Some (addr, mask) -> net.parseIPv4 addr = Some ip4 ->
      List.length (net.net_IP nt) = 4%nat) /\
  (has "." s = false -> List.length (net.net_IP nt) = 16%nat).
Proof.
  unfold net.ParseCIDR. intros H.
  destruct (net.cut_slash s) as [[addr mask] |] eqn:Hc; [| discriminate H].
  destruct (cut_slash_spec s addr mask Hc) as [Hs _].
  destruct (net.dtoi mask) as [[n i] ok] eqn:Hd.
  split.
  - intros addr' mask' ip4 Heq H4. inversion Heq; subst addr' mask'.
    rewrite H4 in H.
    destruct (parseIPv4_spec addr ip4 H4) as (_ & _ & _ & a & b & c & d & -> & _).
    destruct (negb ok || negb (i =? String.length mask)%nat || (n <? 0)
              || (8 * Z.of_nat net.IPv4len <? n)); [discriminate H |].
    destruct (net.CIDRMask n (8 * Z.of_nat net.IPv4len)) as [m |] eqn:Hm;
      [| discriminate H].
    apply CIDRMask_length in Hm. change (Z.to_nat _) with 4%nat in Hm.
    destruct m as [| m0 [| m1 [| m2 [| m3 [| m4 m]]]]]; try discriminate Hm.
    simpl in H. inversion H; subst. reflexivity.
  - intros Hdot. rewrite Hs, has_append in Hdot.
    apply orb_false_elim in Hdot. destruct Hdot as [Hdot _].
    destruct (net.parseIPv4 addr) as [ip4 |] eqn:H4.
    + apply parseIPv4_spec in H4. destruct H4 as [H4 _]. congruence.
    + destruct (net.parseIPv6 addr) as [ip6 |] eqn:H6; [| discriminate H].
      destruct (parseIPv6_spec addr ip6 H6) as (Hlen & _ & _).
      destruct (negb ok || negb (i =? String.length mask)%nat || (n <? 0)
                || (8 * Z.of_nat net.IPv6len <? n)); [discriminate H |].
      destruct (net.CIDRMask n (8 * Z.of_nat net.IPv6len)) as [m |] eqn:Hm;
        [| discriminate H].
      apply CIDRMask_length in Hm. change (Z.to_nat _) with 16%nat in Hm.
      unfold net.Mask in H. rewrite Hm, Hlen in H.
      change (16 =? net.IPv4len)%nat with false in H.
      change (16 =? net.IPv6len)%nat with true in H.
      cbn [andb] in H. rewrite Hm in H.
      change (16 =? net.IPv4len)%nat with false in H.
      cbn [andb] in H. rewrite Hlen in H. cbn [Nat.eqb negb] in H.
      inversion H; subst. cbn [net.net_IP].
      rewrite length_map, length_combine, Hlen, Hm. reflexivity.
Qed.

Lemma no_v6_net_contains_4_bytes (ip : net.IP) :
  List.length ip = 4%nat ->
  existsb (fun n => net.Contains n ip) helpers.NotScannableNetsIPV6 = false.
Proof.
  intros Hlen.
  assert (H : forallb (fun n => (List.length (fst (net.networkNumberAndMask n)) =? 16)%nat)
                      helpers.NotScannableNetsIPV6 = true) by (vm_compute; reflexivity).
  rewrite forallb_forall in H.
  destruct (existsb _ helpers.NotScannableNetsIPV6) eqn:He; [| reflexivity].
  apply existsb_exists in He. destruct He as (n & Hin & Hc).
  rewrite (Contains_other_family n ip ip) in Hc; [discriminate Hc | |].
  - unfold net.To4. rewrite Hlen. reflexivity.
  - apply H in Hin. apply Nat.eqb_eq in Hin. rewrite Hin, Hlen. discriminate.
Qed.

(** A CIDR is judged by its network address alone: a dotted IPv4 network,
    or an undotted IPv6 network whose address is not IPv4-mapped, is
    scannable exactly when no listed range contains its first address,
    however wide the network is. *)
Theorem IsScannable_cidr_network_address (P : Platform) (s : string)
    (ip : net.IP) (nt : net.IPNet) :
  net.ParseCIDR s = Some (ip, nt) ->
  (exists addr mask ip4,
      net.cut_slash s = Some (addr, mask) /\ net.parseIPv4 addr = Some ip4) \/
  (strings_Contains s "." = false /\ net.To4 (net.net_IP nt) = None) ->
  helpers.IsScannable P s = negb (in_reserved (net.net_IP nt)).
Proof.
  intros Hc Hform.
  pose proof (ParseCIDR_has_slash s _ Hc) as Hslash.
  destruct (ParseCIDR_net_length s ip nt Hc) as [Hl4 Hl16].
  unfold helpers.IsScannable, helpers.IsCIDR. cbn [helpers.Value].
  rewrite Hc, orb_true_r.
  unfold in_reserved. rewrite existsb_app.
  unfold helpers.isAllowed. rewrite !strings_Contains_char, Hslash. cbn [negb].
  destruct Hform as [(addr & mask & ip4 & Hcut & H4) | [Hdot Hmapped]].
  - destruct (cut_slash_spec s addr mask Hcut) as [Hs _].
    destruct (parseIPv4_spec addr ip4 H4) as (Hd & _).
    assert (Hsd : has "." s = true)
      by (rewrite Hs, has_append, Hd; reflexivity).
    rewrite Hsd, Hc.
    rewrite (no_v6_net_contains_4_bytes _ (Hl4 addr mask ip4 Hcut H4)), orb_false_r.
    destruct (existsb _ helpers.NotScannableNetsIPV4); reflexivity.
  - rewrite strings_Contains_char in Hdot. rewrite Hdot, Hc.
    rewrite (no_v4_net_contains_v6 _ (Hl16 Hdot) Hmapped). cbn [orb].
    destruct (existsb _ helpers.NotScannableNetsIPV6); reflexivity.
Qed.

Lemma IsScannable_cidr_network_address_witness :
  helpers.IsScannable offline "8.0.0.0/6" = true /\
  helpers.IsScannable offline "10.1.2.3/8" = false /\
  helpers.IsScannable offline "fe80::1/10" = false.
Proof.
  split; [| split].
  - apply (IsScannable_cidr_network_address offline "8.0.0.0/6"
             (net.IPv4 8 0 0 0) (net.mk_IPNet [8; 0; 0; 0] [252; 0; 0; 0]));
      [reflexivity |].
    left. exists "8.0.0.0", "6", (net.IPv4 8 0 0 0). split; reflexivity.
  - apply (IsScannable_cidr_network_address offline "10.1.2.3/8"
             (net.IPv4 10 1 2 3) (net.mk_IPNet [10; 0; 0; 0] [255; 0; 0; 0]));
      [reflexivity |].
    left. exists "10.1.2.3", "8", (net.IPv4 10 1 2 3). split; reflexivity.
  - apply (IsScannable_cidr_network_address offline "fe80::1/10"
             [254; 128; 0; 0; 0; 0; 0; 0; 0; 0; 0; 0; 0; 0; 0; 1]
             (net.mk_IPNet [254; 128; 0; 0; 0; 0; 0; 0; 0; 0; 0; 0; 0; 0; 0; 0]
                           [255; 192; 0; 0; 0; 0; 0; 0; 0; 0; 0; 0; 0; 0; 0; 0]));
      [reflexivity |].
    right. split; reflexivity.
Defined.

(** So a network wide enough to reach into a listed range is scannable when
    it starts outside: 8.0.0.0/6 runs up to 11.255.255.255 and holds all of
    10.0.0.0/8. *)
Example wide_network_is_scannable (P : Platform) :
  helpers.IsScannable P "8.0.0.0/6" = true /\
  helpers.IsScannable P "10.0.0.1" = false /\
  (exists nt ip, net.ParseCIDR "8.0.0.0/6" = Some (ip, nt) /\
                 net.Contains nt (net.IPv4 10 0 0 1) = true).
Proof.
  split; [vm_compute; reflexivity |]. split; [vm_compute; reflexivity |].
  eexists. eexists. split; vm_compute; reflexivity.
Qed.

(** ** The resolver: configuration and servers *)

(** The loop asks a prefix of the configured servers, in order, and nothing
    else. *)
Lemma hasSOARecord_servers_prefix (P : Platform) (port address : string) :
  forall (servers : list string) (r : option dns.Msg) (w : helpers.World),
    let res := helpers.hasSOARecord_servers P servers port address r w in
    helpers.dnsConf (snd res) = helpers.dnsConf w /\
    exists k, helpers.queries (snd res)
              = helpers.queries w ++ map (soa_question address port) (firstn k servers).
Proof.
  induction servers as [| srv rest IH]; intros r w; cbn [helpers.hasSOARecord_servers].
  - simpl. split; [reflexivity |]. exists O. rewrite app_nil_r. reflexivity.
  - unfold helpers.bind at 1.
    unfold helpers.Exchange, helpers.bind, helpers.sent, helpers.ret.
    destruct (dns_Exchange P address dns.TypeSOA (srv ++ ":" ++ port)%string)
      as [m | err].
    + destruct (dns.Rcode m =? dns.RcodeSuccess).
      * simpl. split; [reflexivity |]. exists 1%nat. reflexivity.
      * match goal with
        | |- context [helpers.hasSOARecord_servers P rest port address ?r' ?w'] =>
            destruct (IH r' w') as (Hc & k & Hq)
        end.
        cbv zeta. rewrite Hc, Hq. simpl. split; [reflexivity |].
        exists (S k). rewrite <- app_assoc. reflexivity.
    + simpl. split; [reflexivity |]. exists 1%nat. reflexivity.
Qed.

Lemma reads_app (w : helpers.World) (c : option dns.ClientConfig)
    (l : list helpers.Query) :
  reads (helpers.mk_World c (helpers.queries w ++ l))
  = (reads w + List.length (filter is_read l))%nat.
Proof. unfold reads. simpl. rewrite filter_app, length_app. reflexivity. Qed.

Lemma no_read_among_questions (address port : string) (l : list string) :
  filter is_read (map (soa_question address port) l) = [].
Proof. induction l as [| s l IH]; simpl; [reflexivity | exact IH]. Qed.

(** What one call of [hasSOARecord] does to the stored configuration and to
    the number of reads of the file. *)
Lemma hasSOARecord_world (P : Platform) (address : string) (w : helpers.World) :
  let w' := snd (helpers.hasSOARecord P address w) in
  match helpers.dnsConf w with
  | Some c => helpers.dnsConf w' = Some c /\ reads w' = reads w
  | None =>
      match dns_ClientConfigFromFile P helpers.dnsConfFilePath with
      | Ok c => helpers.dnsConf w' = Some c /\ reads w' = S (reads w)
      | Err _ => helpers.dnsConf w' = None /\ reads w' = S (reads w)
      end
  end.
Proof.
  unfold helpers.hasSOARecord, helpers.get_dnsConf, helpers.ClientConfigFromFile,
    helpers.set_dnsConf, helpers.sent.
  unfold helpers.bind, helpers.ret.
  destruct (helpers.dnsConf w) as [c |] eqn:Hconf.
  - destruct (hasSOARecord_servers_prefix P (dns.Port c) (address ++ ".")%string
                (dns.Servers c) None w) as (Hc & k & Hq).
    destruct (helpers.hasSOARecord_servers P (dns.Servers c) (dns.Port c) _ None w)
      as [[[m |] | err] w'] eqn:Hloop; simpl in *;
      (split; [congruence |]);
      unfold reads; rewrite Hq, filter_app, no_read_among_questions, app_nil_r;
      reflexivity.
  - destruct (dns_ClientConfigFromFile P helpers.dnsConfFilePath) as [c | err].
    + match goal with
      | |- context [helpers.hasSOARecord_servers P ?sv ?pt ?ad None ?w0] =>
          destruct (hasSOARecord_servers_prefix P pt ad sv None w0) as (Hc & k & Hq);
          destruct (helpers.hasSOARecord_servers P sv pt ad None w0)
            as [[[m |] | err] w'] eqn:Hloop
      end; simpl in *; (split; [congruence |]);
        unfold reads; rewrite Hq, !filter_app, no_read_among_questions, app_nil_r;
        simpl; rewrite length_app; simpl; lia.
    + simpl. split; [exact Hconf |]. unfold reads. simpl.
      rewrite filter_app, length_app. simpl. lia.
Qed.

Lemma hasSOARecord_each_loaded (P : Platform) (addresses : list string) :
  forall (w : helpers.World) (c : dns.ClientConfig),
    helpers.dnsConf w = Some c ->
    helpers.dnsConf (hasSOARecord_each P addresses w) = Some c /\
    reads (hasSOARecord_each P addresses w) = reads w.
Proof.
  induction addresses as [| a rest IH]; intros w c Hconf; simpl; [auto |].
  pose proof (hasSOARecord_world P a w) as H. cbv zeta in H. rewrite Hconf in H.
  destruct H as [Hc Hr].
  destruct (IH _ c Hc) as [Hc' Hr']. split; [exact Hc' | congruence].
Qed.

(** The resolver configuration is read from the file once: by the first
    call that finds none stored, when the read succeeds.  When the read
    fails nothing is stored and every call reads the file again. *)
Theorem hasSOARecord_reads_configuration (P : Platform)
    (addresses : list string) (w : helpers.World) :
  helpers.dnsConf w = None ->
  reads (hasSOARecord_each P addresses w)
  = match dns_ClientConfigFromFile P helpers.dnsConfFilePath with
    | Ok _ => (reads w + Nat.min 1 (List.length addresses))%nat
    | Err _ => (reads w + List.length addresses)%nat
    end.
Proof.
  revert w. induction addresses as [| a rest IH]; intros w Hconf.
  - simpl. destruct (dns_ClientConfigFromFile P helpers.dnsConfFilePath); lia.
  - cbn [hasSOARecord_each fold_left].
    pose proof (hasSOARecord_world P a w) as H. cbv zeta in H. rewrite Hconf in H.
    change (fold_left _ rest ?w0) with (hasSOARecord_each P rest w0).
    destruct (dns_ClientConfigFromFile P helpers.dnsConfFilePath) as [c | err] eqn:Hf.
    + destruct H as [Hc Hr].
      destruct (hasSOARecord_each_loaded P rest _ c Hc) as [_ Hr'].
      rewrite Hr', Hr. simpl. lia.
    + destruct H as [Hc Hr]. specialize (IH _ Hc).
      rewrite IH, Hr. simpl. lia.
Qed.

Lemma hasSOARecord_reads_configuration_witness :
  reads (hasSOARecord_each testnet ["example.com"; "www.example.com"; "example.org"]
           helpers.world0) = 1%nat /\
  reads (hasSOARecord_each offline ["example.com"; "www.example.com"; "example.org"]
           helpers.world0) = 3%nat.
Proof.
  split.
  - exact (hasSOARecord_reads_configuration testnet
             ["example.com"; "www.example.com"; "example.org"] helpers.world0 eq_refl).
  - exact (hasSOARecord_reads_configuration offline
             ["example.com"; "www.example.com"; "example.org"] helpers.world0 eq_refl).
Defined.

(** The loop up to the first server that does not answer with a response
    code other than success: the servers before it are asked, it is asked,
    and its outcome ends the loop. *)
Lemma hasSOARecord_servers_decisive (P : Platform) (port address : string)
    (srv : string) (post : list string) :
  forall (pre : list string) (r : option dns.Msg) (w : helpers.World),
    (forall s, In s pre ->
       exists m, dns_Exchange P address dns.TypeSOA (s ++ ":" ++ port)%string = Ok m /\
                 dns.Rcode m <> dns.RcodeSuccess) ->
    match dns_Exchange P address dns.TypeSOA (srv ++ ":" ++ port)%string with
    | Ok m => dns.Rcode m = dns.RcodeSuccess
    | Err _ => True
    end ->
    helpers.hasSOARecord_servers P (pre ++ srv :: post) port address r w
    = (match dns_Exchange P address dns.TypeSOA (srv ++ ":" ++ port)%string with
       | Ok m => Ok (Some m)
       | Err e => Err e
       end,
       helpers.mk_World (helpers.dnsConf w)
         (helpers.queries w ++ map (soa_question address port) (pre ++ [srv]))).
Proof.
  induction pre as [| s pre IH]; intros r w Hpre Hsrv;
    cbn [app helpers.hasSOARecord_servers map];
    unfold helpers.bind at 1;
    unfold helpers.Exchange, helpers.bind, helpers.sent, helpers.ret.
  - destruct (dns_Exchange P address dns.TypeSOA (srv ++ ":" ++ port)%string)
      as [m | e]; [| reflexivity].
    rewrite Hsrv. reflexivity.
  - destruct (Hpre s (or_introl eq_refl)) as (m & Hm & Hcode). rewrite Hm.
    apply Z.eqb_neq in Hcode. rewrite Hcode.
    rewrite IH; [| intros s' Hs'; apply Hpre; right; exact Hs' | exact Hsrv].
    cbn [helpers.dnsConf helpers.queries]. rewrite <- app_assoc. reflexivity.
Qed.

(** The first server that answers with success decides: the answer is
    judged by its message, and the servers after it are not asked. *)
Theorem hasSOARecord_first_success_decides (P : Platform) (address : string)
    (c : dns.ClientConfig) (w : helpers.World)
    (pre post : list string) (srv : string) (m : dns.Msg) :
  helpers.dnsConf w = Some c ->
  dns.Servers c = pre ++ srv :: post ->
  (forall s, In s pre ->
     exists m', dns_Exchange P (address ++ ".")%string dns.TypeSOA
                  (s ++ ":" ++ dns.Port c)%string = Ok m' /\
                dns.Rcode m' <> dns.RcodeSuccess) ->
  dns_Exchange P (address ++ ".")%string dns.TypeSOA (srv ++ ":" ++ dns.Port c)%string
    = Ok m ->
  dns.Rcode m = dns.RcodeSuccess ->
  helpers.hasSOARecord P address w
  = ((helpers.soaHeaderForName m (address ++ ".")%string, None),
     helpers.mk_World (Some c)
       (helpers.queries w
        ++ map (soa_question (address ++ ".")%string (dns.Port c)) (pre ++ [srv]))).
Proof.
  intros Hconf Hsv Hpre Hsrv Hcode.
  unfold helpers.hasSOARecord, helpers.get_dnsConf.
  unfold helpers.bind, helpers.ret. rewrite Hconf, Hsv.
  rewrite (hasSOARecord_servers_decisive P (dns.Port c) _ srv post pre None w Hpre);
    rewrite Hsrv; [| exact Hcode].
  rewrite Hconf. reflexivity.
Qed.

Lemma hasSOARecord_first_success_decides_witness :
  helpers.hasSOARecord second_resolver_answers "example.com"
    (helpers.mk_World
       (Some (dns.mk_ClientConfig ["192.0.2.53"; "192.0.2.54"; "192.0.2.55"] "53")) [])
  = ((true, None),
     helpers.mk_World
       (Some (dns.mk_ClientConfig ["192.0.2.53"; "192.0.2.54"; "192.0.2.55"] "53"))
       [helpers.QExchange "example.com." 6 "192.0.2.53:53";
        helpers.QExchange "example.com." 6 "192.0.2.54:53"]).
Proof.
  apply (hasSOARecord_first_success_decides second_resolver_answers "example.com"
           (dns.mk_ClientConfig ["192.0.2.53"; "192.0.2.54"; "192.0.2.55"] "53")
           (helpers.mk_World
              (Some (dns.mk_ClientConfig ["192.0.2.53"; "192.0.2.54"; "192.0.2.55"] "53")) [])
           ["192.0.2.53"] ["192.0.2.55"] "192.0.2.54"
           (dns.mk_Msg dns.RcodeSuccess [dns.mk_RR_Header "example.com." dns.TypeSOA]));
    try reflexivity.
  intros s [<- | []]. exists (dns.mk_Msg 2 []). split; [reflexivity | discriminate].
Defined.

(** A server that cannot be reached ends the call with its error: the
    servers after it are not tried. *)
Theorem hasSOARecord_exchange_error_aborts (P : Platform) (address : string)
    (c : dns.ClientConfig) (w : helpers.World)
    (pre post : list string) (srv : string) (e : error) :
  helpers.dnsConf w = Some c ->
  dns.Servers c = pre ++ srv :: post ->
  (forall s, In s pre ->
     exists m', dns_Exchange P (address ++ ".")%string dns.TypeSOA
                  (s ++ ":" ++ dns.Port c)%string = Ok m' /\
                dns.Rcode m' <> dns.RcodeSuccess) ->
  dns_Exchange P (address ++ ".")%string dns.TypeSOA (srv ++ ":" ++ dns.Port c)%string
    = Err e ->
  helpers.hasSOARecord P address w
  = ((false, Some e),
     helpers.mk_World (Some c)
       (helpers.queries w
        ++ map (soa_question (address ++ ".")%string (dns.Port c)) (pre ++ [srv]))).
Proof.
  intros Hconf Hsv Hpre Hsrv.
  unfold helpers.hasSOARecord, helpers.get_dnsConf.
  unfold helpers.bind, helpers.ret. rewrite Hconf, Hsv.
  rewrite (hasSOARecord_servers_decisive P (dns.Port c) _ srv post pre None w Hpre);
    rewrite Hsrv; [| exact I].
  rewrite Hconf. reflexivity.
Qed.

Lemma hasSOARecord_exchange_error_aborts_witness :
  helpers.hasSOARecord first_resolver_unreachable "example.com"
    (helpers.mk_World (Some (dns.mk_ClientConfig ["192.0.2.53"; "192.0.2.54"] "53")) [])
  = ((false, Some (Errorf "dial udp 192.0.2.53:53: i/o timeout")),
     helpers.mk_World (Some (dns.mk_ClientConfig ["192.0.2.53"; "192.0.2.54"] "53"))
       [helpers.QExchange "example.com." 6 "192.0.2.53:53"]).
Proof.
  apply (hasSOARecord_exchange_error_aborts first_resolver_unreachable "example.com"
           (dns.mk_ClientConfig ["192.0.2.53"; "192.0.2.54"] "53")
           (helpers.mk_World (Some (dns.mk_ClientConfig ["192.0.2.53"; "192.0.2.54"] "53")) [])
           [] ["192.0.2.54"] "192.0.2.53"
           (Errorf "dial udp 192.0.2.53:53: i/o timeout"));
    try reflexivity.
  intros s [].
Defined.

(** ** The lifecycle of a pushed check *)

(** The listener touches the context and the log only. *)
Lemma API_loop_frame (events : list push.APIEvent) :
  forall (aborted : bool) (c : push.Check),
    let c' := fst (push.API_loop events aborted c) in
    push.checkState c' = push.checkState c /\ push.conf c' = push.conf c /\
    push.checker c' = push.checker c /\ push.cleanups c' = push.cleanups c /\
    push.checkerFinished c' = push.checkerFinished c.
Proof.
  induction events as [| e events IH]; intros aborted c; simpl; [auto 6 |].
  destruct e; [| simpl; auto 6].
  destruct aborted; simpl; [apply IH |].
  match goal with
  | |- context [push.API_loop events true ?c0] => destruct (IH true c0) as (H1 & H2 & H3 & H4 & H5)
  end.
  simpl in *. auto 6.
Qed.

Lemma API_loop_aborted (events : list push.APIEvent) :
  forall (c : push.Check),
    exists l, push.Logger (fst (push.API_loop events true c)) = push.Logger c ++ l /\
              aborts l = 0%nat /\
              push.cancelled (fst (push.API_loop events true c)) = push.cancelled c /\
              snd (push.API_loop events true c) = true.
Proof.
  induction events as [| e events IH]; intros c; simpl.
  - exists []. rewrite app_nil_r. auto.
  - destruct e; simpl; [apply IH |].
    eexists. split; [reflexivity |]. auto.
Qed.

(** The listener calls [Abort] at most once, however many signals arrive:
    once when a signal is received before the stop, never otherwise; and
    the context is cancelled exactly then. *)
Theorem API_loop_aborts_once (events : list push.APIEvent) (c : push.Check) :
  exists l,
    push.Logger (fst (push.API_loop events false c)) = push.Logger c ++ l /\
    aborts l = (if signalled events then 1 else 0)%nat /\
    push.cancelled (fst (push.API_loop events false c))
      = push.cancelled c || signalled events /\
    push.checkState (fst (push.API_loop events false c)) = push.checkState c.
Proof.
  destruct (API_loop_frame events false c) as (Hst & _).
  destruct events as [| [|] events]; simpl.
  - exists []. rewrite app_nil_r, orb_false_r. auto.
  - match goal with
    | |- context [push.API_loop events true ?c0] =>
        destruct (API_loop_aborted events c0) as (l & Hl & Ha & Hc & _);
        destruct (API_loop_frame events true c0) as (Hst' & _)
    end.
    simpl in *. rewrite Hl, Hc, Hst', orb_true_r. eexists.
    rewrite <- !app_assoc. split; [reflexivity |].
    split; [| auto]. unfold aborts in *. simpl. rewrite Ha. reflexivity.
  - eexists. split; [reflexivity |]. rewrite orb_false_r. auto.
Qed.

(** While the status is running, what the body does with the state pushes
    running snapshots only, each with a greater progress than the one
    before, and leaves the status running. *)
Lemma apply_ops_running (ops : list push.CheckerOp) :
  forall p : push.State,
    is_running (push.state p) = true ->
    exists mids,
      push.pusher (push.apply_ops ops p) = push.pusher p ++ map push.UpdateState mids /\
      forallb is_running mids = true /\
      rising (agent.Progress (push.state p)) mids = true /\
      is_running (push.state (push.apply_ops ops p)) = true.
Proof.
  induction ops as [| op ops IH]; intros p Hrun.
  - exists []. simpl. rewrite app_nil_r. auto.
  - change (push.apply_ops (op :: ops) p)
      with (push.apply_ops ops (push.apply_op op p)).
    destruct op as [progress | d].
    + cbn [push.apply_op]. unfold push.SetProgress.
      unfold is_running in Hrun. rewrite Hrun. cbn [andb].
      destruct (f32_gt progress (agent.Progress (push.state p))) eqn:Hgt.
      * match goal with
        | |- context [push.apply_ops ops ?p0] =>
            destruct (IH p0) as (mids & Hp & Hall & Hrise & Hr); [exact Hrun |]
        end.
        exists (agent.with_Progress (push.state p) progress :: mids).
        rewrite Hp. cbn [push.pusher push.push_state push.state map forallb rising
                          agent.with_Progress agent.Progress].
        rewrite <- app_assoc.
        cbn [push.push_state push.state agent.Progress agent.with_Progress] in Hrise.
        change (is_running (agent.with_Progress (push.state p) progress))
          with (is_running (push.state p)).
        unfold is_running at 1. rewrite Hrun, Hgt, Hall, Hrise.
        repeat split; auto.
      * apply IH. exact Hrun.
    + cbn [push.apply_op].
      match goal with
      | |- context [push.apply_ops ops ?p0] =>
          destruct (IH p0) as (mids & Hp & Hall & Hrise & Hr); [exact Hrun |]
      end.
      exists mids. auto.
Qed.

(** What [executeChecker] pushes when it starts in status running. *)
Lemma executeChecker_pushes (P : Platform) (now : Z) (c : push.Check) :
  is_running (push.state (push.checkState c)) = true ->
  exists mids last,
    push.pusher (push.checkState (push.executeChecker P now c))
      = push.pusher (push.checkState c) ++ map push.UpdateState mids
        ++ [push.UpdateState last] /\
    forallb is_running mids = true /\
    rising (agent.Progress (push.state (push.checkState c))) mids = true /\
    is_terminal last = true /\
    agent.Progress last = f32_one /\
    agent.EndTime (agent.Report_ last) = now /\
    agent.Report_Status (agent.Report_ last) = agent.Status last /\
    push.state (push.checkState (push.executeChecker P now c)) = last.
Proof.
  intros Hrun. unfold push.executeChecker.
  destruct (push.ptrToBool _ || helpers.IsScannable P _).
  - destruct (push.Run _ _ _ _) as [ops err].
    destruct (apply_ops_running ops _ Hrun) as (mids & Hp & Hall & Hrise & _).
    exists mids.
    destruct err as [err |]; [destruct (error_eq_dec err context_Canceled) |];
      eexists; cbn; rewrite Hp, <- app_assoc; repeat split; auto.
  - exists []. eexists. cbn. repeat split; auto.
Qed.

(** A served check pushes, in this order: one running snapshot with
    progress 0, the running snapshots of the body with rising progress,
    one final snapshot (finished, aborted or failed) with progress 1 and
    the end time, and then the shutdown; nothing follows the shutdown, and
    the wait group is back at zero.  Signals change none of this. *)
Theorem RunAndServe_pushes (P : Platform) (now : Z) (early late : nat)
    (c : push.Check) :
  push.checkerFinished c = 0%nat ->
  exists c' first mids last,
    push.RunAndServe P now early late c = Some c' /\
    push.pusher (push.checkState c')
      = push.pusher (push.checkState c)
        ++ [push.UpdateState first] ++ map push.UpdateState mids
        ++ [push.UpdateState last; push.Shutdown_] /\
    agent.Status first = agent.StatusRunning /\
    agent.Progress first = f32_zero /\
    forallb is_running mids = true /\
    rising f32_zero mids = true /\
    is_terminal last = true /\
    agent.Progress last = f32_one /\
    agent.EndTime (agent.Report_ last) = now /\
    push.state (push.checkState c') = last /\
    push.checkerFinished c' = 0%nat.
Proof.
  intros Hwg. unfold push.RunAndServe.
  match goal with
  | |- context [push.API_loop (repeat push.ExitSignal early) false ?c0] =>
      pose proof (API_loop_frame (repeat push.ExitSignal early) false c0) as Hf;
      destruct (push.API_loop (repeat push.ExitSignal early) false c0) as [c1 ab1]
  end.
  cbn [fst push.checkState push.conf push.checker push.cleanups push.checkerFinished] in Hf.
  destruct Hf as (Hst & Hconf & Hck & Hcl & Hfin).
  set (c2 := push.mk_Check (push.SetStatusRunning (push.checkState c1)) _ _ _ _ _ _).
  destruct (executeChecker_pushes P now c2 eq_refl)
    as (mids & last & Hp & Hall & Hrise & Hterm & Hprog & Hend & _ & Hlast).
  assert (Hcount : push.checkerFinished (push.executeChecker P now c2) = 0%nat).
  { unfold push.executeChecker.
    destruct (push.ptrToBool _ || helpers.IsScannable P _);
      [destruct (push.Run _ _ _ _) as [ops [err |]];
       [destruct (error_eq_dec err context_Canceled) |] | ];
      cbn; rewrite Hfin, Hwg; reflexivity. }
  rewrite Hcount. cbn [Nat.eqb].
  match goal with
  | |- context [push.API_loop (repeat push.ExitSignal late) ab1 ?c0] =>
      pose proof (API_loop_frame (repeat push.ExitSignal late) ab1 c0) as Hf;
      destruct (push.API_loop (repeat push.ExitSignal late) ab1 c0) as [c3 ab3]
  end.
  cbn [fst] in Hf. destruct Hf as (Hst3 & _ & _ & _ & Hfin3).
  eexists. exists (push.state (push.SetStatusRunning (push.checkState c1))), mids, last.
  split; [reflexivity |].
  cbn. rewrite Hst3, Hp, Hfin3, Hcount, Hlast. subst c2. cbn.
  rewrite Hst, <- !app_assoc. cbn.
  repeat split; auto.
Qed.

Lemma RunAndServe_pushes_witness :
  exists c',
    push.RunAndServe testnet 7 2 1 (new_check reports_twice (conf_of "example.com" None))
      = Some c' /\
    map (fun call => match call with
                     | push.UpdateState s => (agent.Status s, agent.Progress s)
                     | push.Shutdown_ => ("shutdown", f32_zero)
                     end)
        (push.pusher (push.checkState c'))
    = [(agent.StatusRunning, f32_zero); (agent.StatusRunning, f32_half);
       (agent.StatusAborted, f32_one); ("shutdown", f32_zero)].
Proof.
  destruct (RunAndServe_pushes testnet 7 2 1
              (new_check reports_twice (conf_of "example.com" None)) eq_refl)
    as (c' & first & mids & last & Hrun & _).
  exists c'. split; [exact Hrun |].
  vm_compute in Hrun. inversion Hrun; subst c'. reflexivity.
Defined.

(** A target the classifier finds not scannable is never handed to the
    body unless private addresses are allowed: the body does not run,
    [CleanUp] is not called, and the collector receives the running
    snapshot, one failed snapshot with the fixed error text, and the
    shutdown. *)
Theorem RunAndServe_refuses_unscannable (P : Platform) (now : Z)
    (early late : nat) (c : push.Check) :
  push.checkerFinished c = 0%nat ->
  push.ptrToBool (config.AllowPrivateIPs (push.conf c)) = false ->
  helpers.IsScannable P (config.Target (config.Check (push.conf c))) = false ->
  exists c',
    push.RunAndServe P now early late c = Some c' /\
    push.checkState c'
      = push.Shutdown
          (push.SetStatusFailed (Errorf "target is not scannable")
             (push.SetEndTime now (push.SetStatusRunning (push.checkState c)))) /\
    agent.Status (push.state (push.checkState c')) = agent.StatusFailed /\
    agent.Error (agent.Result (agent.Report_ (push.state (push.checkState c'))))
      = "target is not scannable" /\
    push.cleanups c' = push.cleanups c.
Proof.
  intros Hwg Hallow Hscan. unfold push.RunAndServe.
  match goal with
  | |- context [push.API_loop (repeat push.ExitSignal early) false ?c0] =>
      pose proof (API_loop_frame (repeat push.ExitSignal early) false c0) as Hf;
      destruct (push.API_loop (repeat push.ExitSignal early) false c0) as [c1 ab1]
  end.
  cbn [fst push.checkState push.conf push.checker push.cleanups push.checkerFinished] in Hf.
  destruct Hf as (Hst & Hconf & Hck & Hcl & Hfin).
  unfold push.executeChecker. cbn [push.conf push.checkState push.cleanups
                                   push.checkerFinished push.Logger].
  rewrite Hconf, Hallow, Hscan. cbn [orb].
  destruct (error_eq_dec (Errorf "target is not scannable") context_Canceled)
    as [Heq | _]; [discriminate Heq |].
  cbn [push.checkerFinished]. rewrite Hfin, Hwg. cbn [Nat.add Nat.sub Nat.eqb].
  match goal with
  | |- context [push.API_loop (repeat push.ExitSignal late) ab1 ?c0] =>
      pose proof (API_loop_frame (repeat push.ExitSignal late) ab1 c0) as Hf;
      destruct (push.API_loop (repeat push.ExitSignal late) ab1 c0) as [c3 ab3]
  end.
  cbn [fst push.checkState push.conf push.checker push.cleanups push.checkerFinished] in Hf.
  destruct Hf as (Hst3 & _ & _ & Hcl3 & _).
  eexists. split; [reflexivity |]. cbn. rewrite Hst3, Hcl3, Hst, Hcl. auto.
Qed.

Lemma RunAndServe_refuses_unscannable_witness :
  exists c',
    push.RunAndServe testnet 7 0 0 (new_check reports_twice (conf_of "localhost" None))
      = Some c' /\
    agent.Status (push.state (push.checkState c')) = agent.StatusFailed /\
    List.length (push.pusher (push.checkState c')) = 3%nat /\
    push.cleanups c' = 0%nat.
Proof.
  destruct (RunAndServe_refuses_unscannable testnet 7 0 0
              (new_check reports_twice (conf_of "localhost" None))
              eq_refl eq_refl eq_refl)
    as (c' & Hrun & Hst & Hfailed & _ & Hcl).
  exists c'. split; [exact Hrun |]. split; [exact Hfailed |].
  split; [rewrite Hst; reflexivity | exact Hcl].
Defined.

(** ** The local runner: signals *)

Lemma LOOP_disarmed (events : list local.Event) :
  forall cancels,
    local.LOOP events false cancels
    = if existsb is_done events then Some cancels else None.
Proof.
  induction events as [| e events IH]; intros cancels; [reflexivity |].
  destruct e; simpl; [apply IH | reflexivity].
Qed.

(** The local runner cancels the context at most once, and only for a
    signal received before the result of the body; it calls [CleanUp] once
    whenever it ends, and it ends exactly when the body sends its result.
    Unlike the pushed check, it runs the body on any target. *)
Theorem local_RunAndServe_signals (checker : local.Checker) (conf : config.Config)
    (events : list local.Event) :
  let run := local.Run checker (signal_first events)
               (config.Target (config.Check conf)) (config.Opts (config.Check conf)) in
  local.RunAndServe checker conf events
  = if existsb is_done events then
      Some (local.mk_Exit (match snd run with Some _ => 0 | None => 1 end)
              (if signal_first events then 1 else 0) 1 (fst run) (snd run))
    else None.
Proof.
  unfold local.RunAndServe.
  destruct events as [| [|] events]; cbn [local.LOOP signal_first existsb is_done orb].
  - reflexivity.
  - rewrite LOOP_disarmed. destruct (existsb is_done events); [| reflexivity].
    cbn [Nat.ltb Nat.leb].
    destruct (local.Run checker true _ _) as [progress [err |]]; reflexivity.
  - cbn [Nat.ltb Nat.leb].
    destruct (local.Run checker false _ _) as [progress [err |]]; reflexivity.
Qed.

(** ** The process harness: whole runs and cancelled runs *)

Section HarnessRuns.

Variable checker_state : Type.
Variable ProcessOutputChunk : checker_state -> string -> checker_state * bool.
Variable env : process.Run_env.
Variable c0 : checker_state.

Lemma uncancelled_inv_step (t : process.tid) (s s' : process.Sys checker_state) :
  process.inv ProcessOutputChunk env c0 s ->
  uncancelled_inv ProcessOutputChunk env c0 s ->
  process.step ProcessOutputChunk env t s = Some s' ->
  uncancelled_inv ProcessOutputChunk env c0 s'.
Proof.
  unfold process.inv, uncancelled_inv.
  destruct s as [pa rd cx ck dl]. intros [Hd Hp] [Hn Hw] Hstep.
  destruct t; simpl in *.
  - unfold process.parent_step in Hstep; simpl in Hstep.
    destruct pa; simpl in *.
    + subst rd. destruct Hd as [-> ->].
      destruct (process.StdoutPipe_err env) eqn:H1;
        [| destruct (process.StderrPipe_err env) eqn:H2];
        inversion Hstep; subst; clear Hstep; simpl.
      * split; [intros _; right; left; discriminate | auto].
      * split; [intros _; right; right; discriminate | auto].
      * split; [discriminate | intros _; reflexivity].
    + inversion Hstep; subst; clear Hstep; simpl. split; [| exact Hw].
      intros ->. destruct Hp as [Hp _]. contradiction Hp; reflexivity.
    + inversion Hstep; subst; clear Hstep; simpl. split; [| exact Hw].
      intros ->. destruct Hp as [Hp _]. contradiction Hp; reflexivity.
    + destruct rd; try discriminate Hstep.
      inversion Hstep; subst; clear Hstep; simpl. split; [discriminate | exact Hw].
    + inversion Hstep; subst; clear Hstep; simpl.
      split; [discriminate | exact Hw].
    + discriminate Hstep.
  - unfold process.reader_step in Hstep; simpl in Hstep.
    destruct rd as [| rest | payload rest | |]; simpl in *.
    + discriminate Hstep.
    + destruct rest as [| payload rest]; inversion Hstep; subst; clear Hstep; simpl;
        (split; [discriminate |]); intros Hcx; specialize (Hw Hcx).
      * simpl in Hd, Hw. rewrite app_nil_r in Hd. auto.
      * exact Hw.
    + destruct cx.
      * inversion Hstep; subst; clear Hstep; simpl.
        split; [discriminate |]. intros Hcx; discriminate Hcx.
      * specialize (Hw eq_refl). simpl in Hd, Hw.
        destruct (ProcessOutputChunk ck payload) as [c' cont] eqn:Hc.
        inversion Hstep; subst; clear Hstep.
        destruct cont; simpl; (split; [discriminate |]); intros _; auto.
    + destruct pa; try discriminate Hstep.
      inversion Hstep; subst; clear Hstep; simpl. split; [discriminate | exact Hw].
    + discriminate Hstep.
  - inversion Hstep; subst; clear Hstep; simpl. split; [exact Hn |].
    intros Hcx; discriminate Hcx.
Qed.

Lemma uncancelled_inv_exec (sched : list process.tid) :
  forall s : process.Sys checker_state,
    process.inv ProcessOutputChunk env c0 s ->
    uncancelled_inv ProcessOutputChunk env c0 s ->
    uncancelled_inv ProcessOutputChunk env c0
      (process.exec ProcessOutputChunk env sched s).
Proof.
  induction sched as [| t sched IH]; intros s Hi Hu; simpl; [exact Hu |].
  destruct (process.step ProcessOutputChunk env t s) as [s' |] eqn:Hstep.
  - apply IH.
    + exact (harness_inv_step checker_state ProcessOutputChunk env c0 t s s' Hi Hstep).
    + eapply uncancelled_inv_step; eassumption.
  - apply IH; assumption.
Qed.

(** When the pipes are created and the context is not cancelled, a run
    that has returned has handed the processor the whole feed: every chunk
    up to and including the first one it answers [false] to, or every
    chunk of the output; and the processor is in the state that feed leaves
    it in. *)
Theorem harness_delivers_whole_feed (sched : list process.tid) :
  let s := process.exec ProcessOutputChunk env sched (process.init c0) in
  process.StdoutPipe_err env = None ->
  process.StderrPipe_err env = None ->
  process.has_returned (process.parent s) = true ->
  process.ctx_done s = false ->
  process.delivered s
    = process.feed ProcessOutputChunk c0 (process.stdout_chunks env) /\
  process.checker s
    = feed_state ProcessOutputChunk c0 (process.stdout_chunks env).
Proof.
  intros s H1 H2 Hret Hcx.
  assert (Hi : process.inv ProcessOutputChunk env c0 s)
    by (apply harness_inv_exec, harness_inv_init).
  assert (Hu : uncancelled_inv ProcessOutputChunk env c0 s).
  { apply uncancelled_inv_exec; [apply harness_inv_init |].
    split; simpl; auto. }
  destruct Hi as [_ Hp]. destruct Hu as [Hn Hw]. specialize (Hw Hcx).
  destruct (process.parent s) eqn:Hpa; try discriminate Hret.
  destruct Hp as [Hr | Hr].
  - destruct (Hn Hr) as [H | [H | H]]; [discriminate H | |]; congruence.
  - rewrite Hr in Hw. destruct Hw as [Hf Hs]. auto.
Qed.

(** What one step does once the context is cancelled: it delivers nothing
    and leaves the pending call as it is, or it makes the pending call. *)
Lemma Harness_step_cancelled (t : process.tid) (h h1 : Harness checker_state) :
  process.ctx_done (sys h) = true ->
  Harness_step ProcessOutputChunk env t h = Some h1 ->
  process.ctx_done (sys h1) = true /\
  ((process.delivered (sys h1) = process.delivered (sys h) /\
    (pending_call ProcessOutputChunk h1 = pending_call ProcessOutputChunk h \/
     pending_call ProcessOutputChunk h1 = [])) \/
   (process.delivered (sys h1)
    = process.delivered (sys h) ++ pending_call ProcessOutputChunk h /\
    pending_call ProcessOutputChunk h1 = [])).
Proof.
  destruct h as [[pa rd cx ck dl] chk]. unfold pending_call. simpl.
  intros -> Hs. destruct t; simpl in Hs.
  - unfold process.parent_step in Hs; simpl in Hs.
    destruct pa; try discriminate Hs;
      try (inversion Hs; subst; simpl; auto; fail).
    + destruct (process.StdoutPipe_err env);
        [| destruct (process.StderrPipe_err env)];
        inversion Hs; subst; simpl; auto.
    + destruct rd; try discriminate Hs. inversion Hs; subst; simpl; auto.
  - unfold readAndProcess_step, process.reader_step in Hs; simpl in Hs.
    destruct rd as [| [| payload rest] | payload rest | |];
      try discriminate Hs; try (inversion Hs; subst; simpl; auto; fail).
    + destruct chk.
      * destruct (ProcessOutputChunk ck payload) as [c cont].
        inversion Hs; subst; simpl. split; [reflexivity |]. right.
        destruct cont; auto.
      * inversion Hs; subst; simpl. auto.
    + destruct pa; try discriminate Hs. inversion Hs; subst; simpl; auto.
  - inversion Hs; subst; simpl; auto.
Qed.

(** Once the context is cancelled the reader hands the processor at most
    one more chunk, under every schedule: the chunk it had already tested
    the context for, when there is one.  A reader that has not passed the
    test hands over nothing, and every chunk scanned later is dropped. *)
Theorem harness_cancelled_delivers_at_most_one (sched : list process.tid)
    (h : Harness checker_state) :
  process.ctx_done (sys h) = true ->
  let h' := Harness_exec ProcessOutputChunk env sched h in
  (process.delivered (sys h') = process.delivered (sys h) \/
   process.delivered (sys h')
   = process.delivered (sys h) ++ pending_call ProcessOutputChunk h) /\
  (checked h = false -> process.delivered (sys h') = process.delivered (sys h)).
Proof.
  intros Hcx h'. subst h'.
  assert (H : process.delivered (sys (Harness_exec ProcessOutputChunk env sched h))
              = process.delivered (sys h) \/
              process.delivered (sys (Harness_exec ProcessOutputChunk env sched h))
              = process.delivered (sys h) ++ pending_call ProcessOutputChunk h).
  { revert h Hcx. induction sched as [| t sched IH]; intros h Hcx; simpl; [auto |].
    destruct (Harness_step ProcessOutputChunk env t h) as [h1 |] eqn:Hs;
      [| apply IH; exact Hcx].
    destruct (Harness_step_cancelled t h h1 Hcx Hs)
      as [Hcx1 [[Hd [Hp | Hp]] | [Hd Hp]]];
      destruct (IH h1 Hcx1) as [H | H]; rewrite H, ?Hp, ?Hd, ?app_nil_r; auto. }
  split; [exact H |].
  intros Hchk. destruct H as [H | H]; [exact H |].
  rewrite H. unfold pending_call. rewrite Hchk.
  destruct (process.reader (sys h)); apply app_nil_r.
Qed.

End HarnessRuns.

Lemma harness_delivers_whole_feed_witness :
  process.delivered
    (process.exec (process.stop_at "DONE") three_lines run_to_the_end (process.init []))
  = [("scanning", true); ("DONE", false)] /\
  process.checker
    (process.exec (process.stop_at "DONE") three_lines run_to_the_end (process.init []))
  = ["scanning"; "DONE"].
Proof.
  exact (harness_delivers_whole_feed (list string) (process.stop_at "DONE")
           three_lines [] run_to_the_end eq_refl eq_refl eq_refl eq_refl).
Defined.

Lemma harness_cancelled_delivers_at_most_one_witness :
  let h := Harness_exec (process.stop_at "DONE") three_lines cancelled_after_test
             (Harness_init []) in
  let h' := Harness_exec (process.stop_at "DONE") three_lines reader_then_run h in
  process.delivered (sys h') = process.delivered (sys h) \/
  process.delivered (sys h')
  = process.delivered (sys h) ++ pending_call (process.stop_at "DONE") h.
Proof.
  exact (proj1 (harness_cancelled_delivers_at_most_one (list string)
                  (process.stop_at "DONE") three_lines reader_then_run
                  (Harness_exec (process.stop_at "DONE") three_lines
                     cancelled_after_test (Harness_init []))
                  eq_refl)).
Defined.

(** The run of that schedule: the context is cancelled after the reader
    has tested it for the first chunk, and the processor is still handed
    that chunk; the second chunk is scanned and dropped, and [Run]
    returns. *)
Example cancelled_between_test_and_call :
  let h := Harness_exec (process.stop_at "DONE") three_lines
             (cancelled_after_test ++ reader_then_run) (Harness_init []) in
  process.ctx_done (sys h) = true /\
  process.delivered (sys h) = [("scanning", true)] /\
  process.parent (sys h) = process.Returned None.
Proof. repeat split. Qed.

(** ** The push transport: pressure and failures *)

Section TransportRuns.

Variable payload : Type.
Variable collector : nat -> rest.pusherMsg payload -> rest.Response.

Lemma warnings_app (l1 l2 : list LogEntry) :
  rest.warnings (l1 ++ l2) = (rest.warnings l1 + rest.warnings l2)%nat.
Proof. unfold rest.warnings. rewrite filter_app, length_app. reflexivity. Qed.

Lemma errors_app (l1 l2 : list LogEntry) :
  errors (l1 ++ l2) = (errors l1 + errors l2)%nat.
Proof. unfold errors. rewrite filter_app, length_app. reflexivity. Qed.

Lemma sendPushMsg_log (r : rest.Response) :
  rest.warnings (fst (rest.sendPushMsg r)) = 0%nat /\
  errors (fst (rest.sendPushMsg r)) = (if accepted r then 0 else 1)%nat /\
  snd (rest.sendPushMsg r) = Returns.
Proof.
  destruct r as [err | code]; simpl; [auto |].
  destruct (code =? rest.StatusOK); simpl; auto.
Qed.

Lemma unpressed_step (t : rest.tid) (s s' : rest.Sys payload) :
  unpressed s -> rest.step collector t s = Some s' -> unpressed s'.
Proof.
  unfold unpressed, rest.step. destruct s as [cid buf cap cl fin pr sd rq lg]; simpl.
  intros (Hw & Hroom & Hnb) Hstep.
  destruct t.
  - assert (Hp : rest.producer_step
                   (rest.mk_Sys cid buf cap cl fin pr sd rq lg) = Some s')
      by (destruct sd; try discriminate Hstep; exact Hstep).
    clear Hstep. unfold rest.producer_step, rest.try_send, rest.set_producer in Hp.
    simpl in Hp.
    destruct pr as [[| st todo] | m todo | |]; simpl in *.
    + inversion Hp; subst; clear Hp; simpl. rewrite warnings_app, Hw.
      repeat split; auto; discriminate.
    + assert (Hlt : (List.length buf <? cap)%nat = true) by (apply Nat.ltb_lt; lia).
      rewrite Hlt in Hp. inversion Hp; subst; clear Hp; simpl.
      rewrite warnings_app, Hw, length_app. simpl.
      repeat split; auto; [lia | discriminate].
    + contradiction (Hnb m todo). reflexivity.
    + destruct fin; [| discriminate Hp]. inversion Hp; subst; clear Hp; simpl.
      rewrite warnings_app, Hw. repeat split; auto; discriminate.
    + discriminate Hp.
  - assert (Hp : rest.sender_step collector
                   (rest.mk_Sys cid buf cap cl fin pr sd rq lg) = Some s')
      by (destruct sd; try discriminate Hstep; exact Hstep).
    clear Hstep. unfold rest.sender_step in Hp. simpl in Hp.
    destruct sd as [| m | |]; try discriminate Hp.
    + destruct buf as [| m buf]; [destruct cl; [| discriminate Hp] |];
        inversion Hp; subst; clear Hp; simpl in *;
        rewrite ?warnings_app, ?Hw; repeat split; auto; lia.
    + destruct (sendPushMsg_log (collector (List.length rq) m)) as (Hsw & _ & _).
      destruct (rest.sendPushMsg (collector (List.length rq) m)) as [l out].
      inversion Hp; subst; clear Hp; simpl in *.
      rewrite warnings_app, Hw, Hsw. repeat split; auto.
Qed.

(** A caller that pushes no more states than the buffer holds never finds
    it full: under every schedule no call of [UpdateState] blocks and the
    warning is never logged. *)
Theorem transport_without_pressure (config : rest.RestPusherConfig)
    (checkID : string) (all : list payload) (sched : list rest.tid) :
  (List.length all
   <= Z.to_nat (if (rest.BufferLen config =? 0)%Z then 10%Z
                else rest.BufferLen config))%nat ->
  let s := rest.exec collector sched (rest.NewRestPusher config checkID all) in
  rest.warnings (rest.logger s) = 0%nat /\
  (forall m todo, rest.producer s <> rest.PBlocked m todo).
Proof.
  intros Hlen s.
  assert (H : unpressed s).
  { subst s.
    assert (H0 : unpressed (rest.NewRestPusher config checkID all)).
    { unfold unpressed, rest.NewRestPusher. simpl.
      repeat split; [exact Hlen | discriminate]. }
    revert H0. generalize (rest.NewRestPusher config checkID all).
    induction sched as [| t sched IH]; intros s0 H0; simpl; [exact H0 |].
    destruct (rest.step collector t s0) as [s1 |] eqn:Hstep.
    - apply IH. eapply unpressed_step; eassumption.
    - apply IH. exact H0. }
  destruct H as (Hw & _ & Hnb). auto.
Qed.

Lemma rejected_from_app (reqs : list (rest.pusherMsg payload))
    (m : rest.pusherMsg payload) :
  forall n,
    rejected_from collector n (reqs ++ [m])
    = (rejected_from collector n reqs
       + (if accepted (collector (n + List.length reqs) m) then 0 else 1))%nat.
Proof.
  induction reqs as [| r reqs IH]; intros n; simpl.
  - rewrite !Nat.add_0_r. reflexivity.
  - rewrite IH. replace (S n + List.length reqs)%nat
      with (n + S (List.length reqs))%nat by lia.
    rewrite Nat.add_assoc. reflexivity.
Qed.

Lemma accounted_step (t : rest.tid) (s s' : rest.Sys payload) :
  accounted collector s -> rest.step collector t s = Some s' ->
  accounted collector s' /\ rest.checkID s' = rest.checkID s.
Proof.
  unfold accounted, rest.step. destruct s as [cid buf cap cl fin pr sd rq lg]; simpl.
  intros (He & Hid & Hb) Hstep.
  destruct t.
  - assert (Hp : rest.producer_step
                   (rest.mk_Sys cid buf cap cl fin pr sd rq lg) = Some s')
      by (destruct sd; try discriminate Hstep; exact Hstep).
    clear Hstep. unfold rest.producer_step, rest.try_send, rest.set_producer in Hp.
    simpl in Hp.
    destruct pr as [[| st todo] | m todo | |]; simpl in *.
    + inversion Hp; subst; clear Hp; simpl. rewrite errors_app, He. simpl.
      repeat split; auto; try lia. intros; discriminate.
    + destruct (List.length buf <? cap)%nat;
        inversion Hp; subst; clear Hp; simpl; rewrite errors_app, He; simpl.
      * repeat split; auto; try lia; [| intros; discriminate].
        rewrite !app_assoc. apply Forall_app. split; [| repeat constructor].
        rewrite <- app_assoc. exact Hid.
      * repeat split; auto; try lia. intros m0 todo0 H. inversion H; subst. reflexivity.
    + destruct (List.length buf <? cap)%nat; [| discriminate Hp].
      inversion Hp; subst; clear Hp; simpl. rewrite app_nil_r.
      repeat split; auto; [| intros; discriminate].
      rewrite !app_assoc. apply Forall_app. split.
      * rewrite <- app_assoc. exact Hid.
      * constructor; [apply (Hb m todo); reflexivity | constructor].
    + destruct fin; [| discriminate Hp]. inversion Hp; subst; clear Hp; simpl.
      rewrite errors_app, He. simpl.
      repeat split; auto; try lia. intros; discriminate.
    + discriminate Hp.
  - assert (Hp : rest.sender_step collector
                   (rest.mk_Sys cid buf cap cl fin pr sd rq lg) = Some s')
      by (destruct sd; try discriminate Hstep; exact Hstep).
    clear Hstep. unfold rest.sender_step in Hp. simpl in Hp.
    destruct sd as [| m | |]; try discriminate Hp.
    + destruct buf as [| m buf]; [destruct cl; [| discriminate Hp] |];
        inversion Hp; subst; clear Hp; simpl in *.
      * repeat split; auto.
      * rewrite errors_app, He. simpl. repeat split; auto; lia.
    + destruct (sendPushMsg_log (collector (List.length rq) m)) as (_ & Hse & _).
      destruct (rest.sendPushMsg (collector (List.length rq) m)) as [l out].
      inversion Hp; subst; clear Hp; simpl in *.
      rewrite errors_app, He, Hse, rejected_from_app. simpl.
      repeat split; auto.
      rewrite <- app_assoc.
      destruct out; simpl; exact Hid.
Qed.

(** A delivery the collector does not accept leaves one error line in the
    log and nothing else: under every schedule the log holds one error line
    for each request that was not answered with 200, and every request
    carries the check ID the pusher was created with. *)
Theorem transport_logs_each_failure (config : rest.RestPusherConfig)
    (checkID : string) (all : list payload) (sched : list rest.tid) :
  let s := rest.exec collector sched (rest.NewRestPusher config checkID all) in
  errors (rest.logger s) = rejected_from collector 0 (rest.requests s) /\
  Forall (fun m => rest.id m = checkID) (rest.requests s).
Proof.
  intros s.
  assert (H : accounted collector s /\ rest.checkID s = checkID).
  { subst s.
    assert (H0 : accounted collector (rest.NewRestPusher config checkID all) /\
                 rest.checkID (rest.NewRestPusher config checkID all) = checkID).
    { unfold accounted, rest.NewRestPusher. simpl.
      repeat split; auto. intros; discriminate. }
    revert H0. generalize (rest.NewRestPusher config checkID all).
    induction sched as [| t sched IH]; intros s0 H0; simpl; [exact H0 |].
    destruct (rest.step collector t s0) as [s1 |] eqn:Hstep.
    - apply IH. destruct H0 as [Ha Hc].
      destruct (accounted_step t s0 s1 Ha Hstep) as [Ha' Hc'].
      split; [exact Ha' | congruence].
    - apply IH. exact H0. }
  destruct H as [(He & Hid & _) Hc]. split; [exact He |].
  rewrite Forall_app in Hid. destruct Hid as [Hid _]. rewrite <- Hc. exact Hid.
Qed.

End TransportRuns.

Lemma transport_without_pressure_witness :
  rest.warnings
    (rest.logger (rest.exec collector_flaky push_then_send
                    (rest.NewRestPusher config_default "id" four_states)))
  = 0%nat.
Proof.
  apply (transport_without_pressure string collector_flaky config_default "id"
           four_states push_then_send).
  vm_compute. repeat constructor.
Defined.

(** Four pushes through the default buffer to a collector that rejects
    every second request: the four requests are made, two error lines are
    logged, and the shutdown returns. *)
Example flaky_collector_run :
  let s := rest.exec collector_flaky push_then_send
             (rest.NewRestPusher config_default "id" four_states) in
  rest.producer s = rest.PReturned /\
  map rest.msg (rest.requests s) = four_states /\
  errors (rest.logger s) = 2%nat /\
  rest.warnings (rest.logger s) = 0%nat.
Proof. vm_compute. repeat split. Qed.

(** ** Waiting for a file *)

Lemma WaitForFile_sleeps {File : Type} (open : result File) (k : nat) :
  forall (rest : list check.Stat) (slept : Z),
    check.WaitForFile (repeat check.NotExist k ++ rest) open slept
    = check.WaitForFile rest open (slept + check.retryTime * Z.of_nat k).
Proof.
  induction k as [| k IH]; intros rest slept.
  - cbn [repeat app]. f_equal. unfold check.retryTime. lia.
  - cbn [repeat app check.WaitForFile]. rewrite IH. f_equal.
    unfold check.retryTime. lia.
Qed.

(** [WaitForFile] has no limit: while the file does not exist it keeps
    polling, sleeping 100 ms after each look.  The first other answer ends
    it: an error of [os.Stat] is returned without opening the file, and
    once the file is seen the answer of [os.Open] is returned as it is,
    error included. *)
Theorem WaitForFile_polls {File : Type} (open : result File) (k : nat) :
  check.WaitForFile (repeat check.NotExist k) open 0 = None /\
  (forall rest,
      check.WaitForFile (repeat check.NotExist k ++ check.Exists :: rest) open 0
      = Some (open, 100 * Z.of_nat k)) /\
  (forall err rest,
      check.WaitForFile (repeat check.NotExist k ++ check.StatError err :: rest) open 0
      = Some (Err err, 100 * Z.of_nat k)).
Proof.
  split; [| split]; intros.
  - rewrite <- (app_nil_r (repeat check.NotExist k)), WaitForFile_sleeps. reflexivity.
  - rewrite WaitForFile_sleeps. reflexivity.
  - rewrite WaitForFile_sleeps. reflexivity.
Qed.

(** ** Running a command *)

(** What [ExecuteAndParse] returns tells three cases apart.  With no error
    the parser has accepted the output, and the status is the exit status
    of the process, zero or not: a process that fails is no error.  An
    error of the execution comes with status 0 and the result untouched.
    And when the parser rejects the output the status returned is 0
    whatever the process returned; the exit status is in the error only. *)
Theorem ExecuteAndParse_cases {R : Type} (parser : string -> R -> R * option error)
    (result r : R) (p : command.Process) (st : Z) (err : option command.ExecError) :
  command.ExecuteAndParse parser result p = command.Returned (r, st, err) ->
  match err with
  | None =>
      parser (command.stdOut p) result = (r, None) /\
      (command.Run_err p = None /\ st = 0 \/
       command.Run_err p = Some (command.ExitError (Some st)))
  | Some (command.RunFailed e) =>
      st = 0 /\ r = result /\ command.Run_err p = Some (command.OtherError e)
  | Some (command.ParseError out errOut status perr) =>
      st = 0 /\ out = command.stdOut p /\ errOut = command.stdErr p /\
      (command.Run_err p = None /\ status = 0 \/
       command.Run_err p = Some (command.ExitError (Some status))) /\
      exists e, parser (command.stdOut p) result = (r, Some e) /\ perr = Error e
  end.
Proof.
  unfold command.ExecuteAndParse, command.ExecuteWithStdErr.
  destruct (command.Run_err p) as [[[status |] | e] |]; try discriminate.
  - destruct (parser (command.stdOut p) result) as [r' [e |]];
      intros H; inversion H; subst; clear H.
    + repeat split; auto. exists e. auto.
    + auto.
  - intros H; inversion H; subst; clear H. auto.
  - destruct (parser (command.stdOut p) result) as [r' [e |]];
      intros H; inversion H; subst; clear H.
    + repeat split; auto. exists e. auto.
    + auto.
Qed.

Lemma ExecuteAndParse_cases_witness :
  command.Run_err exits_2 = Some (command.ExitError (Some 2)) /\
  exists e, reject_output (command.stdOut exits_2) "" = ("", Some e).
Proof.
  pose proof (ExecuteAndParse_cases keep_output "" "findings" exits_2 2 None eq_refl)
    as [_ [[_ H] | H]]; [discriminate H |].
  split; [exact H |].
  pose proof (ExecuteAndParse_cases reject_output "" "" exits_2 0
                (Some (command.ParseError "findings" "warning" 2
                         "unexpected end of JSON input")) eq_refl)
    as (_ & _ & _ & _ & e & He & _).
  exists e. exact He.
Defined.

(** ** Following redirects *)

Lemma drop_append (p s : string) : drop (String.length p) (p ++ s)%string = s.
Proof. induction p as [| c p IH]; [reflexivity | exact IH]. Qed.

Lemma length_append (p s : string) :
  String.length (p ++ s)%string = (String.length p + String.length s)%nat.
Proof. induction p as [| c p IH]; simpl; [reflexivity | rewrite IH; reflexivity]. Qed.

Lemma drop_split (n : nat) :
  forall s, (n <= String.length s)%nat ->
            exists p, s = (p ++ drop n s)%string /\ String.length p = n.
Proof.
  induction n as [| n IH]; intros s Hn.
  - exists EmptyString. auto.
  - destruct s as [| c s]; simpl in Hn; [lia |].
    destruct (IH s) as (p & Hp & Hl); [lia |].
    exists (String c p). simpl. rewrite <- Hp, Hl. auto.
Qed.

Lemma strings_HasSuffix_spec (s suffix : string) :
  strings_HasSuffix s suffix = true <-> exists p, s = (p ++ suffix)%string.
Proof.
  unfold strings_HasSuffix. split.
  - intros H. apply andb_prop in H. destruct H as [Hlen Heq].
    apply Nat.leb_le in Hlen. apply String.eqb_eq in Heq.
    destruct (drop_split (String.length s - String.length suffix) s) as (p & Hp & _);
      [lia |].
    exists p. rewrite Heq in Hp. exact Hp.
  - intros [p ->]. rewrite length_append.
    replace (String.length p + String.length suffix - String.length suffix)%nat
      with (String.length p) by lia.
    rewrite drop_append, String.eqb_refl, andb_true_r.
    apply Nat.leb_le. lia.
Qed.

Lemma strings_ToLower_append (p s : string) :
  httpredirect.strings_ToLower (p ++ s)%string
  = match httpredirect.strings_ToLower p, httpredirect.strings_ToLower s with
    | Some p', Some s' => Some (p' ++ s')%string
    | _, _ => None
    end.
Proof.
  induction p as [| c p IH]; simpl.
  - destruct (httpredirect.strings_ToLower s); reflexivity.
  - destruct (byte_of c <? 128); [| reflexivity]. rewrite IH.
    destruct (httpredirect.strings_ToLower p); [| reflexivity].
    destruct (httpredirect.strings_ToLower s); reflexivity.
Qed.

(** A hostname belongs to a domain for [IsRedirectingTo] whenever it ends
    in the letters of the domain, in any letter case: whatever ASCII text
    comes before them, with or without a dot in between, the answer is
    true, with the hostname as the client gave it and no error. *)
Theorem IsRedirectingTo_any_prefix (walk : string -> result string)
    (url before domain : string) (b d : string) :
  httpredirect.strings_ToLower before = Some b ->
  httpredirect.strings_ToLower domain = Some d ->
  forall domain',
    httpredirect.strings_ToLower domain' = Some d ->
    walk url = Ok (before ++ domain')%string ->
    httpredirect.IsRedirectingTo walk url domain
    = Some (true, (before ++ domain')%string, None).
Proof.
  intros Hb Hd domain' Hd' Hwalk. unfold httpredirect.IsRedirectingTo.
  rewrite Hwalk, strings_ToLower_append, Hb, Hd', Hd.
  assert (H : strings_HasSuffix (b ++ d)%string d = true)
    by (apply strings_HasSuffix_spec; exists b; reflexivity).
  rewrite H. reflexivity.
Qed.

Lemma IsRedirectingTo_any_prefix_witness :
  httpredirect.IsRedirectingTo (lands_on "login.notOKTA.com") "http://example.com"
    httpredirect.OKTADomain
  = Some (true, "login.notOKTA.com", None).
Proof.
  exact (IsRedirectingTo_any_prefix (lands_on "login.notOKTA.com") "http://example.com"
           "login.not" "okta.com" "login.not" "okta.com" eq_refl eq_refl
           "OKTA.com" eq_refl eq_refl).
Defined.

(** And only then: for ASCII names the answer is true exactly when the
    lowered hostname ends in the lowered domain. *)
Lemma IsRedirectingTo_suffix (walk : string -> result string)
    (url domain host h d : string) :
  walk url = Ok host ->
  httpredirect.strings_ToLower host = Some h ->
  httpredirect.strings_ToLower domain = Some d ->
  exists res,
    httpredirect.IsRedirectingTo walk url domain = Some (res, host, None) /\
    (res = true <-> exists p, h = (p ++ d)%string).
Proof.
  intros Hwalk Hh Hd. unfold httpredirect.IsRedirectingTo.
  rewrite Hwalk, Hh, Hd. eexists. split; [reflexivity |].
  apply strings_HasSuffix_spec.
Qed.

(** ** The configuration *)

Section ConfigurationFacts.

Variable Getenv : string -> string.
Variable Quote : string -> string.
Variable ParseInt : string -> option Z.
Variable debug_option : string -> option bool.

Lemma is_set_chosen (v w : string) :
  configuration.is_set v = true ->
  (if configuration.is_set (if configuration.is_set v then v else w)
   then v else w) = v.
Proof. intros H. rewrite H, H. reflexivity. Qed.

(** The fields of the configuration after the overrides. *)
Lemma OverrideConfigFromEnvVars_fields (c : configuration.Config) :
  let c' := fst (configuration.OverrideConfigFromEnvVars Getenv Quote ParseInt c) in
  configuration.Check c'
    = configuration.Check (configuration.overrideConfigCheckEnvVars Getenv c) /\
  configuration.CheckTypeName c'
    = configuration.CheckTypeName (configuration.overrideConfigCheckEnvVars Getenv c) /\
  configuration.CheckTypeVersion c'
    = configuration.CheckTypeVersion (configuration.overrideConfigCheckEnvVars Getenv c) /\
  configuration.Log c'
    = configuration.Log (configuration.overrideConfigLogEnvVars Getenv c) /\
  configuration.CommMode c'
    = configuration.CommMode (configuration.overrideCommConfigEnvVars Getenv ParseInt c) /\
  configuration.Push c'
    = configuration.Push (configuration.overrideCommConfigEnvVars Getenv ParseInt c) /\
  configuration.AllowPrivateIPs c'
    = configuration.AllowPrivateIPs
        (fst (configuration.overrideValidationConfigEnvVars Getenv Quote c)) /\
  snd (configuration.OverrideConfigFromEnvVars Getenv Quote ParseInt c)
    = snd (configuration.overrideValidationConfigEnvVars Getenv Quote c).
Proof.
  unfold configuration.OverrideConfigFromEnvVars,
    configuration.overrideValidationConfigEnvVars.
  destruct (String.eqb (Getenv configuration.allowPrivateIPs) "");
    [| destruct (configuration.ParseBool (Getenv configuration.allowPrivateIPs))];
    cbn; repeat split.
Qed.

End ConfigurationFacts.

Section ConfigurationRuns.

Variable Getenv : string -> string.
Variable Quote : string -> string.
Variable ParseInt : string -> option Z.
Variable debug_option : string -> option bool.

Lemma Config_eta (c1 c2 : configuration.Config) :
  configuration.Check c1 = configuration.Check c2 ->
  configuration.CheckTypeName c1 = configuration.CheckTypeName c2 ->
  configuration.CheckTypeVersion c1 = configuration.CheckTypeVersion c2 ->
  configuration.Log c1 = configuration.Log c2 ->
  configuration.CommMode c1 = configuration.CommMode c2 ->
  configuration.Push c1 = configuration.Push c2 ->
  configuration.AllowPrivateIPs c1 = configuration.AllowPrivateIPs c2 ->
  c1 = c2.
Proof.
  destruct c1, c2; simpl; intros; subst; reflexivity.
Qed.

Ltac settle_env :=
  repeat match goal with
         | |- context [configuration.is_set (Getenv ?x)] =>
             destruct (configuration.is_set (Getenv x))
         end;
  try reflexivity.

(** Applying the overrides from the environment a second time changes
    nothing: the configuration and the error are those of the first
    time. *)
Theorem OverrideConfigFromEnvVars_idempotent (c : configuration.Config) :
  configuration.OverrideConfigFromEnvVars Getenv Quote ParseInt
    (fst (configuration.OverrideConfigFromEnvVars Getenv Quote ParseInt c))
  = configuration.OverrideConfigFromEnvVars Getenv Quote ParseInt c.
Proof.
  destruct (OverrideConfigFromEnvVars_fields Getenv Quote ParseInt c)
    as (H1 & H2 & H3 & H4 & H5 & H6 & H7 & H8).
  destruct (OverrideConfigFromEnvVars_fields Getenv Quote ParseInt
              (fst (configuration.OverrideConfigFromEnvVars Getenv Quote ParseInt c)))
    as (G1 & G2 & G3 & G4 & G5 & G6 & G7 & G8).
  cbv zeta in *.
  apply injective_projections.
  - apply Config_eta.
    + rewrite G1. unfold configuration.overrideConfigCheckEnvVars.
      cbn [configuration.Check]. rewrite H1.
      unfold configuration.overrideConfigCheckEnvVars.
      cbn [configuration.Check config.Target config.Opts config.CheckID].
      settle_env.
    + rewrite G2. unfold configuration.overrideConfigCheckEnvVars.
      cbn [configuration.CheckTypeName]. rewrite H2.
      unfold configuration.overrideConfigCheckEnvVars.
      cbn [configuration.CheckTypeName]. settle_env.
    + rewrite G3. unfold configuration.overrideConfigCheckEnvVars.
      cbn [configuration.CheckTypeVersion]. rewrite H3.
      unfold configuration.overrideConfigCheckEnvVars.
      cbn [configuration.CheckTypeVersion]. settle_env.
    + rewrite G4. unfold configuration.overrideConfigLogEnvVars.
      cbn [configuration.Log]. rewrite H4.
      unfold configuration.overrideConfigLogEnvVars.
      cbn [configuration.Log configuration.LogFmt configuration.LogLevel].
      settle_env.
    + rewrite G5. unfold configuration.overrideCommConfigEnvVars.
      cbn [configuration.CommMode]. rewrite H5.
      unfold configuration.overrideCommConfigEnvVars.
      cbn [configuration.CommMode].
      destruct (configuration.is_set (Getenv configuration.commModeEnv));
        [reflexivity |].
      destruct (String.eqb (configuration.CommMode c) "") eqn:Hm;
        [reflexivity | rewrite Hm; reflexivity].
    + rewrite G6. unfold configuration.overrideCommConfigEnvVars.
      cbn [configuration.Push]. rewrite H6.
      unfold configuration.overrideCommConfigEnvVars.
      cbn [configuration.Push rest.AgentAddr rest.BufferLen]. settle_env.
    + assert (Hv : forall x,
                configuration.AllowPrivateIPs
                  (fst (configuration.overrideValidationConfigEnvVars Getenv Quote x))
                = match (if String.eqb (Getenv configuration.allowPrivateIPs) ""
                         then None
                         else configuration.ParseBool
                                (Getenv configuration.allowPrivateIPs)) with
                  | Some b => Some b
                  | None => configuration.AllowPrivateIPs x
                  end).
      { intros x. unfold configuration.overrideValidationConfigEnvVars.
        destruct (String.eqb (Getenv configuration.allowPrivateIPs) "");
          [reflexivity |].
        destruct (configuration.ParseBool (Getenv configuration.allowPrivateIPs));
          reflexivity. }
      rewrite G7, Hv, H7, Hv.
      destruct (if String.eqb (Getenv configuration.allowPrivateIPs) ""
                then None
                else configuration.ParseBool (Getenv configuration.allowPrivateIPs));
        reflexivity.
  - rewrite G8, H8. unfold configuration.overrideValidationConfigEnvVars.
    destruct (String.eqb (Getenv configuration.allowPrivateIPs) "");
      [reflexivity |].
    destruct (configuration.ParseBool (Getenv configuration.allowPrivateIPs));
      reflexivity.
Qed.

End ConfigurationRuns.

Section ConfigurationBuilt.

Variable Getenv : string -> string.
Variable Quote : string -> string.
Variable ParseInt : string -> option Z.
Variable debug_option : string -> option bool.

Lemma BuildConfig_inv (fileExists : bool) (load : result configuration.Config)
    (c : configuration.Config) :
  configuration.BuildConfig Getenv Quote ParseInt debug_option fileExists load = Ok c ->
  exists c0,
    (if fileExists then load else Ok configuration.zero) = Ok c0 /\
    snd (configuration.OverrideConfigFromEnvVars Getenv Quote ParseInt c0) = None /\
    c = configuration.OverrideConfigFromOptions debug_option
          (fst (configuration.OverrideConfigFromEnvVars Getenv Quote ParseInt c0)).
Proof.
  unfold configuration.BuildConfig.
  destruct (if fileExists then load else Ok configuration.zero) as [c0 | e];
    [| discriminate].
  destruct (configuration.OverrideConfigFromEnvVars Getenv Quote ParseInt c0)
    as [c1 [e |]] eqn:Ho; [discriminate |].
  intros H. inversion H; subst. exists c0. rewrite Ho.
  split; [reflexivity |]. split; reflexivity.
Qed.

Lemma OverrideConfigFromOptions_keeps (c : configuration.Config) :
  let c' := configuration.OverrideConfigFromOptions debug_option c in
  configuration.Check c' = configuration.Check c /\
  configuration.CheckTypeName c' = configuration.CheckTypeName c /\
  configuration.CheckTypeVersion c' = configuration.CheckTypeVersion c /\
  configuration.AllowPrivateIPs c' = configuration.AllowPrivateIPs c.
Proof.
  unfold configuration.OverrideConfigFromOptions.
  destruct (configuration.is_set _); [| auto].
  destruct (debug_option _) as [[|] |]; auto.
Qed.

(** The version of the check type is taken from the environment exactly
    when the name of the check type is set there.  A version set alone is
    dropped, and a name set alone replaces the version of the file by the
    empty one. *)
Theorem BuildConfig_type_version (fileExists : bool)
    (load : result configuration.Config) (c : configuration.Config) :
  configuration.BuildConfig Getenv Quote ParseInt debug_option fileExists load = Ok c ->
  exists c0,
    (if fileExists then load else Ok configuration.zero) = Ok c0 /\
    configuration.CheckTypeVersion c
    = (if String.eqb (Getenv configuration.checkTypeNameEnv) ""
       then configuration.CheckTypeVersion c0
       else Getenv configuration.checkTypeVersionEnv) /\
    configuration.CheckTypeName c
    = (if String.eqb (Getenv configuration.checkTypeNameEnv) ""
       then configuration.CheckTypeName c0
       else Getenv configuration.checkTypeNameEnv).
Proof.
  intros H. destruct (BuildConfig_inv _ _ _ H) as (c0 & Hc0 & _ & ->).
  exists c0. split; [exact Hc0 |].
  destruct (OverrideConfigFromOptions_keeps
              (fst (configuration.OverrideConfigFromEnvVars Getenv Quote ParseInt c0)))
    as (_ & Hn & Hv & _).
  destruct (OverrideConfigFromEnvVars_fields Getenv Quote ParseInt c0)
    as (_ & Hn' & Hv' & _).
  cbv zeta in *. rewrite Hn, Hv, Hn', Hv'.
  unfold configuration.overrideConfigCheckEnvVars, configuration.is_set. cbn.
  destruct (String.eqb (Getenv configuration.checkTypeNameEnv) ""); auto.
Qed.

(** Whether a check scans private addresses: the environment decides when
    it holds a boolean, else the configuration file when it says so; when
    neither does, a check run in test mode or on a target of the command
    line scans them and a check pushed to the agent does not. *)
Theorem NewCheck_private_addresses (fileExists : bool)
    (load : result configuration.Config) (flags : configuration.Flags)
    (reporterURL : string) (runner : configuration.Runner)
    (conf : configuration.Config) :
  configuration.NewCheck flags reporterURL
    (configuration.BuildConfig Getenv Quote ParseInt debug_option fileExists load)
  = Ok (runner, conf) ->
  exists c0,
    (if fileExists then load else Ok configuration.zero) = Ok c0 /\
    push.ptrToBool (config.AllowPrivateIPs (configuration.lifecycle conf))
    = match configuration.ParseBool (Getenv configuration.allowPrivateIPs) with
      | Some b => b
      | None =>
          match configuration.AllowPrivateIPs c0 with
          | Some b => b
          | None => negb (is_pushed runner)
          end
      end.
Proof.
  intros H. unfold configuration.NewCheck in H.
  destruct (configuration.BuildConfig _ _ _ _ _ _) as [cB | e] eqn:Hb;
    [| discriminate H].
  destruct (BuildConfig_inv _ _ _ Hb) as (c0 & Hc0 & Herr & HcB).
  exists c0. split; [exact Hc0 |].
  destruct (OverrideConfigFromOptions_keeps
              (fst (configuration.OverrideConfigFromEnvVars Getenv Quote ParseInt c0)))
    as (_ & _ & _ & Ha).
  destruct (OverrideConfigFromEnvVars_fields Getenv Quote ParseInt c0)
    as (_ & _ & _ & _ & _ & _ & Ha' & He).
  cbv zeta in *. rewrite He in Herr.
  assert (Hallow : configuration.AllowPrivateIPs cB
                   = match configuration.ParseBool
                             (Getenv configuration.allowPrivateIPs) with
                     | Some b => Some b
                     | None => configuration.AllowPrivateIPs c0
                     end).
  { rewrite HcB, Ha, Ha'.
    unfold configuration.overrideValidationConfigEnvVars in *.
    destruct (String.eqb (Getenv configuration.allowPrivateIPs) "") eqn:Hset.
    - apply String.eqb_eq in Hset. rewrite Hset. reflexivity.
    - destruct (configuration.ParseBool (Getenv configuration.allowPrivateIPs));
        [reflexivity | discriminate Herr]. }
  clear Ha Ha' He Hb Herr HcB.
  unfold configuration.lifecycle. cbn [config.AllowPrivateIPs].
  destruct (configuration.testMode flags);
    [| destruct (negb (String.eqb (configuration.runTarget flags) ""))];
    inversion H; subst; cbn [configuration.AllowPrivateIPs is_pushed negb];
    rewrite Hallow;
    destruct (configuration.ParseBool (Getenv configuration.allowPrivateIPs));
    try reflexivity;
    destruct (configuration.AllowPrivateIPs c0); reflexivity.
Qed.

End ConfigurationBuilt.

Lemma BuildConfig_type_version_witness :
  exists c0,
    Ok file_with_version = Ok c0 /\
    "3" = configuration.CheckTypeVersion c0 /\
    "vulcan-nmap" = configuration.CheckTypeName c0.
Proof.
  destruct (BuildConfig_type_version env_version_only quote_plain no_int no_debug
              true (Ok file_with_version)
              (configuration.mk_Config (config.mk_CheckConfig "10.0.0.1" "" "id")
                 "vulcan-nmap" "3" (configuration.mk_LogConfig "" "") "push"
                 (rest.mk_RestPusherConfig "agent:80" 0) None)
              eq_refl) as (c0 & H0 & Hv & Hn).
  exists c0. split; [exact H0 |]. split; [exact Hv | exact Hn].
Defined.

Lemma NewCheck_private_addresses_witness :
  exists c0,
    Ok configuration.zero = Ok c0 /\
    false = match configuration.AllowPrivateIPs c0 with
            | Some b => b
            | None => false
            end.
Proof.
  destruct (NewCheck_private_addresses env_version_only quote_plain no_int no_debug
              false (Ok file_with_version) no_flags "http://127.0.0.1:9"
              configuration.Pushed
              (configuration.mk_Config (config.mk_CheckConfig "10.0.0.1" "" "")
                 "" "" (configuration.mk_LogConfig "" "") "push"
                 (rest.mk_RestPusherConfig "" 0) None)
              eq_refl) as (c0 & H0 & H).
  exists c0. split; [exact H0 | exact H].
Defined.

(** A check pushed with no word on private addresses and one run on a
    target of the command line, and an environment whose flag is no
    boolean. *)
Example private_addresses_by_runner :
  (exists c,
      configuration.NewCheck no_flags ""
        (configuration.BuildConfig env_version_only quote_plain no_int no_debug
           false (Ok configuration.zero)) = Ok (configuration.Pushed, c) /\
      configuration.AllowPrivateIPs c = None /\
      config.Target (configuration.Check c) = "10.0.0.1") /\
  (exists c,
      configuration.NewCheck (run_flags "10.0.0.1") ""
        (configuration.BuildConfig env_version_only quote_plain no_int no_debug
           false (Ok configuration.zero)) = Ok (configuration.Local false, c) /\
      configuration.AllowPrivateIPs c = Some true) /\
  configuration.BuildConfig env_bad_flag quote_plain no_int no_debug
    false (Ok configuration.zero)
  = Err (Errorf "can not parse allow private IPs option from env var (VULCAN_ALLOW_PRIVATE_IPS=yes): strconv.ParseBool: parsing 'yes': invalid syntax").
Proof.
  split; [| split].
  - eexists. split; [reflexivity |]. split; reflexivity.
  - eexists. split; [reflexivity |]. reflexivity.
  - reflexivity.
Qed.

(** ** The resolver: errors *)

(** None of the three methods that query the resolver answers [true]
    together with an error: whenever an error is returned the answer is
    [false]. *)
Theorem resolver_error_means_false (P : Platform) (t : helpers.Target)
    (address : string) (w : helpers.World) :
  let h := fst (helpers.IsHostname P t w) in
  let d := fst (helpers.IsDomainName P t w) in
  let s := fst (helpers.hasSOARecord P address w) in
  (snd h = None \/ fst h = false) /\
  (snd d = None \/ fst d = false) /\
  (snd s = None \/ fst s = false).
Proof.
  split; [| split].
  - unfold helpers.IsHostname, helpers.IsHostname_body, helpers.LookupIP.
    destruct (helpers.hostname t); [simpl; auto |].
    destruct (helpers.IsIP t); [simpl; auto |].
    unfold helpers.bind, helpers.ret, helpers.sent.
    destruct (net_LookupIP P (helpers.Value t)) as [ips | err]; [simpl; auto |].
    destruct (strings_Contains (Error err) helpers.noSuchHostErrorToken); simpl; auto.
  - unfold helpers.IsDomainName, helpers.IsDomainName_body.
    destruct (helpers.domainName t); [simpl; auto |].
    destruct (helpers.IsIP t); [simpl; auto |].
    unfold helpers.bind, helpers.ret.
    destruct (helpers.IsDomainName_asset P (helpers.Value t) w) as [[b [err |]] w'];
      simpl; auto.
  - unfold helpers.hasSOARecord, helpers.get_dnsConf, helpers.ClientConfigFromFile,
      helpers.set_dnsConf, helpers.sent.
    unfold helpers.bind, helpers.ret.
    destruct (helpers.dnsConf w) as [c |].
    + destruct (helpers.hasSOARecord_servers P (dns.Servers c) (dns.Port c) _ None w)
        as [[[m |] | err] w']; simpl; auto.
    + destruct (dns_ClientConfigFromFile P helpers.dnsConfFilePath) as [c | err];
        [| simpl; auto].
      match goal with
      | |- context [helpers.hasSOARecord_servers P ?sv ?pt ?ad None ?w0] =>
          destruct (helpers.hasSOARecord_servers P sv pt ad None w0)
            as [[[m |] | err] w']
      end; simpl; auto.
Qed.
